(** * gohttp: the SSE session and broadcast layer

    A shallow embedding of the Go package [service] of
    Moonlight-Companies/gohttp: the accept-header discriminator
    ([containsAcceptType]), the message model ([SseMessage], [Encode]),
    the per-connection session ([SseSession], [DirectMessage], [Close]),
    the callback resolution ([handleCallback]) and the connection handler
    registered by [RegisterSSE], together with the properties the
    specification states about them.

    How the program is modelled:
    - sessions are objects on a heap, the registry maps client ids to
      their addresses, and the handler functions run in a monad that
      threads this state, records what they do in a trace, and can
      panic;
    - a channel is its buffer, its capacity and its closed flag, with
      the non-blocking send and receive of a [select];
    - the [select] of the connection loop is driven by a schedule: the
      case that fires in each round, and what other goroutines, the
      clock and the transport do in between;
    - time is a logical clock, and the keepalive ticker is the time of
      its next tick;
    - a handler is an object with a state of its own, which its hooks
      transform;
    - what comes from outside the repository ([json.Marshal], goconvert's
      [ConvertInto], the fan-out primitive) is a parameter or part of
      the schedule. *)

From Stdlib Require Import ZArith String Ascii List Bool Lia.
From stdpp Require Import base option list gmap strings pretty sorting.

Local Open Scope string_scope.
Local Open Scope Z_scope.
Local Open Scope list_scope.

(** ** The pieces of Go's [strings] package used by the source *)

Module GoStrings.

(** [strings.Split(s, sep)] for a one-byte separator (the source only
    splits on [","] and [";"]): the pieces of [s] between consecutive
    separators; never empty, [Split("", sep)] is [[""]]. *)
Fixpoint Split (s : string) (sep : ascii) : list string :=
  match s with
  | EmptyString => [EmptyString]
  | String c s' =>
      if Ascii.eqb c sep then EmptyString :: Split s' sep
      else match Split s' sep with
           | p :: ps => String c p :: ps
           | [] => [String c EmptyString]
           end
  end.

(** [strings.Join(parts, sep)], used to state what [Split] computes. *)
Fixpoint Join (parts : list string) (sep : ascii) : string :=
  match parts with
  | [] => EmptyString
  | [p] => p
  | p :: ps => p +:+ String sep (Join ps sep)
  end.

Definition bytes (l : list nat) : string :=
  fold_right (fun n s => String (ascii_of_nat n) s) EmptyString l.

(** The UTF-8 encodings of the code points with Unicode's White_Space
    property, which is what [unicode.IsSpace] accepts: U+0009..U+000D,
    U+0020, U+0085, U+00A0, U+1680, U+2000..U+200A, U+2028, U+2029,
    U+202F, U+205F, U+3000. *)
Definition space_encodings : list string :=
  map bytes
    [ [9]; [10]; [11]; [12]; [13]; [32];
      [194; 133]; [194; 160]; [225; 154; 128];
      [226; 128; 128]; [226; 128; 129]; [226; 128; 130]; [226; 128; 131];
      [226; 128; 132]; [226; 128; 133]; [226; 128; 134]; [226; 128; 135];
      [226; 128; 136]; [226; 128; 137]; [226; 128; 138];
      [226; 128; 168]; [226; 128; 169]; [226; 128; 175];
      [226; 129; 159]; [227; 128; 128] ]%nat.

(** [strip p s] is what follows [p] in [s] when [s] begins with [p]. *)
Fixpoint strip (p s : string) : option string :=
  match p, s with
  | EmptyString, _ => Some s
  | String a p', String b s' => if Ascii.eqb a b then strip p' s' else None
  | String _ _, EmptyString => None
  end.

Fixpoint strip_any (ps : list string) (s : string) : option string :=
  match ps with
  | [] => None
  | p :: ps' => match strip p s with
                | Some r => Some r
                | None => strip_any ps' s
                end
  end.

Fixpoint trim_front (encs : list string) (fuel : nat) (s : string) : string :=
  match fuel with
  | O => s
  | S fuel' => match strip_any encs s with
               | Some r => trim_front encs fuel' r
               | None => s
               end
  end.

Fixpoint rev_string (acc s : string) : string :=
  match s with
  | EmptyString => acc
  | String c s' => rev_string (String c acc) s'
  end.

Definition reverse (s : string) : string := rev_string EmptyString s.

(** [strings.TrimLeftFunc(s, unicode.IsSpace)] *)
Definition TrimLeftSpace (s : string) : string :=
  trim_front space_encodings (String.length s) s.

(** [strings.TrimRightFunc(s, unicode.IsSpace)]: the last rune of a
    string is a space exactly when the string ends with one of the
    encodings, so the right end is trimmed on the reversed bytes. *)
Definition TrimRightSpace (s : string) : string :=
  reverse (trim_front (map reverse space_encodings) (String.length s) (reverse s)).

(** [strings.TrimSpace(s)] *)
Definition TrimSpace (s : string) : string := TrimRightSpace (TrimLeftSpace s).

End GoStrings.

(** ** part_002: [containsAcceptType] *)

(** The body of the [for _, part := range parts] loop with its early
    [return true]. *)
Fixpoint containsAcceptType_range (parts : list string) (expectedType : string) : bool :=
  match parts with
  | [] => false
  | part :: rest =>
      let part := GoStrings.TrimSpace (hd EmptyString (GoStrings.Split part ";"%char)) in
      if String.eqb part expectedType then true
      else containsAcceptType_range rest expectedType
  end.

Definition containsAcceptType (acceptHeader expectedType : string) : bool :=
  containsAcceptType_range (GoStrings.Split acceptHeader ","%char) expectedType.

(** ** part_005: messages *)

(** The dynamically typed values ([interface{}]) that occur in messages
    and in the unified request parameters. *)
Inductive Value :=
| VString (s : string)
| VInt (z : Z)
| VBool (b : bool)
| VNull.

Definition ClientID := string.

(** Go's [error]: [None] is [nil], [Some e] an error with message [e]. *)
Definition error := option string.

(** [type SseMessage map[string]interface{}] *)
Abbreviation SseMessage := (gmap string Value).

Definition Event (m : SseMessage) : string :=
  match m !! "event" with
  | Some (VString event) => event
  | _ => ""
  end.

(** What the package takes from outside the repository: [json.Marshal]
    of encoding/json on a message, and [convert.ConvertInto[string]] of
    goconvert, which [HttpParameterT[string]] ends in. *)
Class External := {
  json_Marshal : SseMessage -> string + string;
  ConvertInto_string : Value -> string * bool
}.

Definition CRLF : string := String "013"%char (String "010"%char EmptyString).

Definition Encode {E : External} (m : SseMessage) : string + string :=
  match json_Marshal m with
  | inr err => inr err
  | inl encoded_message => inl ("data: " +:+ encoded_message +:+ CRLF +:+ CRLF)
  end.

(** ** Requests and response writers *)

(** An inbound request: its headers and the unified parameter view that
    [Service.parameters] stores in the request context (query, path,
    form and decoded JSON body). *)
Record Request := {
  Header : gmap string string;
  Params : gmap string Value
}.

(** [r.Header.Get(key)]: the empty string when the header is absent.
    (net/http stores and looks up header names in canonical form; the
    names are taken here as the source writes them.) *)
Definition Header_Get (r : Request) (key : string) : string :=
  default "" (Header r !! key).

Definition HttpParameterGeneric (r : Request) (name : string) : option Value :=
  Params r !! name.

Definition HttpParameterT_string {E : External} (r : Request) (name : string) : string * bool :=
  match HttpParameterGeneric r name with
  | None => ("", false)
  | Some value => ConvertInto_string value
  end.

(** An [http.ResponseWriter]: whether it also implements [http.Flusher],
    whether the transport is broken (writes fail), and what has been
    written so far. *)
Record ResponseWriter := {
  is_flusher : bool;
  broken : bool;
  wire : list string
}.

(** ** Channels *)

Record chan (A : Type) := {
  buf : list A;
  cap : nat;
  chan_closed : bool
}.
Arguments buf {A} _.
Arguments cap {A} _.
Arguments chan_closed {A} _.

Definition make_chan {A : Type} (n : nat) : chan A :=
  {| buf := []; cap := n; chan_closed := false |}.

Inductive SendResult (A : Type) :=
| Sent (c : chan A)
| WouldBlock
| SendPanic.
Arguments Sent {A} _.
Arguments WouldBlock {A}.
Arguments SendPanic {A}.

(** [select { case c <- v: ... default: ... }]: sending on a closed
    channel panics, a full buffer selects [default]. *)
Definition try_send {A : Type} (c : chan A) (v : A) : SendResult A :=
  if chan_closed c then SendPanic
  else if (length (buf c) <? cap c)%nat
       then Sent {| buf := buf c ++ [v]; cap := cap c; chan_closed := false |}
       else WouldBlock.

Inductive RecvResult (A : Type) :=
| Recv (v : A) (c : chan A)
| RecvClosed
| NotReady.
Arguments Recv {A} _ _.
Arguments RecvClosed {A}.
Arguments NotReady {A}.

(** [v, ok := <-c] as a [select] case: buffered values are delivered
    first, also after the close; an empty closed channel yields [!ok];
    an empty open channel is not ready. *)
Definition try_recv {A : Type} (c : chan A) : RecvResult A :=
  match buf c with
  | v :: rest => Recv v {| buf := rest; cap := cap c; chan_closed := chan_closed c |}
  | [] => if chan_closed c then RecvClosed else NotReady
  end.

(** [close(c)]: closing a closed channel panics ([None]). *)
Definition close_chan {A : Type} (c : chan A) : option (chan A) :=
  if chan_closed c then None
  else Some {| buf := buf c; cap := cap c; chan_closed := true |}.

(** The consumer handle of the fan-out primitive (gompmc, outside the
    repository): its id and how often [Close] was called on it. *)
Record Consumer := {
  consumer_id : ClientID;
  consumer_closes : nat
}.

Definition Consumer_Close (c : Consumer) : Consumer :=
  {| consumer_id := consumer_id c; consumer_closes := S (consumer_closes c) |}.

(** ** Sessions *)

(** [SseEventHandler]: the five hooks. A handler is an object with a
    state of its own, of type [H]: a hook takes that state and gives
    the new one back with its result. What a hook does to the rest of
    the world through the values it is handed (the writer, the server,
    the session) is outside the model. *)
Class SseEventHandler (H : Type) := {
  OnInitialize : H -> Request -> ClientID -> H * error;
  OnConnect : H -> Request -> H * error;
  OnDisconnect : H -> Request -> H;
  OnMessage : H -> Request -> SseMessage -> H * bool;
  OnCallback : H -> Request -> H
}.

Record SseSession (H : Type) := {
  client_id : ClientID;
  user_handler : option H;
  done : chan unit;
  broadcast_messages : Consumer;
  direct_messages : chan SseMessage;
  closed : bool
}.
Arguments client_id {H} _.
Arguments user_handler {H} _.
Arguments done {H} _.
Arguments broadcast_messages {H} _.
Arguments direct_messages {H} _.
Arguments closed {H} _.

(** The method [ClientID]. *)
Definition ClientID_of {H : Type} (s : SseSession H) : ClientID := client_id s.

Definition errSessionClosed : string := "session closed".
Definition errBufferFull : string := "direct message buffer full".

(** [DirectMessage]; [None] is a panic (send on a closed channel). *)
Definition DirectMessage {H : Type} (s : SseSession H) (msg : SseMessage)
  : option (SseSession H * error) :=
  if closed s then Some (s, Some errSessionClosed)
  else match try_send (direct_messages s) msg with
       | Sent c =>
           Some ({| client_id := client_id s; user_handler := user_handler s;
                    done := done s; broadcast_messages := broadcast_messages s;
                    direct_messages := c; closed := closed s |}, None)
       | WouldBlock => Some (s, Some errBufferFull)
       | SendPanic => None
       end.

Inductive Resource := ResDone | ResConsumer | ResDirect.

(** The part of [Close] under the mutex: test and set the flag. The
    boolean tells whether this call is the one that goes on to release. *)
Definition Close_guard {H : Type} (s : SseSession H) : SseSession H * bool :=
  if closed s then (s, false)
  else ({| client_id := client_id s; user_handler := user_handler s;
           done := done s; broadcast_messages := broadcast_messages s;
           direct_messages := direct_messages s; closed := true |}, true).

(** The part of [Close] after the unlock: [close(s.done)],
    [s.broadcast_messages.Close()], [close(s.direct_messages)]. *)
Definition Close_release {H : Type} (s : SseSession H)
  : option (SseSession H * list Resource) :=
  match close_chan (done s) with
  | None => None
  | Some d =>
      let c := Consumer_Close (broadcast_messages s) in
      match close_chan (direct_messages s) with
      | None => None
      | Some q =>
          Some ({| client_id := client_id s; user_handler := user_handler s;
                   done := d; broadcast_messages := c;
                   direct_messages := q; closed := closed s |},
                [ResDone; ResConsumer; ResDirect])
      end
  end.

(** [Close]: the session after the call and the resources this call
    released; [None] is a panic (close of a closed channel). *)
Definition Close {H : Type} (s : SseSession H) : option (SseSession H * list Resource) :=
  match Close_guard s with
  | (s', false) => Some (s', [])
  | (s', true) => Close_release s'
  end.

(** [Close] one atomic step at a time, for callers that race: the
    guarded test-and-set, then the three releases. *)
Inductive ClosePc := AtGuard | AtDone | AtConsumer | AtDirect | Finished.

Definition Close_step {H : Type} (pc : ClosePc) (s : SseSession H)
  : option (ClosePc * SseSession H) :=
  match pc with
  | AtGuard =>
      let '(s', won) := Close_guard s in
      Some (if won then AtDone else Finished, s')
  | AtDone =>
      match close_chan (done s) with
      | Some d =>
          Some (AtConsumer,
                {| client_id := client_id s; user_handler := user_handler s;
                   done := d; broadcast_messages := broadcast_messages s;
                   direct_messages := direct_messages s; closed := closed s |})
      | None => None
      end
  | AtConsumer =>
      Some (AtDirect,
            {| client_id := client_id s; user_handler := user_handler s;
               done := done s; broadcast_messages := Consumer_Close (broadcast_messages s);
               direct_messages := direct_messages s; closed := closed s |})
  | AtDirect =>
      match close_chan (direct_messages s) with
      | Some q =>
          Some (Finished,
                {| client_id := client_id s; user_handler := user_handler s;
                   done := done s; broadcast_messages := broadcast_messages s;
                   direct_messages := q; closed := closed s |})
      | None => None
      end
  | Finished => Some (Finished, s)
  end.

(** Two callers of [Close] interleaved by a schedule ([true]: the
    first caller takes a step). *)
Fixpoint Close_race {H : Type} (sched : list bool) (a b : ClosePc) (s : SseSession H)
  : option (ClosePc * ClosePc * SseSession H) :=
  match sched with
  | [] => Some (a, b, s)
  | true :: rest =>
      match Close_step a s with
      | Some (a', s') => Close_race rest a' b s'
      | None => None
      end
  | false :: rest =>
      match Close_step b s with
      | Some (b', s') => Close_race rest a b' s'
      | None => None
      end
  end.

(** Where a race that started on the open session [s0] can be: nobody
    has passed the guard yet, or exactly one caller has, and the
    session is the one that caller's progress has made of [s0]. *)
Definition race_inv {H : Type} (s0 : SseSession H) (a b : ClosePc) (s : SseSession H)
  : Prop :=
  let g := (Close_guard s0).1 in
  let at_pc (w : ClosePc) : option (SseSession H) :=
    match w with
    | AtGuard => None
    | AtDone => Some g
    | AtConsumer => snd <$> Close_step AtDone g
    | AtDirect => snd <$> (Close_step AtDone g ≫= fun x => Close_step AtConsumer x.2)
    | Finished => fst <$> Close s0
    end in
  match a, b with
  | AtGuard, AtGuard => s = s0
  | AtGuard, w => at_pc w = Some s
  | w, AtGuard => at_pc w = Some s
  | Finished, w => at_pc w = Some s
  | w, Finished => at_pc w = Some s
  | _, _ => False
  end.

(** The session literal of [RegisterSSE]. *)
Definition new_session {H : Type} (id : ClientID) : SseSession H :=
  {| client_id := id; user_handler := None;
     done := make_chan 0;
     broadcast_messages := {| consumer_id := id; consumer_closes := 0 |};
     direct_messages := make_chan 256;
     closed := false |}.

Definition set_user_handler {H : Type} (s : SseSession H) (uh : option H) : SseSession H :=
  {| client_id := client_id s; user_handler := uh; done := done s;
     broadcast_messages := broadcast_messages s;
     direct_messages := direct_messages s; closed := closed s |}.

Definition set_direct_messages {H : Type} (s : SseSession H) (c : chan SseMessage)
  : SseSession H :=
  {| client_id := client_id s; user_handler := user_handler s; done := done s;
     broadcast_messages := broadcast_messages s;
     direct_messages := c; closed := closed s |}.

(** What holds of every session between two calls of its methods: the
    direct queue is the 256-slot channel of [RegisterSSE], within its
    capacity, and no channel is closed while the flag is clear. *)
Definition session_wf {H : Type} (s : SseSession H) : Prop :=
  cap (direct_messages s) = 256%nat /\
  (length (buf (direct_messages s)) <= 256)%nat /\
  (closed s = false ->
   chan_closed (done s) = false /\ chan_closed (direct_messages s) = false).

(** A run of [DirectMessage] calls, with the error of each. *)
Fixpoint DirectMessages {H : Type} (s : SseSession H) (msgs : list SseMessage)
  : option (SseSession H * list error) :=
  match msgs with
  | [] => Some (s, [])
  | msg :: rest =>
      match DirectMessage s msg with
      | None => None
      | Some (s', e) =>
          match DirectMessages s' rest with
          | None => None
          | Some (s'', es) => Some (s'', e :: es)
          end
      end
  end.

(** ** The keepalive ticker *)

(** Go's [time.Ticker] on a logical clock: [next] is the time of the
    next tick. A tick that is taken at [now >= next] moves [next] to the
    first point of the period grid after [now], as the runtime does
    ([when += period * (1 + -delta/period)]); ticks missed by a slow
    receiver are dropped, and [Reset] leaves no tick behind. The clock
    counts the time-units of [time.Now().Unix()], seconds. *)
Record Ticker := {
  period : Z;
  next : Z
}.

Definition NewTicker (d now : Z) : Ticker := {| period := d; next := now + d |}.

Definition Ticker_Reset (t : Ticker) (d now : Z) : Ticker :=
  {| period := d; next := now + d |}.

Definition Ticker_ready (t : Ticker) (now : Z) : bool := next t <=? now.

Definition Ticker_recv (t : Ticker) (now : Z) : Ticker :=
  {| period := period t;
     next := next t + period t * (1 + (now - next t) / period t) |}.

Definition pingInterval : Z := 60.

(** A ticker that has just been armed at time [n], by [NewTicker] or by
    [Reset]: its next tick is a full interval away. *)
Definition armed (t0 : Ticker) (n : Z) : Prop := period t0 = 60 /\ next t0 = n + 60.

(** ** The server and the state of a run *)

Definition loc := nat.

(** What the hooks, the writer and the session do, in the order they
    happen during one request. *)
Inductive Action :=
| ASetHeader (key value : string)
| ACreateConsumer (id : ClientID)
| ARegister (id : ClientID)
| AUnregister (id : ClientID)
| AOnInitialize (err : error)
| AOnConnect (err : error)
| AOnMessage (msg : SseMessage) (pass : bool)
| AOnCallback (id : ClientID)
| AOnDisconnect
| AWriteError (e : string)
| AWrite (b : string) (ok : bool)
| AFlush
| ATickerReset
| ATickerStop
| AClose (released : list Resource)
| ACancel.

Definition is_OnDisconnect (a : Action) : bool :=
  match a with
  | AOnDisconnect => true
  | _ => false
  end.

Definition is_Write (a : Action) : bool :=
  match a with
  | AWrite _ _ => true
  | _ => false
  end.

Definition is_Close (a : Action) : bool :=
  match a with
  | AClose _ => true
  | _ => false
  end.

Definition is_OnMessage (a : Action) : bool :=
  match a with
  | AOnMessage _ _ => true
  | _ => false
  end.

(** The [SseServer] ([factory], [clients]), the session objects the
    registry and the handlers point to ([heap]), the clock, and the
    response writer of the request being served. The factory is [None]
    for [nil]; [Some None] is a factory that returns [nil]. *)
Record State (H : Type) := {
  factory : option (option H);
  clients : gmap ClientID loc;
  heap : gmap loc (SseSession H);
  now : Z;
  resp : ResponseWriter
}.
Arguments factory {H} _.
Arguments clients {H} _.
Arguments heap {H} _.
Arguments now {H} _.
Arguments resp {H} _.

Definition set_clients {H : Type} (f : gmap ClientID loc -> gmap ClientID loc)
  (st : State H) : State H :=
  {| factory := factory st; clients := f (clients st); heap := heap st;
     now := now st; resp := resp st |}.

Definition set_heap {H : Type}
  (f : gmap loc (SseSession H) -> gmap loc (SseSession H)) (st : State H) : State H :=
  {| factory := factory st; clients := clients st; heap := f (heap st);
     now := now st; resp := resp st |}.

Definition set_now {H : Type} (f : Z -> Z) (st : State H) : State H :=
  {| factory := factory st; clients := clients st; heap := heap st;
     now := f (now st); resp := resp st |}.

Definition set_resp {H : Type} (f : ResponseWriter -> ResponseWriter)
  (st : State H) : State H :=
  {| factory := factory st; clients := clients st; heap := heap st;
     now := now st; resp := f (resp st) |}.

(** [Find]: the registry lookup followed by the dereference. *)
Definition Find {H : Type} (st : State H) (id : ClientID) : option (SseSession H) :=
  match clients st !! id with
  | Some p => heap st !! p
  | None => None
  end.

(** ** A state, trace and panic monad for the handlers *)

Definition M (H A : Type) : Type := State H -> option (A * State H * list Action).

Definition ret {H A : Type} (a : A) : M H A := fun st => Some (a, st, []).

Definition bind {H A B : Type} (m : M H A) (k : A -> M H B) : M H B :=
  fun st =>
    match m st with
    | None => None
    | Some (a, st1, t1) =>
        match k a st1 with
        | None => None
        | Some (b, st2, t2) => Some (b, st2, t1 ++ t2)
        end
    end.

Notation "'let*' x ':=' m 'in' k" := (bind m (fun x => k))
  (at level 10, x name, m at level 100, k at level 200).

Definition panic {H A : Type} : M H A := fun _ => None.

Definition emit {H : Type} (a : Action) : M H unit := fun st => Some (tt, st, [a]).

Definition get {H : Type} : M H (State H) := fun st => Some (st, st, []).

Definition modify {H : Type} (f : State H -> State H) : M H unit :=
  fun st => Some (tt, f st, []).

(** Dereference of a session pointer (a dangling one panics). *)
Definition load {H : Type} (p : loc) : M H (SseSession H) :=
  fun st => match heap st !! p with
            | Some s => Some (s, st, [])
            | None => None
            end.

Definition store {H : Type} (p : loc) (s : SseSession H) : M H unit :=
  modify (set_heap (insert p s)).

(** [session := &SseSession{...}] *)
Definition alloc {H : Type} (s : SseSession H) : M H loc :=
  fun st => let p := fresh (dom (heap st)) in
            Some (p, set_heap (insert p s) st, []).

(** ** The response writer *)

Definition Header_Set {H : Type} (key value : string) : M H unit :=
  emit (ASetHeader key value).

Definition add_frame (b : string) (w : ResponseWriter) : ResponseWriter :=
  {| is_flusher := is_flusher w; broken := broken w; wire := wire w ++ [b] |}.

(** [w.Write(b)]: the boolean is [err == nil]. *)
Definition Write {H : Type} (b : string) : M H bool :=
  let* st := get in
  if broken (resp st) then
    let* _ := emit (AWrite b false) in ret false
  else
    let* _ := modify (set_resp (add_frame b)) in
    let* _ := emit (AWrite b true) in ret true.

Definition dquote : string := String "034"%char EmptyString.

(** What [WriteError] leaves on the writer: the body
    [{"error": "<message>"}] (the result of its [w.Write] is ignored). *)
Definition error_response (e : string) (w : ResponseWriter) : ResponseWriter :=
  if broken w then w
  else {| is_flusher := is_flusher w; broken := broken w;
          wire := wire w ++ ["{" +:+ dquote +:+ "error" +:+ dquote +:+ ": "
                             +:+ dquote +:+ e +:+ dquote +:+ "}"] |}.

(** [WriteError]: status 400 and the error body. *)
Definition WriteError {H : Type} (e : string) : M H unit :=
  let* _ := emit (AWriteError e) in
  modify (set_resp (error_response e)).

(** ** Session methods on the heap *)

Definition session_DirectMessage {H : Type} (p : loc) (msg : SseMessage) : M H error :=
  let* s := load p in
  match DirectMessage s msg with
  | None => panic
  | Some (s', e) => let* _ := store p s' in ret e
  end.

Definition session_Close {H : Type} (p : loc) : M H unit :=
  let* s := load p in
  match Close s with
  | None => panic
  | Some (s', released) => let* _ := store p s' in emit (AClose released)
  end.

(** ** [handleCallback] *)

Definition errMissingClientID : string := "missing client_id".
Definition errClientNotFound : string := "client not found".

(** The three assignments to [clientID] at the head of [handleCallback]. *)
Definition resolveClientID {E : External} (r : Request) : ClientID :=
  let clientID := "" in
  let clientID :=
    let clientIDHeader := Header_Get r "X-Client-ID" in
    if negb (String.eqb clientIDHeader "") then clientIDHeader else clientID in
  let clientID :=
    if String.eqb clientID "" then
      let '(clientIDParameters, ok) := HttpParameterT_string r "client_id" in
      if ok && negb (String.eqb clientIDParameters "") then clientIDParameters
      else clientID
    else clientID in
  let clientID :=
    if String.eqb clientID "" then
      let '(clientIDParameters, ok) := HttpParameterT_string r "observer_id" in
      if ok && negb (String.eqb clientIDParameters "") then clientIDParameters
      else clientID
    else clientID in
  clientID.

Definition handleCallback {E : External} {H : Type} {HH : SseEventHandler H} (r : Request)
  : M H unit :=
  let clientID := resolveClientID r in
  if String.eqb clientID "" then WriteError errMissingClientID
  else
    let* st := get in
    match clients st !! clientID with
    | None => WriteError errClientNotFound
    | Some p =>
        let* session := load p in
        match user_handler session with
        | Some uh =>
            let* _ := store p (set_user_handler session (Some (OnCallback uh r))) in
            emit (AOnCallback clientID)
        | None => ret tt
        end
    end.

(** ** The connection handler of [RegisterSSE] *)

(** What the [select] of the multiplex loop is offered, and what other
    goroutines, the clock and the transport do between two rounds of
    it:
    - [EvBroadcast (Some msg)]: [msg] arrives on the consumer's channel,
      [EvBroadcast None]: that channel is found closed;
    - [EvDirect]: the direct queue is polled;
    - [EvPing]: the ticker's channel is polled;
    - [EvDone]: the request context is cancelled;
    - [EnvDirectMessage msg], [EnvClose]: another goroutine calls
      [DirectMessage(msg)], [Close()] on the session;
    - [EnvSleep d]: [d] time-units go by;
    - [EnvBreak]: the transport breaks, writes fail from then on. *)
Inductive Turn :=
| EvBroadcast (msg : option SseMessage)
| EvDirect
| EvPing
| EvDone
| EnvDirectMessage (msg : SseMessage)
| EnvClose
| EnvSleep (d : nat)
| EnvBreak.

Inductive Flow :=
| Continue (t : Ticker)
| Return.

(** Whether the handler function has returned, or still waits in its
    [select] when the schedule ends. *)
Inductive Exit := Returned | Blocked.

(** [session.user_handler != nil && !session.user_handler.OnMessage(w, r, msg)] *)
Definition filtered {H : Type} {HH : SseEventHandler H} (r : Request) (p : loc)
  (msg : SseMessage) : M H bool :=
  let* session := load p in
  match user_handler session with
  | Some uh =>
      let '(uh', pass) := OnMessage uh r msg in
      let* _ := store p (set_user_handler session (Some uh')) in
      let* _ := emit (AOnMessage msg pass) in
      ret (negb pass)
  | None => ret false
  end.

(** The text shared by the broadcast and the direct case from the
    encoding on: write the frame, then, when the writer can flush,
    flush and reset the ticker. *)
Definition pass_on {E : External} {H : Type} (t : Ticker) (msg : SseMessage) : M H Flow :=
  match Encode msg with
  | inl encoded =>
      let* ok := Write encoded in
      if negb ok then ret Return
      else
        let* st := get in
        if is_flusher (resp st) then
          let* _ := emit AFlush in
          let* _ := emit ATickerReset in
          ret (Continue (Ticker_Reset t pingInterval (now st)))
        else ret (Continue t)
  | inr err =>
      let* _ := WriteError err in ret Return
  end.

(** The text shared by the broadcast and the direct case once a message
    has been received. *)
Definition deliver {E : External} {H : Type} {HH : SseEventHandler H} (r : Request) (p : loc)
  (t : Ticker) (msg : SseMessage) : M H Flow :=
  let* skip := filtered r p msg in
  if skip then ret (Continue t) else pass_on t msg.

Definition pingMsg (now : Z) : SseMessage :=
  <["event" := VString "ping"]> (<["payload" := VInt now]> ∅).

(** The ping case. *)
Definition deliver_ping {E : External} {H : Type} (t : Ticker) : M H Flow :=
  let* st := get in
  match Encode (pingMsg (now st)) with
  | inl encoded =>
      let* ok := Write encoded in
      if negb ok then ret Return
      else
        if is_flusher (resp st) then
          let* _ := emit AFlush in ret (Continue t)
        else ret (Continue t)
  | inr err =>
      let* _ := WriteError err in ret Return
  end.

(** One entry of the schedule: a round of the [select] when a case is
    offered (a case that is not ready leaves the loop waiting), or a
    step of the environment. *)
Definition iterate {E : External} {H : Type} {HH : SseEventHandler H} (r : Request) (p : loc)
  (t : Ticker) (ev : Turn) : M H Flow :=
  match ev with
  | EvBroadcast None => ret Return
  | EvBroadcast (Some msg) => deliver r p t msg
  | EvDirect =>
      let* session := load p in
      match try_recv (direct_messages session) with
      | Recv directMsg c =>
          let* _ := store p (set_direct_messages session c) in
          deliver r p t directMsg
      | RecvClosed => ret Return
      | NotReady => ret (Continue t)
      end
  | EvPing =>
      let* st := get in
      if Ticker_ready t (now st) then deliver_ping (Ticker_recv t (now st))
      else ret (Continue t)
  | EvDone => ret Return
  | EnvDirectMessage msg =>
      let* _ := session_DirectMessage p msg in ret (Continue t)
  | EnvClose =>
      let* _ := session_Close p in ret (Continue t)
  | EnvSleep d =>
      let* _ := modify (set_now (fun n => n + Z.of_nat d)) in ret (Continue t)
  | EnvBreak =>
      let* _ := modify (set_resp (fun w =>
                  {| is_flusher := is_flusher w; broken := true; wire := wire w |})) in
      ret (Continue t)
  end.

(** The [for { select { ... } }] loop over a schedule. *)
Fixpoint multiplex {E : External} {H : Type} {HH : SseEventHandler H} (r : Request) (p : loc)
  (t : Ticker) (sched : list Turn) : M H Exit :=
  match sched with
  | [] => ret Blocked
  | ev :: rest =>
      let* f := iterate r p t ev in
      match f with
      | Continue t' => multiplex r p t' rest
      | Return => ret Returned
      end
  end.

Definition onConnectMsg (id : ClientID) : SseMessage :=
  <["event" := VString "on_connect"]>
    (<["observer_id" := VString id]> (<["client_id" := VString id]> ∅)).

(** [if session.user_handler != nil { if err := OnConnect(w, r); err != nil
    { WriteError(w, err); return } }]: the boolean tells whether the
    function returns here. *)
Definition connect_hook {H : Type} {HH : SseEventHandler H} (r : Request) (p : loc)
  : M H bool :=
  let* session := load p in
  match user_handler session with
  | Some uh =>
      let '(uh', err) := OnConnect uh r in
      let* _ := store p (set_user_handler session (Some uh')) in
      let* _ := emit (AOnConnect err) in
      match err with
      | Some e => let* _ := WriteError e in ret true
      | None => ret false
      end
  | None => ret false
  end.

(** From the [on_connect] message to the end of the function, with the
    deferred [pingTicker.Stop()]. *)
Definition connected {E : External} {H : Type} {HH : SseEventHandler H} (r : Request) (p : loc)
  (sched : list Turn) : M H Exit :=
  let* session := load p in
  let* _ := session_DirectMessage p (onConnectMsg (client_id session)) in
  let* failed := connect_hook r p in
  if failed then ret Returned
  else
    let* st := get in
    let pingTicker := NewTicker pingInterval (now st) in
    let* e := multiplex r p pingTicker sched in
    match e with
    | Blocked => ret Blocked
    | Returned => let* _ := emit ATickerStop in ret Returned
    end.

(** The deferred function: the registry entry is deleted, then
    [OnDisconnect] runs. *)
Definition disconnect {H : Type} {HH : SseEventHandler H} (r : Request) (p : loc) : M H unit :=
  let* session := load p in
  let* _ := modify (set_clients (delete (client_id session))) in
  let* _ := emit (AUnregister (client_id session)) in
  let* session := load p in
  match user_handler session with
  | Some uh =>
      let* _ := store p (set_user_handler session (Some (OnDisconnect uh r))) in
      emit AOnDisconnect
  | None => ret tt
  end.

(** [if srv.factory != nil { uh := srv.factory(); if uh != nil { ... } }]:
    the handler is attached and [OnInitialize] runs; the boolean tells
    whether the function returns here. *)
Definition initialize_hook {H : Type} {HH : SseEventHandler H} (r : Request) (p : loc)
  : M H bool :=
  let* st := get in
  match factory st with
  | Some made =>
      match made with
      | Some uh =>
          let* session := load p in
          let* _ := store p (set_user_handler session (Some uh)) in
          let '(uh', err) := OnInitialize uh r (client_id session) in
          let* session := load p in
          let* _ := store p (set_user_handler session (Some uh')) in
          let* _ := emit (AOnInitialize err) in
          match err with
          | Some e => let* _ := WriteError e in ret true
          | None => ret false
          end
      | None => ret false
      end
  | None => ret false
  end.

(** From the initialisation of the user handler on; [disconnect] is
    deferred only after [OnInitialize] has succeeded. *)
Definition initialized {E : External} {H : Type} {HH : SseEventHandler H} (r : Request) (p : loc)
  (sched : list Turn) : M H Exit :=
  let* failed := initialize_hook r p in
  if failed then ret Returned
  else
    let* e := connected r p sched in
    match e with
    | Blocked => ret Blocked
    | Returned => let* _ := disconnect r p in ret Returned
    end.

Definition streamType : string := "text/event-stream".

(** The route function past the discriminator: [id] is the id of the
    consumer that [fanout.CreateConsumer] hands out, [sched] what
    happens while the loop runs. The deferred calls run, last deferred
    first, when the function returns. *)
Definition openStream {E : External} {H : Type} {HH : SseEventHandler H} (r : Request)
  (id : ClientID) (sched : list Turn) : M H Exit :=
  let* _ := Header_Set "Content-Type" "text/event-stream" in
  let* _ := Header_Set "Cache-Control" "no-cache" in
  let* _ := Header_Set "Connection" "keep-alive" in
  let* _ := emit (ACreateConsumer id) in
  let client_id := id in
  let* p := alloc (new_session client_id) in
  let* _ := modify (set_clients (insert client_id p)) in
  let* _ := emit (ARegister client_id) in
  let* e := initialized r p sched in
  match e with
  | Blocked => ret Blocked
  | Returned =>
      let* _ := session_Close p in
      let* _ := emit ACancel in
      ret Returned
  end.

(** The function registered on the main SSE route. *)
Definition serveSSE {E : External} {H : Type} {HH : SseEventHandler H} (r : Request)
  (id : ClientID) (sched : list Turn) : M H Exit :=
  let acceptHeader := Header_Get r "Accept" in
  let clientID := Header_Get r "X-Client-ID" in
  if negb (containsAcceptType acceptHeader streamType) && negb (String.eqb clientID "")
  then
    let* _ := handleCallback r in ret Returned
  else openStream r id sched.

(** ** Notions used to state the properties *)

(** A frame of the wire format: [data: <json>\r\n\r\n] for the JSON
    encoding of some message. *)
Definition is_frame {E : External} (b : string) : Prop :=
  exists (m : SseMessage) (j : string),
    json_Marshal m = inl j /\ b = "data: " +:+ j +:+ CRLF +:+ CRLF.

(** The actions that occur while the multiplex loop runs; what it
    writes are frames. *)
Definition loop_action {E : External} (a : Action) : Prop :=
  match a with
  | AOnMessage _ _ | AFlush | ATickerReset | AWriteError _ | AClose _ => True
  | AWrite b _ => is_frame b
  | _ => False
  end.

(** [kept p st st']: from [st] to [st'] the registry, the factory and
    the sessions other than [p] are untouched, and the session at [p]
    is still the same client's, with a handler if it had one. *)
Definition body_action {E : External} (a : Action) : Prop :=
  match a with
  | AOnConnect _ | ATickerStop => True
  | _ => loop_action a
  end.

(** The headers, the consumer and the registration that open a stream. *)
Definition opening (id : ClientID) : list Action :=
  [ ASetHeader "Content-Type" "text/event-stream";
    ASetHeader "Cache-Control" "no-cache";
    ASetHeader "Connection" "keep-alive";
    ACreateConsumer id; ARegister id ].

(** The route function opens a stream unless the request is
    discriminated as a callback. *)
Definition opens_stream (r : Request) : Prop :=
  containsAcceptType (Header_Get r "Accept") streamType = true \/
  Header_Get r "X-Client-ID" = "".

(** The first non-empty string of a list, the empty string when there
    is none. *)
Fixpoint first_nonempty (candidates : list string) : string :=
  match candidates with
  | [] => ""
  | c :: rest => if String.eqb c "" then first_nonempty rest else c
  end.

(** The string value of a request parameter, the empty string when the
    parameter is absent or does not convert to a string. *)
Definition parameter {E : External} (r : Request) (name : string) : string :=
  let '(value, ok) := HttpParameterT_string r name in
  if ok then value else "".

(** The successful writes of a trace. *)
Definition written (a : Action) : bool :=
  match a with
  | AWrite _ true => true
  | _ => false
  end.

Definition writes (tr : list Action) : nat :=
  length (List.filter written tr).

(** Silence on a connection: time passes and the tick is polled, but no
    broadcast, no direct message and no cancellation arrives. *)
Definition is_silent (round : Turn) : bool :=
  match round with
  | EvPing | EnvSleep _ => true
  | _ => false
  end.

Fixpoint elapsed (sched : list Turn) : Z :=
  match sched with
  | [] => 0
  | EnvSleep d :: rest => Z.of_nat d + elapsed rest
  | _ :: rest => elapsed rest
  end.

(** [n] idle windows, the tick being taken at the end of each. *)
Fixpoint idle (n : nat) : list Turn :=
  match n with
  | O => []
  | S k => EnvSleep 60 :: EvPing :: idle k
  end.

Fixpoint ping_times (start : Z) (n : nat) : list Z :=
  match n with
  | O => []
  | S k => (start + pingInterval) :: ping_times (start + pingInterval) k
  end.

(** A write is vetted when it is the frame of the message that
    [OnMessage] has just let through, or the frame of a ping; [prev] is
    the action before it. *)
Definition vetted {E : External} (prev : option Action) (a : Action)
  : Prop :=
  match a with
  | AWrite b _ =>
      (exists msg, prev = Some (AOnMessage msg true) /\ Encode msg = inl b) \/
      (exists z, Encode (pingMsg z) = inl b)
  | _ => True
  end.

Fixpoint vetted_writes {E : External} (prev : option Action)
  (tr : list Action) : Prop :=
  match tr with
  | [] => True
  | a :: rest => vetted prev a /\ vetted_writes (Some a) rest
  end.

Definition has_handler {H : Type} (p : loc) (st : State H) : Prop :=
  exists s uh, heap st !! p = Some s /\ user_handler s = Some uh.

(** Whatever is written as a frame is one. *)
Definition frame_action {E : External} (a : Action) : Prop :=
  match a with
  | AWrite b _ => is_frame b
  | _ => True
  end.

(** The message a round of the loop receives, if it receives one. *)
Definition received {H : Type} (round : Turn) (p : loc) (st : State H) : option SseMessage :=
  match round with
  | EvBroadcast (Some msg) => Some msg
  | EvDirect =>
      match heap st !! p with
      | Some s => head (buf (direct_messages s))
      | None => None
      end
  | EvPing => Some (pingMsg (now st))
  | _ => None
  end.

(** Whether every [OnDisconnect] of a trace comes after a [Close] that
    released the resources. *)
Fixpoint disconnect_after_release (released : bool) (tr : list Action) : bool :=
  match tr with
  | [] => true
  | AClose (_ :: _) :: rest => disconnect_after_release true rest
  | AOnDisconnect :: rest => released && disconnect_after_release released rest
  | _ :: rest => disconnect_after_release released rest
  end.

Definition trace_of {H A : Type} (x : option (A * State H * list Action))
  : list Action :=
  match x with
  | Some (_, _, tr) => tr
  | None => []
  end.

Definition state_of {H A : Type} (x : option (A * State H * list Action))
  : option (State H) :=
  match x with
  | Some (_, st, _) => Some st
  | None => None
  end.

Definition kept {H : Type} (p : loc) (st st' : State H) : Prop :=
  clients st' = clients st /\
  factory st' = factory st /\
  is_flusher (resp st') = is_flusher (resp st) /\
  (forall q, q <> p -> heap st' !! q = heap st !! q) /\
  (forall s, heap st !! p = Some s ->
     exists s', heap st' !! p = Some s' /\
                client_id s' = client_id s /\
                (user_handler s' = None <-> user_handler s = None) /\
                (session_wf s -> session_wf s')).

(** No other goroutine closes the session while the loop runs. *)
Definition no_close (sched : list Turn) : bool :=
  forallb (fun round => match round with EnvClose => false | _ => true end) sched.

(** [stays_open p st st']: the session at [p], if open in [st], is
    still there and open in [st']. *)
Definition stays_open {H : Type} (p : loc) (st st' : State H) : Prop :=
  forall s, heap st !! p = Some s -> closed s = false ->
            exists s', heap st' !! p = Some s' /\ closed s' = false.

Definition live {H : Type} (p : loc) (st : State H) : Prop :=
  exists s, heap st !! p = Some s /\ session_wf s.

(** ** Instances used to run the model on concrete inputs *)

Module Demo.

(** A marshaller for flat messages, printing as encoding/json does for
    them: keys in sorted order, no spaces; strings are quoted as they
    are (the demo strings need no escapes). *)
Definition marshal_value (v : Value) : string :=
  match v with
  | VString s => dquote +:+ s +:+ dquote
  | VInt z => pretty z
  | VBool true => "true"
  | VBool false => "false"
  | VNull => "null"
  end.

Definition key_le (a b : string * Value) : Prop := Is_true (String.leb a.1 b.1).

#[local] Instance key_le_dec a b : Decision (key_le a b).
Proof. unfold key_le. apply _. Defined.

Fixpoint fields (kvs : list (string * Value)) : string :=
  match kvs with
  | [] => ""
  | [(k, v)] => dquote +:+ k +:+ dquote +:+ ":" +:+ marshal_value v
  | (k, v) :: rest =>
      dquote +:+ k +:+ dquote +:+ ":" +:+ marshal_value v +:+ "," +:+ fields rest
  end.

Definition marshal (m : SseMessage) : string + string :=
  inl ("{" +:+ fields (merge_sort key_le (map_to_list m)) +:+ "}").

Definition convert_string (v : Value) : string * bool :=
  match v with
  | VString s => (s, true)
  | VInt z => (pretty z, true)
  | VBool true => ("true", true)
  | VBool false => ("false", true)
  | VNull => ("", false)
  end.

Definition external : External :=
  {| json_Marshal := marshal; ConvertInto_string := convert_string |}.

(** A handler whose answers are fixed by its fields and which counts
    the hooks that ran on it. *)
Record Script := {
  init_err : error;
  connect_err : error;
  pass : bool;
  calls : nat
}.

Definition called (h : Script) : Script :=
  {| init_err := init_err h; connect_err := connect_err h; pass := pass h;
     calls := S (calls h) |}.

Definition handler : SseEventHandler Script :=
  {| OnInitialize := fun h _ _ => (called h, init_err h);
     OnConnect := fun h _ => (called h, connect_err h);
     OnDisconnect := fun h _ => called h;
     OnMessage := fun h _ _ => (called h, pass h);
     OnCallback := fun h _ => called h |}.

Definition script (ie ce : error) (ps : bool) : Script :=
  {| init_err := ie; connect_err := ce; pass := ps; calls := 0 |}.

Definition writer : ResponseWriter :=
  {| is_flusher := true; broken := false; wire := [] |}.

Definition plain_writer : ResponseWriter :=
  {| is_flusher := false; broken := false; wire := [] |}.

(** A server with no client yet. *)
Definition server (f : option (option Script)) (w : ResponseWriter) : State Script :=
  {| factory := f; clients := ∅; heap := ∅; now := 1000; resp := w |}.

Definition stream_request : Request :=
  {| Header := {[ "Accept" := "text/event-stream" ]}; Params := ∅ |}.

Definition msg_x : SseMessage := <["event" := VString "x"]> (<["v" := VInt 1]> ∅).

(** A streaming request served for consumer [c1] on a fresh server. *)
Definition run (h : Script) (w : ResponseWriter) (sched : list Turn)
  : option (Exit * State Script * list Action) :=
  serveSSE (E := external) (HH := handler) stream_request "c1" sched
    (server (Some (Some h)) w).

Definition callback_request (id : string) : Request :=
  {| Header := {[ "Accept" := "*/*"; "X-Client-ID" := id ]}; Params := ∅ |}.

(** A callback that names one client in its header and another in its
    decoded body. *)
Definition callback_both : Request :=
  {| Header := {[ "X-Client-ID" := "c1" ]};
     Params := {[ "client_id" := VString "c2"; "event" := VString "chat_message" ]} |}.

(** What a run leaves on the wire, each chunk tagged as written. *)
Definition wire_of (x : option (Exit * State Script * list Action))
  : list (string + string) :=
  match x with
  | Some (_, st, _) => map inl (wire (resp st))
  | None => []
  end.

Definition frame (msg : SseMessage) : string + string := Encode (E := external) msg.

(** [n] direct messages queued on a session. *)
Fixpoint fill (n : nat) (s : SseSession Script) : SseSession Script :=
  match n with
  | O => s
  | S n' => match DirectMessage s msg_x with
            | Some (s', _) => fill n' s'
            | None => s
            end
  end.

Definition open_session : SseSession Script := new_session "c1".

Definition full_session : SseSession Script := fill 256 open_session.

(** A session with its handler attached, and a server that has it
    registered under [c1]. *)
Definition attached (h : Script) : SseSession Script :=
  set_user_handler open_session (Some h).

Definition serving (h : Script) (w : ResponseWriter) : State Script :=
  {| factory := Some (Some h); clients := {[ "c1" := 0%nat ]};
     heap := {[ 0%nat := attached h ]}; now := 1000; resp := w |}.

Definition closed_session : SseSession Script :=
  match Close open_session with
  | Some (s, _) => s
  | None => open_session
  end.

End Demo.

(** The media type of one entry of an [Accept] header, as the
    specification words it: what precedes the first [;], with the
    surrounding white space removed. *)
Fixpoint upto (sep : ascii) (s : string) : string :=
  match s with
  | EmptyString => EmptyString
  | String c s' => if Ascii.eqb c sep then EmptyString else String c (upto sep s')
  end.

Definition mediaType (entry : string) : string :=
  GoStrings.TrimSpace (upto ";"%char entry).

Fixpoint has_byte (c : ascii) (s : string) : bool :=
  match s with
  | EmptyString => false
  | String b s' => Ascii.eqb b c || has_byte c s'
  end.


(** * The router, the request parameters and the helpers around them *)

(** ** More of Go's [strings] package *)

Module GoSubstrings.

(** [strings.HasPrefix(s, prefix)] *)
Definition HasPrefix (s prefix : string) : bool :=
  match GoStrings.strip prefix s with
  | Some _ => true
  | None => false
  end.

(** [strings.TrimPrefix(s, prefix)] *)
Definition TrimPrefix (s prefix : string) : string :=
  match GoStrings.strip prefix s with
  | Some rest => rest
  | None => s
  end.

(** [strings.HasSuffix(s, suffix)] *)
Definition HasSuffix (s suffix : string) : bool :=
  HasPrefix (GoStrings.reverse s) (GoStrings.reverse suffix).

(** [strings.Contains(s, substr)] *)
Fixpoint Contains (s substr : string) : bool :=
  HasPrefix s substr ||
  match s with
  | EmptyString => false
  | String _ s' => Contains s' substr
  end.

(** The scan of [strings.ReplaceAll] for a non-empty [old]: the
    occurrences of [old] are found from the left and do not overlap;
    [skip] counts the bytes of the occurrence just replaced that are
    still to be passed over. *)
Fixpoint replace_from (old new : string) (skip : nat) (s : string) : string :=
  match s with
  | EmptyString => EmptyString
  | String c s' =>
      match skip with
      | S k => replace_from old new k s'
      | O =>
          if HasPrefix (String c s') old
          then new +:+ replace_from old new (String.length old - 1) s'
          else String c (replace_from old new O s')
      end
  end.

(** [strings.ReplaceAll(s, old, new)], [old] not empty. *)
Definition ReplaceAll (s old new : string) : string := replace_from old new 0 s.

End GoSubstrings.

(** ** part_002: [replaceAllDoubleSlashes] *)

(** The [for strings.Contains(uri, "//")] loop; every round shortens
    [uri], so its length bounds the number of rounds. *)
Fixpoint replaceAllDoubleSlashes_loop (fuel : nat) (uri : string) : string :=
  match fuel with
  | O => uri
  | S fuel' =>
      if GoSubstrings.Contains uri "//"
      then replaceAllDoubleSlashes_loop fuel' (GoSubstrings.ReplaceAll uri "//" "/")
      else uri
  end.

Definition replaceAllDoubleSlashes (uri : string) : string :=
  replaceAllDoubleSlashes_loop (String.length uri) uri.

(** What the function is meant to compute: every run of slashes becomes
    one slash, all other bytes stay; [after_slash] tells whether the
    byte before was a slash. *)
Fixpoint collapse (after_slash : bool) (s : string) : string :=
  match s with
  | EmptyString => EmptyString
  | String c s' =>
      if Ascii.eqb c "/"%char
      then if after_slash then collapse true s' else String c (collapse true s')
      else String c (collapse false s')
  end.

(** ** service/server.go: routes *)

(** [serviceHttpRouteInfo]; [F] is the type of the route functions, and
    [Hits] an [int32]. *)
Record serviceHttpRouteInfo (F : Type) := {
  URI : string;
  Method : string;
  Fn : F;
  Hits : Z
}.
Arguments URI {F} _.
Arguments Method {F} _.
Arguments Fn {F} _.
Arguments Hits {F} _.

Definition NewServiceHttpRouteInfo {F : Type} (uri method : string) (fn : F)
  : serviceHttpRouteInfo F :=
  {| URI := uri; Method := method; Fn := fn; Hits := 0 |}.

(** [glob.MatchNamed] of goconvert, outside the repository: whether the
    pattern matches the path, the named parameters, and an error. *)
Class Globber := {
  glob_MatchNamed : string -> string -> bool * gmap string string * error
}.

(** [MatchURL]; a [nil] map is the empty map. *)
Definition MatchURL {G : Globber} {F : Type} (s : serviceHttpRouteInfo F) (path : string)
  : bool * gmap string string :=
  let '(matched, matched_named_parameters, err) := glob_MatchNamed (URI s) path in
  match err with
  | Some _ => (false, ∅)
  | None => (matched, matched_named_parameters)
  end.

Definition MatchMethod {F : Type} (s : serviceHttpRouteInfo F) (method : string) : bool :=
  String.eqb (Method s) method || String.eqb (Method s) "*".

(** The fields of [Service] that routing and the static files read. *)
Record Service (F : Type) := {
  serviceName : string;
  staticPath : string;
  routes : list (serviceHttpRouteInfo F)
}.
Arguments serviceName {F} _.
Arguments staticPath {F} _.
Arguments routes {F} _.

Definition set_routes {F : Type}
  (f : list (serviceHttpRouteInfo F) -> list (serviceHttpRouteInfo F)) (s : Service F)
  : Service F :=
  {| serviceName := serviceName s; staticPath := staticPath s; routes := f (routes s) |}.

(** [ServiceBuilder.Build] *)
Definition Build {F : Type} (name : string) : Service F :=
  {| serviceName := name; staticPath := ""; routes := [] |}.

(** [sort.SliceStable]: as an insertion sort that keeps the elements
    that [less] does not order in the order they had (a stable sort has
    one result, whatever the algorithm). *)
Fixpoint insert_stable {A : Type} (less : A -> A -> bool) (x : A) (l : list A) : list A :=
  match l with
  | [] => [x]
  | y :: l' => if less y x then y :: insert_stable less x l' else x :: y :: l'
  end.

Definition SliceStable {A : Type} (less : A -> A -> bool) (l : list A) : list A :=
  foldr (insert_stable less) [] l.

(** The [less] of [RegisterRoute]: the longer URI first. *)
Definition longer {F : Type} (a b : serviceHttpRouteInfo F) : bool :=
  (String.length (URI b) <? String.length (URI a))%nat.

Definition RegisterRoute {F : Type} (s : Service F) (uri method : string) (fn : F)
  : Service F * serviceHttpRouteInfo F :=
  let uri := replaceAllDoubleSlashes uri in
  let result := NewServiceHttpRouteInfo uri method fn in
  (set_routes (fun routes => SliceStable longer (routes ++ [result])) s, result).

Definition RegisterRouteGET {F : Type} (s : Service F) (uri : string) (fn : F) :=
  RegisterRoute s uri "GET" fn.

Definition RegisterRoutePOST {F : Type} (s : Service F) (uri : string) (fn : F) :=
  RegisterRoute s uri "POST" fn.

Definition RegisterRouteALL {F : Type} (s : Service F) (uri : string) (fn : F) :=
  RegisterRoute s uri "*" fn.

(** An [*http.Request] as it reaches [ServeHTTP]: [Body] is what
    [io.ReadAll(r.Body)] gives and [Form] what [r.ParseForm()] leaves in
    [r.Form], each with the error it can fail with. *)
Record HttpRequest := {
  req_Method : string;
  URL_Path : string;
  URL_Query : gmap string (list string);
  req_Header : gmap string string;
  RemoteAddr : string;
  Body : string + string;
  Form : gmap string (list string) + string
}.

Definition req_Header_Get (r : HttpRequest) (key : string) : string :=
  default "" (req_Header r !! key).

(** The tests of the two loops of [ResolveRoute]. *)
Definition exact_route {F : Type} (r : HttpRequest) (route : serviceHttpRouteInfo F) : bool :=
  MatchMethod route (req_Method r) && String.eqb (URL_Path r) (URI route).

Definition glob_route {G : Globber} {F : Type} (r : HttpRequest)
  (route : serviceHttpRouteInfo F) : bool :=
  MatchMethod route (req_Method r) && (MatchURL route (URL_Path r)).1.

(** [ResolveRoute]: the route found, with its place in the table, and
    the named parameters; [None] is [nil, nil, false]. *)
Definition ResolveRoute {G : Globber} {F : Type} (s : Service F) (r : HttpRequest)
  : option (nat * serviceHttpRouteInfo F * gmap string string) :=
  match list_find (fun route => Is_true (exact_route r route)) (routes s) with
  | Some (i, route) => Some (i, route, ∅)
  | None =>
      match list_find (fun route => Is_true (glob_route r route)) (routes s) with
      | Some (i, route) => Some (i, route, (MatchURL route (URL_Path r)).2)
      | None => None
      end
  end.

(** ** part_003: statistics *)

Record HttpRouteStat := {
  stat_URI : string;
  stat_Method : string;
  stat_Hits : Z
}.

Definition Stats {F : Type} (s : Service F) : list HttpRouteStat :=
  map (fun route => {| stat_URI := URI route; stat_Method := Method route;
                       stat_Hits := Hits route |}) (routes s).

Definition set_Hits {F : Type} (f : Z -> Z) (route : serviceHttpRouteInfo F)
  : serviceHttpRouteInfo F :=
  {| URI := URI route; Method := Method route; Fn := Fn route; Hits := f (Hits route) |}.

Definition ClearStats {F : Type} (s : Service F) : Service F :=
  set_routes (map (set_Hits (fun _ => 0))) s.

(** [atomic.AddInt32]: the sum wraps around in 32 bits. *)
Definition AddInt32 (x delta : Z) : Z :=
  (x + delta + 2 ^ 31) mod 2 ^ 32 - 2 ^ 31.

(** ** part_001: the unified parameters *)

(** [json.Unmarshal] into a [map[string]interface{}], of encoding/json. *)
Class Decoder := {
  json_Unmarshal : string -> gmap string Value + string
}.

(** The two values [parameters] stores in the request context. *)
Record Context := {
  request_params : option (gmap string Value);
  request_body : option string
}.

Definition background : Context :=
  {| request_params := None; request_body := None |}.

(** [for k, v := range values { if len(v) > 0 { params[k] = v[0] } }] *)
Definition assign_first (values : gmap string (list string)) (params : gmap string Value)
  : gmap string Value :=
  map_fold (fun k v params =>
              match v with
              | v0 :: _ => <[k := VString v0]> params
              | [] => params
              end) params values.

(** [for k, v := range params_uri { if len(v) > 0 { params[k] = v } }] *)
Definition assign_nonempty (params_uri : gmap string string) (params : gmap string Value)
  : gmap string Value :=
  map_fold (fun k v params =>
              if (0 <? String.length v)%nat then <[k := VString v]> params else params)
           params params_uri.

(** [for k, v := range j { params[k] = v }] *)
Definition assign_all (j : gmap string Value) (params : gmap string Value)
  : gmap string Value :=
  map_fold (fun k v params => <[k := v]> params) params j.

Definition parameters {D : Decoder} (r : HttpRequest) (params_uri : gmap string string)
  : Context * error :=
  let contentType := req_Header_Get r "Content-Type" in
  let params := ∅ in
  let ctx := background in
  let params := assign_first (URL_Query r) params in
  let params := assign_nonempty params_uri params in
  if GoSubstrings.HasPrefix contentType "application/json" then
    match Body r with
    | inr err => (ctx, Some err)
    | inl body =>
        let params :=
          match json_Unmarshal body with
          | inl j => assign_all j params
          | inr _ => params
          end in
        ({| request_params := Some params; request_body := Some body |}, None)
    end
  else if GoSubstrings.HasPrefix contentType "application/x-www-form-urlencoded"
          || GoSubstrings.HasPrefix contentType "multipart/form-data" then
    match Form r with
    | inr err => (ctx, Some err)
    | inl form =>
        ({| request_params := Some (assign_first form params);
            request_body := None |}, None)
    end
  else ({| request_params := Some params; request_body := None |}, None).

(** [HttpParameters]: the empty map when nothing was stored. *)
Definition HttpParameters (ctx : Context) : gmap string Value :=
  match request_params ctx with
  | Some params => params
  | None => ∅
  end.

(** [r.WithContext(parametersCtx)], as the route functions see it. *)
Definition WithContext (r : HttpRequest) (ctx : Context) : Request :=
  {| Header := req_Header r; Params := HttpParameters ctx |}.

(** ** service/server.go: [ServeHTTP] *)

(** How [ServeHTTP] disposes of a request: the parameters fail and the
    error is written; a route is found and its function is called with
    the request that carries the parameters; or no route is found and
    the request goes on to the static files, [FnLastChance] and the 404,
    which are not part of this model. *)
Inductive Served (F : Type) :=
| ParametersError (e : string)
| Routed (fn : F) (r : Request)
| Unrouted (r : Request).
Arguments ParametersError {F} _.
Arguments Routed {F} _ _.
Arguments Unrouted {F} _.

Definition ServeHTTP {G : Globber} {D : Decoder} {F : Type} (s : Service F) (r : HttpRequest)
  : Service F * Served F :=
  let resolved := ResolveRoute s r in
  let params_uri :=
    match resolved with
    | Some (_, _, named) => named
    | None => ∅
    end in
  let '(parametersCtx, parametersErr) := parameters r params_uri in
  match parametersErr with
  | Some e => (s, ParametersError e)
  | None =>
      let r' := WithContext r parametersCtx in
      match resolved with
      | Some (i, sh, _) =>
          (set_routes (alter (set_Hits (fun hits => AddInt32 hits 1)) i) s, Routed (Fn sh) r')
      | None => (s, Unrouted r')
      end
  end.

(** A server that handles the requests of a list one after the other. *)
Fixpoint serve_all {G : Globber} {D : Decoder} {F : Type} (s : Service F)
  (rs : list HttpRequest) : Service F * list (Served F) :=
  match rs with
  | [] => (s, [])
  | r :: rest =>
      let '(s1, out) := ServeHTTP s r in
      let '(s2, outs) := serve_all s1 rest in
      (s2, out :: outs)
  end.

Definition is_Routed {F : Type} (o : Served F) : bool :=
  match o with
  | Routed _ _ => true
  | _ => false
  end.

(** The table is ordered: no route comes before one with a longer URI. *)
Definition ordered {F : Type} (l : list (serviceHttpRouteInfo F)) : Prop :=
  StronglySorted
    (fun a b => (String.length (URI b) <= String.length (URI a))%nat) l.

(** The sum of the hit counters of a table. *)
Definition total_hits {F : Type} (l : list (serviceHttpRouteInfo F)) : Z :=
  fold_right (fun route acc => Hits route + acc) 0 l.

(** The three layers of the unified parameters, as one key sees them:
    the first value of the query string, the named parameter of the
    route when it is not empty, and what the body gives under the
    content type of the request. *)
Definition first_value (values : gmap string (list string)) (k : string) : option Value :=
  match values !! k with
  | Some (v0 :: _) => Some (VString v0)
  | _ => None
  end.

Definition path_value (params_uri : gmap string string) (k : string) : option Value :=
  match params_uri !! k with
  | Some v => if String.eqb v "" then None else Some (VString v)
  | None => None
  end.

Definition is_json (r : HttpRequest) : bool :=
  GoSubstrings.HasPrefix (req_Header_Get r "Content-Type") "application/json".

Definition is_form (r : HttpRequest) : bool :=
  negb (is_json r) &&
  (GoSubstrings.HasPrefix (req_Header_Get r "Content-Type") "application/x-www-form-urlencoded"
   || GoSubstrings.HasPrefix (req_Header_Get r "Content-Type") "multipart/form-data").

Definition body_value {D : Decoder} (r : HttpRequest) (k : string) : option Value :=
  if is_json r then
    match Body r with
    | inl body =>
        match json_Unmarshal body with
        | inl j => j !! k
        | inr _ => None
        end
    | inr _ => None
    end
  else if is_form r then
    match Form r with
    | inl form => first_value form k
    | inr _ => None
    end
  else None.

(** The first layer, in the order given, that has a value. *)
Fixpoint first_some {A : Type} (layers : list (option A)) : option A :=
  match layers with
  | [] => None
  | Some v :: _ => Some v
  | None :: rest => first_some rest
  end.

(** ** part_004: content types and identifiers *)

Definition Extensions : list string :=
  [".js"; ".css"; ".html"; ".json"; ".txt"; ".png"; ".jpg"; ".jpeg"].

Definition getContentType (suffix : string) : string :=
  if String.eqb suffix ".js" then "application/javascript"
  else if String.eqb suffix ".css" then "text/css"
  else if String.eqb suffix ".html" then "text/html"
  else if String.eqb suffix ".json" then "application/json"
  else if String.eqb suffix ".txt" then "text/plain"
  else if String.eqb suffix ".png" then "image/png"
  else if String.eqb suffix ".jpg" || String.eqb suffix ".jpeg" then "image/jpeg"
  else "text/plain".

(** The loop of [static] over the extensions, with its [break]:
    [None] is [shouldIntercept == false]. *)
Fixpoint matchingSuffix (extensions : list string) (filePath : string) : option string :=
  match extensions with
  | [] => None
  | suffix :: rest =>
      if GoSubstrings.HasSuffix filePath suffix then Some suffix
      else matchingSuffix rest filePath
  end.

(** [%x] of one hexadecimal digit, and [%02x] of a byte. *)
Definition hex_digit (n : Z) : ascii :=
  nth (Z.to_nat n) (list_ascii_of_string "0123456789abcdef") "0"%char.

Definition hex02 (b : Z) : string :=
  String (hex_digit (Z.shiftr b 4)) (String (hex_digit (Z.land b 15)) EmptyString).

(** [CreateFastUniqueIdentifier]; [random] is the 16 bytes [rand.Read]
    fills the buffer with. *)
Definition CreateFastUniqueIdentifier (random : list Z) : string :=
  let b := random in
  let b := <[6%nat := Z.lor (Z.land (b !!! 6%nat) 15) 64]> b in
  let b := <[8%nat := Z.lor (Z.land (b !!! 8%nat) 63) 128]> b in
  let x (i : nat) := hex02 (b !!! i) in
  x 0%nat +:+ x 1%nat +:+ x 2%nat +:+ x 3%nat +:+ "-" +:+
  x 4%nat +:+ x 5%nat +:+ "-" +:+
  x 6%nat +:+ x 7%nat +:+ "-" +:+
  x 8%nat +:+ x 9%nat +:+ "-" +:+
  x 10%nat +:+ x 11%nat +:+ x 12%nat +:+ x 13%nat +:+ x 14%nat +:+ x 15%nat.

Definition is_byte (b : Z) : Prop := 0 <= b < 256.

Definition is_hex (c : ascii) : bool :=
  existsb (Ascii.eqb c) (list_ascii_of_string "0123456789abcdef").

(** The value of a hexadecimal digit and of a pair of them, to read an
    identifier back. *)
Definition hex_value (c : ascii) : Z :=
  let n := Z.of_nat (nat_of_ascii c) in
  if (48 <=? n) && (n <=? 57) then n - 48 else n - 87.

Definition unhex02 (hi lo : ascii) : Z := 16 * hex_value hi + hex_value lo.

(** The 16 bytes an identifier of 36 characters spells. *)
Definition identifier_bytes (id : string) : list Z :=
  let c := list_ascii_of_string id in
  let at_ (i : nat) := unhex02 (nth i c "0"%char) (nth (S i) c "0"%char) in
  map at_ [0; 2; 4; 6; 9; 11; 14; 16; 19; 21; 24; 26; 28; 30; 32; 34]%nat.

(** ** Notions for the properties of the SSE layer *)

(** The first [n] values pass, the rest do not. *)
Definition accepted (free : nat) (msgs : list SseMessage) : list error :=
  repeat None (min free (length msgs)) ++
  repeat (Some errBufferFull) (length msgs - free).

(** The registry points to sessions that exist. *)
Definition registry_ok {H : Type} (st : State H) : Prop :=
  forall id p, clients st !! id = Some p -> is_Some (heap st !! p).

(** From [st] to [st'] no session is lost and no client is added to the
    registry. *)
Definition within {H : Type} (st st' : State H) : Prop :=
  (forall q, is_Some (heap st !! q) -> is_Some (heap st' !! q)) /\
  (forall id q, clients st' !! id = Some q -> clients st !! id = Some q).

(** Requests served one after the other, each with the id of its
    consumer and its schedule; [None] when a handler function panics. *)
Fixpoint serve_each {E : External} {H : Type} {HH : SseEventHandler H}
  (requests : list (Request * ClientID * list Turn)) (st : State H) : option (State H) :=
  match requests with
  | [] => Some st
  | (r, id, sched) :: rest =>
      match serveSSE r id sched st with
      | Some (_, st', _) => serve_each rest st'
      | None => None
      end
  end.

Definition is_hook (a : Action) : bool :=
  match a with
  | AOnInitialize _ | AOnConnect _ | AOnMessage _ _ | AOnCallback _ | AOnDisconnect => true
  | _ => false
  end.

(** The messages of a list that the handler lets through, each call of
    [OnMessage] on the handler as the call before has left it; without
    a handler all of them. *)
Fixpoint relayed {H : Type} {HH : SseEventHandler H} (r : Request) (uh : option H)
  (msgs : list SseMessage) : list SseMessage :=
  match msgs with
  | [] => []
  | msg :: rest =>
      match uh with
      | Some h =>
          let '(h', pass) := OnMessage h r msg in
          if pass then msg :: relayed r (Some h') rest else relayed r (Some h') rest
      | None => msg :: relayed r None rest
      end
  end.

(** Every write of a trace fails and is the last thing the loop does
    before it returns. *)
Definition write_fails (e : Exit) (tr : list Action) : Prop :=
  forall b ok, In (AWrite b ok) tr ->
               ok = false /\ e = Returned /\ exists pre, tr = pre ++ [AWrite b false].

Definition broadcasts (msgs : list SseMessage) : list Turn :=
  map (fun msg => EvBroadcast (Some msg)) msgs.

(** Other goroutines queue the messages of a list, then the loop polls
    its direct queue [n] times. *)
Definition queue_then_poll (msgs : list SseMessage) (n : nat) : list Turn :=
  map EnvDirectMessage msgs ++ repeat EvDirect n.

Module RouterDemo.

(** A glob matcher for the demos: a pattern that ends in a star matches
    the paths that begin with what precedes the star, any other pattern
    matches itself. *)
Definition match_named (pattern path : string) : bool * gmap string string * error :=
  match GoStrings.reverse pattern with
  | String "*"%char rest =>
      (GoSubstrings.HasPrefix path (GoStrings.reverse rest), ∅, None)
  | _ => (String.eqb pattern path, ∅, None)
  end.

Definition globber : Globber := {| glob_MatchNamed := match_named |}.

Definition json_body : string :=
  "{" +:+ dquote +:+ "client_id" +:+ dquote +:+ ":" +:+ dquote +:+ "c9" +:+ dquote +:+ "}".

(** A decoder that knows one body. *)
Definition unmarshal (body : string) : gmap string Value + string :=
  if String.eqb body json_body then inl {[ "client_id" := VString "c9" ]}
  else inr "invalid character".

Definition decoder : Decoder := {| json_Unmarshal := unmarshal |}.

Definition get_request (path : string) : HttpRequest :=
  {| req_Method := "GET"; URL_Path := path; URL_Query := ∅; req_Header := ∅;
     RemoteAddr := "10.0.0.1:4000"; Body := inl ""; Form := inl ∅ |}.

(** A callback that names one client in its query string and another in
    its JSON body. *)
Definition json_callback : HttpRequest :=
  {| req_Method := "POST"; URL_Path := "/events/callback";
     URL_Query := {[ "client_id" := ["c1"]; "page" := ["2"] ]};
     req_Header := {[ "Content-Type" := "application/json; charset=utf-8" ]};
     RemoteAddr := "10.0.0.1:4000"; Body := inl json_body; Form := inl ∅ |}.

Definition one_route : Service nat :=
  (RegisterRouteGET (Build "demo") "/a/*" 1%nat).1.

Definition two_routes : Service nat :=
  (RegisterRouteGET one_route "/a//b" 2%nat).1.

Definition random16 : list Z :=
  [0; 17; 34; 51; 68; 85; 102; 119; 136; 153; 170; 187; 204; 221; 238; 255].

End RouterDemo.
(** * Properties *)

(** ** [strings.Split] *)

Lemma Split_nonempty s sep : GoStrings.Split s sep <> [].
Proof.
  destruct s as [|c s]; simpl; [discriminate|].
  destruct (Ascii.eqb c sep); [discriminate|].
  destruct (GoStrings.Split s sep); discriminate.
Qed.

Lemma Split_hd s sep : hd EmptyString (GoStrings.Split s sep) = upto sep s.
Proof.
  induction s as [|c s IH]; simpl; [reflexivity|].
  destruct (Ascii.eqb c sep); [reflexivity|].
  destruct (GoStrings.Split s sep) as [|p ps] eqn:E; simpl in *.
  - now destruct (Split_nonempty s sep).
  - now rewrite IH.
Qed.

(** Joining the pieces with the separator gives the string back. *)
Lemma Join_Split s sep : GoStrings.Join (GoStrings.Split s sep) sep = s.
Proof.
  induction s as [|c s IH]; simpl; [reflexivity|].
  destruct (Ascii.eqb c sep) eqn:E.
  - apply Ascii.eqb_eq in E; subst c.
    destruct (GoStrings.Split s sep) as [|p ps] eqn:E'.
    + now destruct (Split_nonempty s sep).
    + simpl. now rewrite <- IH.
  - destruct (GoStrings.Split s sep) as [|p ps] eqn:E'.
    + now destruct (Split_nonempty s sep).
    + rewrite <- IH. destruct ps; reflexivity.
Qed.

(** No piece contains the separator. *)
Lemma Split_no_sep s sep :
  Forall (fun p => has_byte sep p = false) (GoStrings.Split s sep).
Proof.
  induction s as [|c s IH]; simpl.
  - constructor; [reflexivity|constructor].
  - destruct (Ascii.eqb c sep) eqn:E.
    + constructor; [reflexivity|exact IH].
    + destruct (GoStrings.Split s sep) as [|p ps]; [repeat constructor; simpl; now rewrite E|].
      inversion IH; subst. constructor; [|assumption].
      simpl. now rewrite E.
Qed.

(** ** [strings.TrimSpace] *)

Lemma append_assoc' (s1 s2 s3 : string) : (s1 +:+ s2) +:+ s3 = s1 +:+ (s2 +:+ s3).
Proof.
  induction s1 as [|c s1 IH]; [reflexivity|].
  change (String c ((s1 +:+ s2) +:+ s3) = String c (s1 +:+ (s2 +:+ s3))).
  now rewrite IH.
Qed.

Lemma append_length (s1 s2 : string) :
  String.length (s1 +:+ s2) = (String.length s1 + String.length s2)%nat.
Proof.
  induction s1 as [|c s1 IH]; [reflexivity|].
  change (S (String.length (s1 +:+ s2)) = S (String.length s1 + String.length s2)).
  now rewrite IH.
Qed.

Lemma rev_string_app acc s :
  GoStrings.rev_string acc s = GoStrings.rev_string EmptyString s +:+ acc.
Proof.
  revert acc. induction s as [|c s IH]; intros acc; simpl; [reflexivity|].
  rewrite (IH (String c acc)), (IH (String c EmptyString)).
  now rewrite append_assoc'.
Qed.

Lemma reverse_cons c s :
  GoStrings.reverse (String c s) = GoStrings.reverse s +:+ String c EmptyString.
Proof. unfold GoStrings.reverse. simpl. apply rev_string_app. Qed.

Lemma reverse_snoc s c :
  GoStrings.reverse (s +:+ String c EmptyString) = String c (GoStrings.reverse s).
Proof.
  induction s as [|d s IH]; [reflexivity|].
  change (String d s +:+ String c EmptyString) with (String d (s +:+ String c EmptyString)).
  rewrite !reverse_cons, IH. reflexivity.
Qed.

Lemma reverse_involutive s : GoStrings.reverse (GoStrings.reverse s) = s.
Proof.
  induction s as [|c s IH]; [reflexivity|]. now rewrite reverse_cons, reverse_snoc, IH.
Qed.

Lemma reverse_length s : String.length (GoStrings.reverse s) = String.length s.
Proof.
  induction s as [|c s IH]; [reflexivity|]. rewrite reverse_cons, append_length, IH.
  simpl. lia.
Qed.

Lemma strip_length p s r :
  GoStrings.strip p s = Some r ->
  String.length s = (String.length p + String.length r)%nat.
Proof.
  revert s. induction p as [|a p IH]; intros s; simpl; [now intros [= ->]|].
  destruct s as [|b s]; [discriminate|]. destruct (Ascii.eqb a b); [|discriminate].
  intros Hs. simpl. now rewrite (IH _ Hs).
Qed.

Lemma strip_any_length encs s r :
  Forall (fun p => p <> EmptyString) encs ->
  GoStrings.strip_any encs s = Some r -> (String.length r < String.length s)%nat.
Proof.
  induction 1 as [|p encs Hp _ IH]; simpl; [discriminate|].
  destruct (GoStrings.strip p s) as [r'|] eqn:Hs; [|exact IH].
  intros [= <-]. apply strip_length in Hs. destruct p; [contradiction|]. simpl in Hs. lia.
Qed.

(** With fuel for every byte, trimming goes on until no encoding of a
    space is left at the front. *)
Lemma trim_front_done encs :
  Forall (fun p => p <> EmptyString) encs ->
  forall fuel s, (String.length s <= fuel)%nat ->
                 GoStrings.strip_any encs (GoStrings.trim_front encs fuel s) = None.
Proof.
  intros Hne. induction fuel as [|fuel IH]; intros s Hlen; simpl.
  - destruct (GoStrings.strip_any encs s) as [r|] eqn:Hs; [|reflexivity].
    apply strip_any_length in Hs; [lia|exact Hne].
  - destruct (GoStrings.strip_any encs s) as [r|] eqn:Hs; [|exact Hs].
    apply IH. apply strip_any_length in Hs; [lia|exact Hne].
Qed.

Lemma trim_front_fixed encs fuel s :
  GoStrings.strip_any encs s = None -> GoStrings.trim_front encs fuel s = s.
Proof. destruct fuel; simpl; [reflexivity|]. now intros ->. Qed.

Lemma space_encodings_nonempty :
  Forall (fun p => p <> EmptyString) GoStrings.space_encodings /\
  Forall (fun p => p <> EmptyString) (map GoStrings.reverse GoStrings.space_encodings).
Proof. split; repeat constructor; discriminate. Qed.

(** What [TrimSpace] returns neither begins (for [TrimLeftSpace]) nor
    ends with a space. *)
Lemma TrimLeftSpace_done s :
  GoStrings.strip_any GoStrings.space_encodings (GoStrings.TrimLeftSpace s) = None.
Proof.
  unfold GoStrings.TrimLeftSpace. apply trim_front_done; [apply space_encodings_nonempty|].
  lia.
Qed.

Lemma TrimSpace_no_trailing s :
  GoStrings.strip_any (map GoStrings.reverse GoStrings.space_encodings)
    (GoStrings.reverse (GoStrings.TrimSpace s)) = None.
Proof.
  unfold GoStrings.TrimSpace, GoStrings.TrimRightSpace. rewrite reverse_involutive.
  apply trim_front_done; [apply space_encodings_nonempty|]. rewrite reverse_length. lia.
Qed.

(** A string with no space at either end is left as it is. *)
Lemma TrimSpace_fixed s :
  GoStrings.strip_any GoStrings.space_encodings s = None ->
  GoStrings.strip_any (map GoStrings.reverse GoStrings.space_encodings)
    (GoStrings.reverse s) = None ->
  GoStrings.TrimSpace s = s.
Proof.
  intros Hl Hr. unfold GoStrings.TrimSpace, GoStrings.TrimRightSpace, GoStrings.TrimLeftSpace.
  rewrite (trim_front_fixed _ _ _ Hl), (trim_front_fixed _ _ _ Hr).
  apply reverse_involutive.
Qed.

Example Split_commas :
  GoStrings.Split "a,b,,c" ","%char = ["a"; "b"; ""; "c"] /\
  GoStrings.Split "," ","%char = [""; ""] /\
  GoStrings.Split "" ","%char = [""] /\
  GoStrings.Split "text/html" ","%char = ["text/html"].
Proof. repeat split. Qed.

Example TrimSpace_blank : GoStrings.TrimSpace "   " = "" /\ GoStrings.TrimSpace "" = "".
Proof. split; reflexivity. Qed.

Example TrimSpace_ascii :
  GoStrings.TrimSpace (" " +:+ String "009"%char "text/html " +:+ CRLF) = "text/html".
Proof. reflexivity. Qed.

Example TrimSpace_nbsp :
  GoStrings.TrimSpace (GoStrings.bytes [194; 160; 97; 32; 98; 226; 128; 137]%nat) = "a b".
Proof. reflexivity. Qed.

Example TrimSpace_inner : GoStrings.TrimSpace "a b" = "a b".
Proof. reflexivity. Qed.

(** ** [containsAcceptType] and the discriminator of the route *)

Example accept_among_others :
  containsAcceptType "text/html, text/event-stream ;q=0.9, */*" streamType = true.
Proof. reflexivity. Qed.

Example accept_case_matters : containsAcceptType "Text/Event-Stream" streamType = false.
Proof. reflexivity. Qed.

Example accept_empty : containsAcceptType "" streamType = false.
Proof. reflexivity. Qed.

Lemma containsAcceptType_range_iff parts expected :
  containsAcceptType_range parts expected = true <->
  exists entry, In entry parts /\ mediaType entry = expected.
Proof.
  unfold mediaType. induction parts as [|part rest IH]; simpl.
  - split; [discriminate|]. now intros (e & [] & _).
  - rewrite Split_hd.
    destruct (String.eqb_spec (GoStrings.TrimSpace (upto ";"%char part)) expected) as [E|E].
    + split; [|reflexivity]. intros _. exists part. now split; [left|].
    + rewrite IH. split.
      * intros (e & Hin & He). exists e. now split; [right|].
      * intros (e & [->|Hin] & He); [contradiction|]. now exists e.
Qed.

Lemma handleCallback_clients {E : External} {H : Type} {HH : SseEventHandler H}
  (r : Request) (st st' : State H) (u : unit) (tr : list Action) :
  handleCallback r st = Some (u, st', tr) -> clients st' = clients st.
Proof.
  unfold handleCallback.
  destruct (String.eqb (resolveClientID r) ""); [intros [= <- <-]; reflexivity|].
  unfold bind, get, load. simpl.
  destruct (clients st !! resolveClientID r) as [p|]; [|intros [= <- <-]; reflexivity].
  destruct (heap st !! p) as [s|]; [|discriminate].
  destruct (user_handler s); simpl; intros [= <- <-]; reflexivity.
Qed.

(** C10. [containsAcceptType] answers true exactly when the media type
    of some comma-separated entry of the header, parameters after [;]
    dropped and white space trimmed, is the expected type, so that
    [text/event-stream;charset=utf-8] declares the streaming type and
    [*/*] and [text/event-stream2] do not; and a request whose [Accept]
    header does not declare it but which carries a non-empty
    [X-Client-ID] is handled as a callback: no consumer is created and
    the registry is left as it was. *)
Theorem accept_discriminator :
  (forall header expected : string,
      containsAcceptType header expected = true <->
      exists entry, In entry (GoStrings.Split header ","%char) /\
                    mediaType entry = expected) /\
  containsAcceptType "text/event-stream;charset=utf-8" streamType = true /\
  containsAcceptType "*/*" streamType = false /\
  containsAcceptType "text/event-stream2" streamType = false /\
  (forall (E : External) (H : Type) (HH : SseEventHandler H)
          (r : Request) (id : ClientID) (sched : list Turn) (st : State H),
      containsAcceptType (Header_Get r "Accept") streamType = false ->
      Header_Get r "X-Client-ID" <> "" ->
      serveSSE r id sched st = bind (handleCallback r) (fun _ => ret Returned) st /\
      forall e st' tr, serveSSE r id sched st = Some (e, st', tr) ->
                       e = Returned /\ clients st' = clients st /\
                       ~ In (ACreateConsumer id) tr).
Proof.
  split; [|split; [|split; [|split]]]; try reflexivity.
  - intros header expected. apply containsAcceptType_range_iff.
  - intros E H HH r id sched st Hacc Hid.
    assert (Hrun : serveSSE r id sched st
                   = bind (handleCallback r) (fun _ => ret Returned) st).
    { unfold serveSSE. rewrite Hacc.
      destruct (String.eqb_spec (Header_Get r "X-Client-ID") ""); [contradiction|].
      reflexivity. }
    split; [exact Hrun|].
    intros e st' tr. rewrite Hrun. unfold bind.
    destruct (handleCallback r st) as [[[u st1] t1]|] eqn:Hcb; [|discriminate].
    simpl. intros [= <- <- <-].
    split; [reflexivity|]. split; [eapply handleCallback_clients; eassumption|].
    rewrite app_nil_r. clear Hrun. revert Hcb. unfold handleCallback.
    destruct (String.eqb (resolveClientID r) "").
    { intros [= <- <- <-]. simpl. intros [C|[]]; discriminate. }
    unfold bind, get, load; simpl.
    destruct (clients st !! resolveClientID r) as [p|].
    2:{ intros [= <- <- <-]. simpl. intros [C|[]]; discriminate. }
    destruct (heap st !! p) as [s|]; [|discriminate].
    destruct (user_handler s); simpl; intros [= <- <- <-]; simpl.
    + intros [C|[]]; discriminate.
    + intros [].
Qed.

Lemma accept_discriminator_witness :
  containsAcceptType (Header_Get (Demo.callback_request "c1") "Accept") streamType = false /\
  Header_Get (Demo.callback_request "c1") "X-Client-ID" <> "" /\
  serveSSE (E := Demo.external) (HH := Demo.handler) (Demo.callback_request "c1") "c2" [EvDone]
    (Demo.server None Demo.writer)
  = bind (handleCallback (E := Demo.external) (HH := Demo.handler)
            (Demo.callback_request "c1")) (fun _ => ret Returned)
      (Demo.server None Demo.writer).
Proof.
  split; [reflexivity|]. split; [discriminate|].
  apply (proj2 (proj2 (proj2 (proj2 accept_discriminator)))); [reflexivity|discriminate].
Defined.

(** ** Sessions *)

Section Sessions.
Context {H : Type}.
Implicit Types (s : SseSession H) (msg : SseMessage).

Lemma new_session_wf id : session_wf (new_session (H := H) id).
Proof. repeat split; simpl; lia. Qed.

Lemma set_user_handler_wf s uh : session_wf s -> session_wf (set_user_handler s uh).
Proof. intros W. exact W. Qed.

Lemma DirectMessage_wf s msg s' e :
  session_wf s -> DirectMessage s msg = Some (s', e) -> session_wf s'.
Proof.
  intros W. pose proof W as (Hcap & Hlen & Hopen). unfold DirectMessage, try_send.
  destruct (closed s) eqn:Hc; [intros [= <- <-]; exact W|].
  destruct (chan_closed (direct_messages s)) eqn:Hq; [discriminate|].
  destruct (Nat.ltb_spec (length (buf (direct_messages s))) (cap (direct_messages s))).
  - intros [= <- <-]. unfold session_wf; simpl. rewrite length_app; simpl.
    split; [assumption|]. split; [lia|]. intros _. split; [apply Hopen; reflexivity|reflexivity].
  - intros [= <- <-]. exact W.
Qed.

(** A session that respects the invariant never panics in [DirectMessage]. *)
Lemma DirectMessage_total s msg :
  session_wf s -> exists s' e, DirectMessage s msg = Some (s', e).
Proof.
  intros (Hcap & Hlen & Hopen). unfold DirectMessage, try_send.
  destruct (closed s) eqn:Hc; [eauto|].
  destruct (Hopen eq_refl) as [_ ->].
  destruct (length (buf (direct_messages s)) <? cap (direct_messages s))%nat; eauto.
Qed.

(** A slot is free: the message is queued behind the others. *)
Lemma DirectMessage_enqueue s msg :
  session_wf s -> closed s = false ->
  (length (buf (direct_messages s)) < 256)%nat ->
  DirectMessage s msg
  = Some (set_direct_messages s
            {| buf := buf (direct_messages s) ++ [msg]; cap := 256; chan_closed := false |},
          None).
Proof.
  intros (Hcap & Hlen & Hopen) Hc Hlt. unfold DirectMessage, try_send.
  rewrite Hc. destruct (Hopen Hc) as [_ ->]. rewrite Hcap.
  destruct (Nat.ltb_spec (length (buf (direct_messages s))) 256); [|lia].
  unfold set_direct_messages. now rewrite Hc.
Qed.

Lemma Close_guard_closed s : closed (Close_guard s).1 = true.
Proof. unfold Close_guard. destruct (closed s) eqn:Hc; simpl; auto. Qed.

(** Between the unlock and the releases of a [Close] in progress the
    flag is already set: [DirectMessage] is refused from then on. *)
Lemma DirectMessage_after_guard s msg :
  DirectMessage (Close_guard s).1 msg = Some ((Close_guard s).1, Some errSessionClosed).
Proof. unfold DirectMessage. now rewrite Close_guard_closed. Qed.

Lemma Close_closed s s1 rel : Close s = Some (s1, rel) -> closed s1 = true.
Proof.
  unfold Close, Close_guard, Close_release.
  destruct (closed s) eqn:Hc; simpl; [intros [= <- <-]; exact Hc|].
  destruct (close_chan (done s)); [|discriminate].
  destruct (close_chan (direct_messages s)); [|discriminate].
  intros [= <- <-]. reflexivity.
Qed.

(** A session that respects the invariant never panics in [Close]. *)
Lemma Close_total s : session_wf s -> exists s1 rel, Close s = Some (s1, rel).
Proof.
  intros (Hcap & Hlen & Hopen). unfold Close, Close_guard, Close_release, close_chan.
  destruct (closed s) eqn:Hc; simpl; [eauto|].
  destruct (Hopen eq_refl) as [-> ->]. eauto.
Qed.

Lemma Close_wf s s1 rel : session_wf s -> Close s = Some (s1, rel) -> session_wf s1.
Proof.
  intros (Hcap & Hlen & Hopen) HC. pose proof (Close_closed _ _ _ HC) as Hc1.
  revert HC. unfold Close, Close_guard, Close_release, close_chan.
  destruct (closed s) eqn:Hc; simpl.
  - intros [= <- <-]. repeat split; auto; congruence.
  - destruct (chan_closed (done s)); [discriminate|].
    destruct (chan_closed (direct_messages s)); [discriminate|].
    intros [= <- <-]. unfold session_wf; simpl. repeat split; auto; discriminate.
Qed.

(** C5. Once [Close] has been called on a session, every later
    [DirectMessage] fails with the session-closed error and leaves the
    session, its queue included, as it was; so does every run of such
    calls. *)
Theorem DirectMessage_after_Close s s1 (rel : list Resource) (msgs : list SseMessage) :
  Close s = Some (s1, rel) ->
  (forall msg, DirectMessage s1 msg = Some (s1, Some errSessionClosed)) /\
  DirectMessages s1 msgs = Some (s1, repeat (Some errSessionClosed) (length msgs)).
Proof.
  intros HC. apply Close_closed in HC.
  assert (Hone : forall msg, DirectMessage s1 msg = Some (s1, Some errSessionClosed)).
  { intros msg. unfold DirectMessage. now rewrite HC. }
  split; [exact Hone|].
  induction msgs as [|msg rest IH]; simpl; [reflexivity|].
  now rewrite Hone, IH.
Qed.

(** C6. [Close] is idempotent. After a first call has completed, a
    second call does not panic, changes nothing and releases nothing;
    its guard does not pass again. The first call, on an open session,
    is the one that releases the cancellation signal, the broadcast
    consumer and the direct queue, each once; on a session that was
    already closed it is itself a call that changes nothing. *)
Theorem Close_idempotent s s1 (rel : list Resource) :
  Close s = Some (s1, rel) ->
  Close s1 = Some (s1, []) /\
  (Close_guard s1).2 = false /\
  closed s1 = true /\
  (closed s = false ->
   rel = [ResDone; ResConsumer; ResDirect] /\
   chan_closed (done s1) = true /\
   chan_closed (direct_messages s1) = true /\
   consumer_closes (broadcast_messages s1) = S (consumer_closes (broadcast_messages s))) /\
  (closed s = true -> s1 = s /\ rel = []).
Proof.
  intros HC. pose proof (Close_closed _ _ _ HC) as Hc1.
  split; [unfold Close, Close_guard; now rewrite Hc1|].
  split; [unfold Close_guard; now rewrite Hc1|].
  split; [exact Hc1|].
  revert HC. unfold Close, Close_guard, Close_release, close_chan.
  destruct (closed s) eqn:Hc; simpl.
  - intros [= <- <-]. split; [discriminate|auto].
  - destruct (chan_closed (done s)); [discriminate|].
    destruct (chan_closed (direct_messages s)); [discriminate|].
    intros [= <- <-]. simpl. split; [auto|discriminate].
Qed.

(** C7. On an open session whose direct queue holds 256 messages,
    [DirectMessage] takes the [default] branch of its [select]: it
    returns the buffer-full error at once, the message is dropped and
    the session, its queue included, is left as it was. *)
Theorem DirectMessage_full s msg :
  session_wf s -> closed s = false ->
  length (buf (direct_messages s)) = 256%nat ->
  DirectMessage s msg = Some (s, Some errBufferFull).
Proof.
  intros (Hcap & Hlen & Hopen) Hc Hfull. unfold DirectMessage, try_send.
  rewrite Hc. destruct (Hopen Hc) as [_ ->]. rewrite Hcap, Hfull. reflexivity.
Qed.

End Sessions.

Lemma DirectMessage_after_Close_witness :
  Close Demo.open_session = Some (Demo.closed_session, [ResDone; ResConsumer; ResDirect]) /\
  DirectMessages Demo.closed_session [Demo.msg_x; Demo.msg_x]
  = Some (Demo.closed_session, [Some errSessionClosed; Some errSessionClosed]).
Proof.
  split; [reflexivity|].
  apply (DirectMessage_after_Close Demo.open_session Demo.closed_session
           [ResDone; ResConsumer; ResDirect] [Demo.msg_x; Demo.msg_x]).
  reflexivity.
Defined.

Lemma Close_idempotent_witness :
  Close Demo.open_session = Some (Demo.closed_session, [ResDone; ResConsumer; ResDirect]) /\
  Close Demo.closed_session = Some (Demo.closed_session, []).
Proof.
  split; [reflexivity|].
  apply (Close_idempotent Demo.open_session Demo.closed_session
           [ResDone; ResConsumer; ResDirect]).
  reflexivity.
Defined.

Lemma DirectMessage_full_witness :
  session_wf Demo.full_session /\
  closed Demo.full_session = false /\
  length (buf (direct_messages Demo.full_session)) = 256%nat /\
  DirectMessage Demo.full_session Demo.msg_x = Some (Demo.full_session, Some errBufferFull).
Proof.
  assert (W : session_wf Demo.full_session).
  { split; [vm_compute; reflexivity|].
    split; [apply Nat.leb_le; vm_compute; reflexivity|].
    intros _. split; vm_compute; reflexivity. }
  split; [exact W|]. split; [reflexivity|]. split; [vm_compute; reflexivity|].
  apply (DirectMessage_full Demo.full_session Demo.msg_x W); vm_compute; reflexivity.
Defined.

(** ** Running the monad *)

Section Runs.
Context {H : Type}.
Implicit Types (st : State H).

Lemma bind_Some {A B : Type} (m : M H A) (k : A -> M H B) st b st' tr :
  bind m k st = Some (b, st', tr) ->
  exists a st1 t1 t2,
    m st = Some (a, st1, t1) /\ k a st1 = Some (b, st', t2) /\ tr = t1 ++ t2.
Proof.
  unfold bind. destruct (m st) as [[[a st1] t1]|]; [|discriminate].
  destruct (k a st1) as [[[b' st2] t2]|] eqn:K; [|discriminate].
  intros [= <- <- <-]. now exists a, st1, t1, t2.
Qed.

Lemma bind_run {A B : Type} (m : M H A) (k : A -> M H B) st a st1 t1 :
  m st = Some (a, st1, t1) ->
  bind m k st = match k a st1 with
                | Some (b, st2, t2) => Some (b, st2, t1 ++ t2)
                | None => None
                end.
Proof. unfold bind. now intros ->. Qed.

Lemma ret_Some {A : Type} (a : A) st b st' (tr : list Action) :
  ret a st = Some (b, st', tr) -> b = a /\ st' = st /\ tr = [].
Proof. unfold ret. now intros [= <- <- <-]. Qed.

Lemma emit_Some (a : Action) st u st' tr :
  emit a st = Some (u, st', tr) -> st' = st /\ tr = [a].
Proof. unfold emit. now intros [= <- <-]. Qed.

Lemma get_Some st (x : State H) st' (tr : list Action) :
  get st = Some (x, st', tr) -> x = st /\ st' = st /\ tr = [].
Proof. unfold get. now intros [= <- <- <-]. Qed.

Lemma modify_Some (f : State H -> State H) st u st' (tr : list Action) :
  modify f st = Some (u, st', tr) -> st' = f st /\ tr = [].
Proof. unfold modify. now intros [= <- <-]. Qed.

Lemma load_Some p st (s : SseSession H) st' (tr : list Action) :
  load p st = Some (s, st', tr) -> heap st !! p = Some s /\ st' = st /\ tr = [].
Proof.
  unfold load. destruct (heap st !! p); [|discriminate]. now intros [= <- <- <-].
Qed.

Lemma store_Some p (s : SseSession H) st u st' (tr : list Action) :
  store p s st = Some (u, st', tr) -> st' = set_heap (insert p s) st /\ tr = [].
Proof. unfold store, modify. now intros [= <- <-]. Qed.

Lemma Write_Some b st ok st' (tr : list Action) :
  Write b st = Some (ok, st', tr) ->
  tr = [AWrite b ok] /\ ok = negb (broken (resp st)) /\
  st' = (if ok then set_resp (add_frame b) st else st).
Proof.
  unfold Write, bind, get, modify, emit, ret. simpl.
  destruct (broken (resp st)) eqn:Hb; simpl; rewrite ?Hb; simpl; now intros [= <- <- <-].
Qed.

Lemma WriteError_Some e st u st' (tr : list Action) :
  WriteError e st = Some (u, st', tr) ->
  tr = [AWriteError e] /\ heap st' = heap st /\ clients st' = clients st /\
  now st' = now st /\ factory st' = factory st /\
  is_flusher (resp st') = is_flusher (resp st) /\ broken (resp st') = broken (resp st).
Proof.
  unfold WriteError, bind, modify, emit, error_response. simpl. intros [= <- <-]. simpl.
  destruct (broken (resp st)) eqn:Hb; auto 10.
Qed.

End Runs.

(** Takes apart a run of a composed computation into the runs of its
    steps. *)
Ltac run_step :=
  match goal with
  | R : bind _ _ _ = Some _ |- _ =>
      apply bind_Some in R;
      let a := fresh "a" in let st := fresh "st" in
      let t1 := fresh "t" in let t2 := fresh "t" in
      let R1 := fresh "R" in let R2 := fresh "R" in
      destruct R as (a & st & t1 & t2 & R1 & R2 & ->)
  | R : ret _ _ = Some _ |- _ => apply ret_Some in R; destruct R as (? & ? & ?); subst
  | R : emit _ _ = Some _ |- _ => apply emit_Some in R; destruct R as (? & ?); subst
  | R : get _ = Some _ |- _ => apply get_Some in R; destruct R as (? & ? & ?); subst
  | R : modify _ _ = Some _ |- _ => apply modify_Some in R; destruct R as (? & ?); subst
  | R : load _ _ = Some _ |- _ =>
      apply load_Some in R;
      let L := fresh "L" in destruct R as (L & ? & ?); subst
  | R : store _ _ _ = Some _ |- _ => apply store_Some in R; destruct R as (? & ?); subst
  | R : panic _ = Some _ |- _ => discriminate R
  | R : Write _ _ = Some _ |- _ => apply Write_Some in R; destruct R as (? & ? & ?); subst
  | R : WriteError _ _ = Some _ |- _ =>
      apply WriteError_Some in R; destruct R as (? & ? & ? & ? & ? & ? & ?); subst
  | R : Header_Set _ _ _ = Some _ |- _ => unfold Header_Set in R
  end.

Ltac run_all := repeat run_step.

(** The same, with a case analysis where the computation branches. *)
Ltac run_cases :=
  repeat (run_step ||
          match goal with
          | R : (match ?x with _ => _ end) _ = Some _ |- _ => destruct x eqn:?
          | R : match ?x with _ => _ end = Some _ |- _ => destruct x eqn:?
          end).

(** ** One round of the multiplex loop *)

Section Rounds.
Context {E : External} {H : Type} {HH : SseEventHandler H}.
Implicit Types (st : State H) (s : SseSession H) (msg : SseMessage) (t : Ticker).

Lemma deliver_unfold r p t msg :
  deliver r p t msg
  = bind (filtered r p msg) (fun skip => if skip then ret (Continue t) else pass_on t msg).
Proof. reflexivity. Qed.

Lemma pass_on_run t msg st :
  exists f st' tr,
    pass_on t msg st = Some (f, st', tr) /\
    forallb (fun a => negb (is_OnMessage a)) tr = true /\
    heap st' = heap st /\ clients st' = clients st /\ now st' = now st.
Proof.
  unfold pass_on. destruct (Encode msg) as [frame|err].
  - unfold Write, bind, get, modify, emit, ret; simpl.
    destruct (broken (resp st)) eqn:Hb; simpl; [eauto 10|].
    destruct (is_flusher (resp st)); simpl; eauto 10.
  - unfold WriteError, bind, modify, emit, ret; simpl. eauto 10.
Qed.

Lemma filtered_handler r p msg st s uh :
  heap st !! p = Some s -> user_handler s = Some uh ->
  filtered r p msg st
  = Some (negb (OnMessage uh r msg).2,
          set_heap (insert p (set_user_handler s (Some (OnMessage uh r msg).1))) st,
          [AOnMessage msg (OnMessage uh r msg).2]).
Proof.
  intros Hp Hh. unfold filtered, bind, load. rewrite Hp. simpl. rewrite Hh.
  destruct (OnMessage uh r msg) as [uh' pass]. reflexivity.
Qed.

Lemma filtered_nil r p msg st s :
  heap st !! p = Some s -> user_handler s = None ->
  filtered r p msg st = Some (false, st, []).
Proof.
  intros Hp Hh. unfold filtered, bind, load. rewrite Hp. simpl. now rewrite Hh.
Qed.

(** The direct case hands the head of the queue to [deliver]. *)
Lemma iterate_direct r p t st s msg rest :
  heap st !! p = Some s -> buf (direct_messages s) = msg :: rest ->
  iterate r p t EvDirect st
  = deliver r p t msg
      (set_heap (insert p (set_direct_messages s
                   {| buf := rest; cap := cap (direct_messages s);
                      chan_closed := chan_closed (direct_messages s) |})) st).
Proof.
  intros Hp Hq. unfold iterate. unfold bind at 1. unfold load at 1. rewrite Hp.
  unfold try_recv. rewrite Hq. unfold bind at 1. unfold store, modify.
  destruct (deliver r p t msg _) as [[[f st'] tr]|]; reflexivity.
Qed.

(** The ping case never consults the handler. *)
Lemma iterate_ping_unfiltered r p t st f st' tr :
  iterate r p t EvPing st = Some (f, st', tr) ->
  forallb (fun a => negb (is_OnMessage a)) tr = true.
Proof.
  unfold iterate, deliver_ping. intros R. run_all.
  destruct (Ticker_ready t (now st)); [|run_all; reflexivity].
  run_all. destruct (Encode (pingMsg (now st))) as [frame|err].
  - run_all.
    destruct (broken (resp st)); simpl in *; run_all; [reflexivity|].
    destruct (is_flusher (resp st)); run_all; reflexivity.
  - run_all. reflexivity.
Qed.

End Rounds.

(** ** What a run of the loop leaves alone *)

Section Kept.
Context {E : External} {H : Type} {HH : SseEventHandler H}.
Implicit Types (st : State H) (s : SseSession H) (msg : SseMessage) (t : Ticker).

Lemma kept_refl p st : kept p st st.
Proof.
  split; [|split; [|split; [|split]]]; auto.
  intros s Hs. exists s. tauto.
Qed.

Lemma kept_trans p st1 st2 st3 : kept p st1 st2 -> kept p st2 st3 -> kept p st1 st3.
Proof.
  intros (C1 & F1 & W1 & O1 & S1) (C2 & F2 & W2 & O2 & S2).
  split; [congruence|]. split; [congruence|]. split; [congruence|].
  split; [intros q Hq; rewrite O2, O1; auto|].
  intros s Hs. destruct (S1 s Hs) as (s' & Hs' & I1 & N1 & V1).
  destruct (S2 s' Hs') as (s'' & Hs'' & I2 & N2 & V2).
  exists s''. split; [assumption|]. split; [congruence|].
  split; [tauto|tauto].
Qed.

Lemma kept_store p st s s' :
  heap st !! p = Some s -> client_id s' = client_id s ->
  (user_handler s' = None <-> user_handler s = None) ->
  (session_wf s -> session_wf s') ->
  kept p st (set_heap (insert p s') st).
Proof.
  intros Hs Hid Hn Hw. split; [|split; [|split; [|split]]]; simpl; auto.
  - intros q Hq. now rewrite lookup_insert_ne.
  - intros s0 Hs0. rewrite Hs in Hs0. injection Hs0 as <-.
    exists s'. rewrite lookup_insert_eq. tauto.
Qed.

Lemma kept_resp p st f :
  (forall w, is_flusher (f w) = is_flusher w) -> kept p st (set_resp f st).
Proof.
  intros Hf. split; [|split; [|split; [|split]]]; simpl; auto.
  intros s Hs. exists s. tauto.
Qed.

Lemma kept_now p st f : kept p st (set_now f st).
Proof.
  split; [|split; [|split; [|split]]]; simpl; auto.
  intros s Hs. exists s. tauto.
Qed.

Lemma kept_live p st st' : kept p st st' -> live p st -> live p st'.
Proof.
  intros (_ & _ & _ & _ & S) (s & Hs & W).
  destruct (S s Hs) as (s' & Hs' & _ & _ & W'). exists s'. auto.
Qed.

Lemma Encode_frame_inl msg frame : Encode msg = inl frame -> is_frame frame.
Proof.
  unfold Encode. destruct (json_Marshal msg) as [j|e] eqn:Ej; [|discriminate].
  intros [= <-]. now exists msg, j.
Qed.

Lemma Write_kept p b st ok st' (tr : list Action) :
  Write b st = Some (ok, st', tr) -> kept p st st'.
Proof.
  intros R. apply Write_Some in R. destruct R as (_ & _ & ->).
  destruct ok; [|apply kept_refl]. now apply kept_resp.
Qed.

Lemma WriteError_kept p e st u st' (tr : list Action) :
  WriteError e st = Some (u, st', tr) -> kept p st st'.
Proof.
  unfold WriteError, bind, emit, modify. simpl. intros [= <- <-].
  apply kept_resp. intros w. unfold error_response. now destruct (broken w).
Qed.

Lemma pass_on_kept p t msg st f st' tr :
  pass_on t msg st = Some (f, st', tr) -> kept p st st' /\ Forall loop_action tr.
Proof.
  unfold pass_on. destruct (Encode msg) as [frame|err] eqn:Enc; intros R.
  - apply Encode_frame_inl in Enc. apply bind_Some in R.
    destruct R as (ok & st1 & t1 & t2 & RW & R & ->).
    pose proof (Write_kept p _ _ _ _ _ RW) as K1.
    apply Write_Some in RW. destruct RW as (-> & _ & _).
    destruct ok; simpl in R; run_all.
    + destruct (is_flusher (resp st1)); run_all; split; auto;
        repeat constructor; assumption.
    + split; auto. repeat constructor; assumption.
  - apply bind_Some in R. destruct R as (u & st1 & t1 & t2 & RW & R & ->).
    pose proof (WriteError_kept p _ _ _ _ _ RW) as K1.
    apply WriteError_Some in RW. destruct RW as (-> & _). run_all.
    split; auto. repeat constructor.
Qed.

Lemma pass_on_total t msg st : exists f st' tr, pass_on t msg st = Some (f, st', tr).
Proof. destruct (pass_on_run t msg st) as (f & st' & tr & R & _). eauto. Qed.

Lemma filtered_kept r p msg st b st' tr :
  filtered r p msg st = Some (b, st', tr) -> kept p st st' /\ Forall loop_action tr.
Proof.
  unfold filtered. intros R. run_all.
  destruct (user_handler a) as [uh|] eqn:Hh.
  - destruct (OnMessage uh r msg) as [uh' pass]. run_all. split.
    + eapply kept_store; eauto. simpl. rewrite Hh. split; discriminate.
    + repeat constructor.
  - run_all. split; [apply kept_refl|constructor].
Qed.

Lemma filtered_total r p msg st :
  live p st -> exists b st' tr, filtered r p msg st = Some (b, st', tr).
Proof.
  intros (s & Hs & _). destruct (user_handler s) as [uh|] eqn:Hh.
  - rewrite (filtered_handler r p msg st s uh Hs Hh). eauto.
  - rewrite (filtered_nil r p msg st s Hs Hh). eauto.
Qed.

Lemma deliver_kept r p t msg st f st' tr :
  deliver r p t msg st = Some (f, st', tr) -> kept p st st' /\ Forall loop_action tr.
Proof.
  rewrite deliver_unfold. intros R. apply bind_Some in R.
  destruct R as (skip & st1 & t1 & t2 & RF & R & ->).
  apply filtered_kept in RF. destruct RF as (K1 & T1).
  destruct skip.
  - run_all. rewrite app_nil_r. auto.
  - apply (pass_on_kept p) in R. destruct R as (K2 & T2).
    split; [eapply kept_trans; eauto|]. apply Forall_app; auto.
Qed.

Lemma deliver_total r p t msg st :
  live p st -> exists f st' tr, deliver r p t msg st = Some (f, st', tr).
Proof.
  intros L. rewrite deliver_unfold.
  destruct (filtered_total r p msg st L) as (b & st1 & t1 & RF).
  rewrite (bind_run _ _ _ _ _ _ RF). destruct b; [simpl; eauto|].
  destruct (pass_on_total t msg st1) as (f & st' & tr & ->). eauto.
Qed.

End Kept.

Section Loop.
Context {E : External} {H : Type} {HH : SseEventHandler H}.
Implicit Types (st : State H) (s : SseSession H) (msg : SseMessage) (t : Ticker).

Lemma DirectMessage_same s msg s' e :
  DirectMessage s msg = Some (s', e) ->
  client_id s' = client_id s /\ user_handler s' = user_handler s /\ closed s' = closed s.
Proof.
  unfold DirectMessage. destruct (closed s) eqn:Hc; [now intros [= <- <-]|].
  destruct (try_send (direct_messages s) msg); [| |discriminate]; now intros [= <- <-].
Qed.

Lemma Close_same s s1 rel :
  Close s = Some (s1, rel) ->
  client_id s1 = client_id s /\ user_handler s1 = user_handler s /\
  buf (direct_messages s1) = buf (direct_messages s).
Proof.
  unfold Close, Close_guard, Close_release, close_chan.
  destruct (closed s); simpl; [now intros [= <- <-]|].
  destruct (chan_closed (done s)); [discriminate|].
  destruct (chan_closed (direct_messages s)); [discriminate|].
  now intros [= <- <-].
Qed.

Lemma recv_wf s v rest :
  session_wf s -> buf (direct_messages s) = v :: rest ->
  session_wf (set_direct_messages s
                {| buf := rest; cap := cap (direct_messages s);
                   chan_closed := chan_closed (direct_messages s) |}).
Proof.
  intros (Hcap & Hlen & Hopen) Hq. unfold session_wf; simpl.
  rewrite Hq in Hlen. simpl in Hlen. split; [assumption|]. split; [lia|assumption].
Qed.

Lemma session_DirectMessage_kept p msg st e st' (tr : list Action) :
  session_DirectMessage p msg st = Some (e, st', tr) -> kept p st st' /\ tr = [].
Proof.
  unfold session_DirectMessage. intros R. apply bind_Some in R.
  destruct R as (a & st1 & t1 & t2 & RL & R & ->).
  apply load_Some in RL. destruct RL as (Hs & -> & ->).
  destruct (DirectMessage a msg) as [[s' e']|] eqn:D; [|discriminate R].
  run_all. destruct (DirectMessage_same _ _ _ _ D) as (I & U & _).
  split; [|reflexivity]. eapply kept_store; eauto.
  - now rewrite U.
  - intros W. eapply DirectMessage_wf; eauto.
Qed.

Lemma session_DirectMessage_total p msg st :
  live p st -> exists e st', session_DirectMessage (H := H) p msg st = Some (e, st', []).
Proof.
  intros (s & Hs & W). unfold session_DirectMessage, bind, load. rewrite Hs.
  destruct (DirectMessage_total s msg W) as (s' & e & ->). simpl. eauto.
Qed.

Lemma session_Close_kept p st u st' (tr : list Action) :
  session_Close p st = Some (u, st', tr) ->
  kept p st st' /\ exists rel, tr = [AClose rel].
Proof.
  unfold session_Close. intros R. apply bind_Some in R.
  destruct R as (a & st1 & t1 & t2 & RL & R & ->).
  apply load_Some in RL. destruct RL as (Hs & -> & ->).
  destruct (Close a) as [[s' rel]|] eqn:C; [|discriminate R].
  run_all. destruct (Close_same _ _ _ C) as (I & U & _).
  split; [|now exists rel]. eapply kept_store; eauto.
  - now rewrite U.
  - intros W. eapply Close_wf; eauto.
Qed.

Lemma session_Close_total p st :
  live p st -> exists st' rel, session_Close (H := H) p st = Some (tt, st', [AClose rel]).
Proof.
  intros (s & Hs & W). unfold session_Close, bind, load. rewrite Hs.
  destruct (Close_total s W) as (s' & rel & ->). simpl. eauto.
Qed.

(** What a call of [Close] releases is told by the flag. *)
Lemma session_Close_run p st s :
  heap st !! p = Some s -> session_wf s ->
  exists st',
    session_Close (H := H) p st
    = Some (tt, st', [AClose (if closed s then [] else [ResDone; ResConsumer; ResDirect])]) /\
    clients st' = clients st.
Proof.
  intros Hs (Hcap & Hlen & Hopen). unfold session_Close, bind, load. rewrite Hs.
  unfold Close, Close_guard, Close_release, close_chan.
  destruct (closed s) eqn:Hc; simpl; [eauto|].
  destruct (Hopen eq_refl) as (-> & ->). simpl. eauto.
Qed.

Lemma deliver_ping_kept p t st f st' (tr : list Action) :
  deliver_ping t st = Some (f, st', tr) -> kept p st st' /\ Forall loop_action tr.
Proof.
  unfold deliver_ping. intros R. apply bind_Some in R.
  destruct R as (st0 & st9 & t8 & t9 & RG & R0 & ->).
  apply get_Some in RG. destruct RG as (-> & -> & ->).
  destruct (Encode (pingMsg (now st))) as [frame|err] eqn:Enc.
  - apply Encode_frame_inl in Enc. apply bind_Some in R0.
    destruct R0 as (ok & st1 & t1 & t2 & RW & R & ->).
    pose proof (Write_kept p _ _ _ _ _ RW) as K1.
    apply Write_Some in RW. destruct RW as (-> & _ & _).
    destruct ok; simpl in R.
    + destruct (is_flusher (resp st)); run_all; split; auto;
        repeat constructor; assumption.
    + run_all. split; auto. repeat constructor; assumption.
  - apply bind_Some in R0. destruct R0 as (u & st1 & t1 & t2 & RW & R & ->).
    pose proof (WriteError_kept p _ _ _ _ _ RW) as K1.
    apply WriteError_Some in RW. destruct RW as (-> & _). run_all.
    split; auto. repeat constructor.
Qed.

Lemma deliver_ping_total t st :
  exists f st' tr, deliver_ping (H := H) t st = Some (f, st', tr).
Proof.
  unfold deliver_ping, bind, get. simpl.
  destruct (Encode (pingMsg (now st))) as [frame|err].
  - unfold Write, bind, get, modify, emit, ret; simpl.
    destruct (broken (resp st)) eqn:Hb; simpl; [eauto 10|].
    destruct (is_flusher (resp st)); simpl; eauto 10.
  - unfold WriteError, bind, modify, emit, ret; simpl. eauto 10.
Qed.

Lemma iterate_kept r p t ev st f st' tr :
  iterate r p t ev st = Some (f, st', tr) -> kept p st st' /\ Forall loop_action tr.
Proof.
  destruct ev as [[msg|]| | | |msg| |d|]; unfold iterate; intros R.
  - now apply deliver_kept in R.
  - run_all. split; [apply kept_refl|constructor].
  - apply bind_Some in R. destruct R as (s & st1 & t1 & t2 & RL & R & ->).
    apply load_Some in RL. destruct RL as (Hs & -> & ->).
    unfold try_recv in R. destruct (buf (direct_messages s)) as [|v rest] eqn:Hq.
    + destruct (chan_closed (direct_messages s)); run_all;
        (split; [apply kept_refl|constructor]).
    + apply bind_Some in R. destruct R as (u & st2 & t3 & t4 & RS & R & ->).
      apply store_Some in RS. destruct RS as (-> & ->).
      apply deliver_kept in R. destruct R as (K & T). split; [|exact T].
      eapply kept_trans; [|exact K].
      eapply kept_store; [exact Hs|reflexivity|reflexivity|].
      intros W. now apply (recv_wf s v rest).
  - apply bind_Some in R. destruct R as (st0 & st1 & t1 & t2 & RG & R & ->).
    apply get_Some in RG. destruct RG as (-> & -> & ->).
    destruct (Ticker_ready t (now st)).
    + now apply (deliver_ping_kept p) in R.
    + run_all. split; [apply kept_refl|constructor].
  - run_all. split; [apply kept_refl|constructor].
  - apply bind_Some in R. destruct R as (e & st1 & t1 & t2 & RD & R & ->).
    apply session_DirectMessage_kept in RD. destruct RD as (K & ->). run_all.
    split; [exact K|constructor].
  - apply bind_Some in R. destruct R as (e & st1 & t1 & t2 & RC & R & ->).
    apply session_Close_kept in RC. destruct RC as (K & rel & ->). run_all.
    split; [exact K|repeat constructor].
  - run_all. split; [apply kept_now|constructor].
  - run_all. split; [now apply kept_resp|constructor].
Qed.

Lemma iterate_total r p t ev st :
  live p st -> exists f st' tr, iterate r p t ev st = Some (f, st', tr).
Proof.
  intros L. destruct ev as [[msg|]| | | |msg| |d|]; unfold iterate.
  - now apply deliver_total.
  - unfold ret; eauto.
  - pose proof L as (s & Hs & W). unfold bind at 1. unfold load at 1. rewrite Hs.
    unfold try_recv. destruct (buf (direct_messages s)) as [|v rest] eqn:Hq.
    + destruct (chan_closed (direct_messages s)); unfold ret; eauto.
    + unfold bind at 1. unfold store, modify.
      edestruct (deliver_total r p t v) as (f & st' & tr & ->); [|eauto].
      exists (set_direct_messages s
                {| buf := rest; cap := cap (direct_messages s);
                   chan_closed := chan_closed (direct_messages s) |}).
      simpl. rewrite lookup_insert_eq. split; [reflexivity|].
      now apply (recv_wf s v rest).
  - unfold bind, get. destruct (Ticker_ready t (now st)).
    + destruct (deliver_ping_total (Ticker_recv t (now st)) st) as (f & st' & tr & ->). eauto.
    + unfold ret. eauto.
  - unfold ret; eauto.
  - destruct (session_DirectMessage_total p msg st L) as (e & st' & R).
    rewrite (bind_run _ _ _ _ _ _ R). unfold ret. eauto.
  - destruct (session_Close_total p st L) as (st' & rel & R).
    rewrite (bind_run _ _ _ _ _ _ R). unfold ret. eauto.
  - unfold bind, modify, ret. eauto.
  - unfold bind, modify, ret. eauto.
Qed.

Lemma multiplex_kept r p sched : forall t st e st' tr,
  multiplex r p t sched st = Some (e, st', tr) -> kept p st st' /\ Forall loop_action tr.
Proof.
  induction sched as [|ev rest IH]; intros t st e st' tr R; simpl in R.
  - run_all. split; [apply kept_refl|constructor].
  - apply bind_Some in R. destruct R as (f & st1 & t1 & t2 & RI & R & ->).
    apply iterate_kept in RI. destruct RI as (K1 & T1).
    destruct f as [t'|].
    + apply IH in R. destruct R as (K2 & T2).
      split; [eapply kept_trans; eauto|apply Forall_app; auto].
    + run_all. rewrite app_nil_r. auto.
Qed.

(** The loop never panics on a session that respects the invariant. *)
Lemma multiplex_total r p sched : forall t st,
  live p st -> exists e st' tr, multiplex r p t sched st = Some (e, st', tr).
Proof.
  induction sched as [|ev rest IH]; intros t st L; simpl.
  - unfold ret; eauto.
  - destruct (iterate_total r p t ev st L) as (f & st1 & t1 & RI).
    rewrite (bind_run _ _ _ _ _ _ RI). destruct f as [t'|].
    + apply iterate_kept in RI. destruct RI as (K & _).
      destruct (IH t' st1 (kept_live _ _ _ K L)) as (e & st' & tr & ->). eauto.
    + unfold ret; eauto.
Qed.

(** A schedule that ends with the cancellation makes the loop return. *)
Lemma multiplex_cancelled r p sched : forall t st e st' tr,
  multiplex r p t (sched ++ [EvDone]) st = Some (e, st', tr) -> e = Returned.
Proof.
  induction sched as [|ev rest IH]; intros t st e st' tr R; simpl in R.
  - unfold bind, ret in R. simpl in R. now injection R as <- _ _.
  - apply bind_Some in R. destruct R as (f & st1 & t1 & t2 & RI & R & ->).
    destruct f as [t'|]; [eapply IH; eauto|]. now run_all.
Qed.

End Loop.

(** ** The filter over whole runs of the loop *)

Section Filter.
Context {E : External} {H : Type} {HH : SseEventHandler H}.
Implicit Types (st : State H) (s : SseSession H) (msg : SseMessage) (t : Ticker).

Lemma vetted_writes_weaken prev (tr : list Action) :
  vetted_writes None tr -> vetted_writes prev tr.
Proof.
  destruct tr as [|a rest]; [trivial|]. simpl. intros (Ha & Hrest). split; [|exact Hrest].
  destruct a; simpl in *; auto. destruct Ha as [(msg & Hp & _)|Hz]; [discriminate|auto].
Qed.

Lemma vetted_writes_app (t1 t2 : list Action) : forall prev,
  vetted_writes prev t1 -> vetted_writes None t2 -> vetted_writes prev (t1 ++ t2).
Proof.
  induction t1 as [|a rest IH]; intros prev H1 H2; simpl.
  - now apply vetted_writes_weaken.
  - destruct H1 as (Ha & Hrest). split; [exact Ha|]. now apply IH.
Qed.

Lemma kept_has_handler p st st' : kept p st st' -> has_handler p st -> has_handler p st'.
Proof.
  intros (_ & _ & _ & _ & S) (s & uh & Hs & Hh).
  destruct (S s Hs) as (s' & Hs' & _ & Hn & _).
  destruct (user_handler s') as [uh'|] eqn:Hh'; [now exists s', uh'|].
  destruct Hn as (Hn & _). rewrite (Hn eq_refl) in Hh. discriminate.
Qed.

Lemma pass_on_vetted t msg st f st' tr :
  pass_on t msg st = Some (f, st', tr) ->
  vetted_writes (Some (AOnMessage msg true)) tr.
Proof.
  unfold pass_on. destruct (Encode msg) as [frame|err] eqn:Enc; intros R.
  - apply bind_Some in R. destruct R as (ok & st1 & t1 & t2 & RW & R & ->).
    apply Write_Some in RW. destruct RW as (-> & _ & _).
    assert (V : vetted (Some (AOnMessage msg true)) (AWrite frame ok))
      by (left; now exists msg).
    destruct ok; simpl in R; run_cases; simpl; auto.
  - run_all. simpl. auto.
Qed.

Lemma deliver_vetted r p t msg st f st' tr :
  has_handler p st ->
  deliver r p t msg st = Some (f, st', tr) -> vetted_writes None tr.
Proof.
  intros (s & uh & Hs & Hh). rewrite deliver_unfold.
  rewrite (bind_run _ _ _ _ _ _ (filtered_handler r p msg st s uh Hs Hh)).
  destruct (OnMessage uh r msg) as [uh' [|]]; simpl.
  - destruct (pass_on t msg _) as [[[f' st1] t1]|] eqn:RP; [|discriminate].
    intros [= <- <- <-]. simpl. split; [exact I|]. eapply pass_on_vetted; eauto.
  - intros [= <- <- <-]. simpl. auto.
Qed.

Lemma deliver_ping_vetted t st f st' (tr : list Action) :
  deliver_ping t st = Some (f, st', tr) -> vetted_writes None tr.
Proof.
  unfold deliver_ping. intros R. apply bind_Some in R.
  destruct R as (st0 & st9 & t8 & t9 & RG & R & ->).
  apply get_Some in RG. destruct RG as (-> & -> & ->).
  destruct (Encode (pingMsg (now st))) as [frame|err] eqn:Enc.
  - apply bind_Some in R. destruct R as (ok & st1 & t1 & t2 & RW & R & ->).
    apply Write_Some in RW. destruct RW as (-> & _ & _).
    assert (V : vetted None (AWrite frame ok))
      by (right; now exists (now st)).
    destruct ok; simpl in R; run_cases; simpl; auto.
  - run_all. simpl. auto.
Qed.

Lemma iterate_vetted r p t round st f st' tr :
  has_handler p st ->
  iterate r p t round st = Some (f, st', tr) -> vetted_writes None tr.
Proof.
  intros Hh. destruct round as [[msg|]| | | |msg| |d|]; unfold iterate; intros R.
  - eapply deliver_vetted; eauto.
  - run_all. exact I.
  - apply bind_Some in R. destruct R as (s & st1 & t1 & t2 & RL & R & ->).
    apply load_Some in RL. destruct RL as (Hs & -> & ->).
    unfold try_recv in R. destruct (buf (direct_messages s)) as [|v rest] eqn:Hq.
    + destruct (chan_closed (direct_messages s)); run_all; exact I.
    + apply bind_Some in R. destruct R as (u & st2 & t3 & t4 & RS & R & ->).
      apply store_Some in RS. destruct RS as (-> & ->). simpl.
      eapply deliver_vetted; [|exact R].
      eapply kept_has_handler; [|exact Hh].
      eapply kept_store; [exact Hs|reflexivity|reflexivity|].
      intros W. now apply (recv_wf s v rest).
  - apply bind_Some in R. destruct R as (st0 & st1 & t1 & t2 & RG & R & ->).
    apply get_Some in RG. destruct RG as (-> & -> & ->).
    destruct (Ticker_ready t (now st)); [|run_all; exact I].
    simpl. eapply deliver_ping_vetted; eauto.
  - run_all. exact I.
  - apply bind_Some in R. destruct R as (e & st1 & t1 & t2 & RD & R & ->).
    apply session_DirectMessage_kept in RD. destruct RD as (_ & ->). run_all. exact I.
  - apply bind_Some in R. destruct R as (e & st1 & t1 & t2 & RC & R & ->).
    apply session_Close_kept in RC. destruct RC as (_ & rel & ->). run_all.
    simpl. auto.
  - run_all. exact I.
  - run_all. exact I.
Qed.

(** Over a whole run of the loop on a session with a handler, every
    write is vetted. *)
Lemma multiplex_vetted r p sched : forall t st e st' tr,
  has_handler p st ->
  multiplex r p t sched st = Some (e, st', tr) -> vetted_writes None tr.
Proof.
  induction sched as [|round rest IH]; intros t st e st' tr Hh R; simpl in R.
  - run_all. exact I.
  - apply bind_Some in R. destruct R as (f & st1 & t1 & t2 & RI & R & ->).
    pose proof (iterate_vetted _ _ _ _ _ _ _ _ Hh RI) as V1.
    apply iterate_kept in RI. destruct RI as (K & _).
    apply vetted_writes_app; [exact V1|].
    destruct f as [t'|]; [|run_all; exact I].
    eapply IH; [|exact R]. eapply kept_has_handler; eauto.
Qed.

(** C2, as the code has it. On a connection with a handler, the
    broadcast case and the direct case hand the received message to
    [OnMessage] before anything is written. When the answer is false
    the round ends there: nothing is written, the loop goes on with its
    ticker unchanged, and nothing ends up changed except the handler's
    own state in this session (the registry, the other sessions and the
    wire are what they were). When the answer is true the hook's call
    is the first action of the round, ahead of the write. The ping case
    writes its message without consulting [OnMessage]. So, over a
    whole run of the loop, whatever is written is the frame of the
    message that [OnMessage] has just let through, or the frame of a
    ping. *)
Theorem OnMessage_filter r p t st s uh msg :
  heap st !! p = Some s -> user_handler s = Some uh ->
  iterate r p t (EvBroadcast (Some msg)) st = deliver r p t msg st /\
  (forall rest, buf (direct_messages s) = msg :: rest ->
     exists s0, s0 = set_direct_messages s
                       {| buf := rest; cap := cap (direct_messages s);
                          chan_closed := chan_closed (direct_messages s) |} /\
       iterate r p t EvDirect st = deliver r p t msg (set_heap (insert p s0) st)) /\
  ((OnMessage uh r msg).2 = false ->
     deliver r p t msg st
     = Some (Continue t,
             set_heap (insert p (set_user_handler s (Some (OnMessage uh r msg).1))) st,
             [AOnMessage msg false])) /\
  ((OnMessage uh r msg).2 = true ->
     exists f st' tr,
       deliver r p t msg st = Some (f, st', AOnMessage msg true :: tr) /\
       forallb (fun a => negb (is_OnMessage a)) tr = true) /\
  (forall f st' tr, iterate r p t EvPing st = Some (f, st', tr) ->
     forallb (fun a => negb (is_OnMessage a)) tr = true) /\
  (forall sched e st' tr, multiplex r p t sched st = Some (e, st', tr) ->
     vetted_writes None tr).
Proof.
  intros Hp Hh. split; [reflexivity|]. split.
  { intros rest Hq. eexists; split; [reflexivity|]. now apply iterate_direct. }
  split; [|split].
  - intros Hno. rewrite deliver_unfold.
    rewrite (bind_run _ _ _ _ _ _ (filtered_handler r p msg st s uh Hp Hh)).
    rewrite Hno. reflexivity.
  - intros Hyes. rewrite deliver_unfold.
    rewrite (bind_run _ _ _ _ _ _ (filtered_handler r p msg st s uh Hp Hh)).
    rewrite Hyes. cbn [negb].
    destruct (pass_on_run t msg
                (set_heap (insert p (set_user_handler s (Some (OnMessage uh r msg).1))) st))
      as (f & st' & tr & -> & Htr & _).
    now exists f, st', tr.
  - split; [intros f st' tr; apply iterate_ping_unfiltered|].
    intros sched e st' tr. apply multiplex_vetted. now exists s, uh.
Qed.

End Filter.

(** ** The stages of the route function *)

Section Stages.
Context {E : External} {H : Type} {HH : SseEventHandler H}.
Implicit Types (st : State H) (s : SseSession H) (msg : SseMessage) (t : Ticker).

Lemma loop_body_action (a : Action) : loop_action a -> body_action a.
Proof. destruct a; simpl; auto. Qed.

Lemma connect_hook_kept r p st b st' tr :
  connect_hook r p st = Some (b, st', tr) -> kept p st st' /\ Forall body_action tr.
Proof.
  unfold connect_hook. intros R. apply bind_Some in R.
  destruct R as (s & st1 & t1 & t2 & RL & R & ->).
  apply load_Some in RL. destruct RL as (Hs & -> & ->).
  destruct (user_handler s) as [uh|] eqn:Hh.
  - destruct (OnConnect uh r) as [uh' err].
    assert (K : kept p st (set_heap (insert p (set_user_handler s (Some uh'))) st)).
    { eapply kept_store; [exact Hs|reflexivity| |auto]. simpl. rewrite Hh.
      split; discriminate. }
    destruct err as [e|].
    + apply bind_Some in R. destruct R as (u1 & st2 & t3 & t4 & R1 & R & ->).
      apply store_Some in R1. destruct R1 as (-> & ->).
      apply bind_Some in R. destruct R as (u2 & st3 & t5 & t6 & R2 & R & ->).
      apply emit_Some in R2. destruct R2 as (-> & ->).
      apply bind_Some in R. destruct R as (u3 & st4 & t7 & t8 & R3 & R & ->).
      pose proof (WriteError_kept p _ _ _ _ _ R3) as K2.
      apply WriteError_Some in R3. destruct R3 as (-> & _). run_all.
      split; [eapply kept_trans; eauto|]. repeat constructor.
    + run_all. split; [exact K|]. repeat constructor.
  - run_all. split; [apply kept_refl|constructor].
Qed.

Lemma connect_hook_total r p st :
  live p st -> exists b st' tr, connect_hook r p st = Some (b, st', tr).
Proof.
  intros (s & Hs & W). unfold connect_hook, bind, load. rewrite Hs. simpl.
  destruct (user_handler s) as [uh|]; [|unfold ret; eauto].
  destruct (OnConnect uh r) as [uh' [e|]]; simpl; eauto.
Qed.

Lemma connected_kept r p sched st e st' tr :
  connected r p sched st = Some (e, st', tr) -> kept p st st' /\ Forall body_action tr.
Proof.
  unfold connected. intros R. apply bind_Some in R.
  destruct R as (s & st1 & t1 & t2 & RL & R & ->).
  apply load_Some in RL. destruct RL as (Hs & -> & ->).
  apply bind_Some in R. destruct R as (e1 & st2 & t3 & t4 & RD & R & ->).
  apply session_DirectMessage_kept in RD. destruct RD as (K1 & ->).
  apply bind_Some in R. destruct R as (failed & st3 & t5 & t6 & RH & R & ->).
  apply connect_hook_kept in RH. destruct RH as (K2 & T2).
  pose proof (kept_trans _ _ _ _ K1 K2) as K12. simpl.
  destruct failed.
  - run_all. rewrite app_nil_r. auto.
  - apply bind_Some in R. destruct R as (st0 & st4 & t7 & t8 & RG & R & ->).
    apply get_Some in RG. destruct RG as (-> & -> & ->).
    apply bind_Some in R. destruct R as (x & st5 & t9 & t10 & RM & R & ->).
    apply multiplex_kept in RM. destruct RM as (K3 & T3).
    assert (T3' : Forall body_action t9).
    { eapply Forall_impl; [exact T3|]. apply loop_body_action. }
    split; [eapply kept_trans; [exact K12|]|].
    + destruct x; run_all; exact K3.
    + simpl. apply Forall_app. split; [exact T2|].
      destruct x; run_all; rewrite ?app_nil_r; [|exact T3'].
      apply Forall_app. split; [exact T3'|repeat constructor].
Qed.

Lemma connected_total r p sched st :
  live p st -> exists e st' tr, connected r p sched st = Some (e, st', tr).
Proof.
  intros L. pose proof L as (s & Hs & W). unfold connected.
  unfold bind at 1. unfold load at 1. rewrite Hs.
  destruct (session_DirectMessage_total p (onConnectMsg (client_id s)) st L)
    as (e1 & st1 & RD).
  rewrite (bind_run _ _ _ _ _ _ RD).
  apply session_DirectMessage_kept in RD. destruct RD as (K1 & _).
  pose proof (kept_live _ _ _ K1 L) as L1.
  destruct (connect_hook_total r p st1 L1) as (b & st2 & t2 & RH).
  rewrite (bind_run _ _ _ _ _ _ RH).
  apply connect_hook_kept in RH. destruct RH as (K2 & _).
  pose proof (kept_live _ _ _ K2 L1) as L2.
  destruct b; [unfold ret; eauto|].
  unfold bind at 1. unfold get at 1.
  destruct (multiplex_total r p sched (NewTicker pingInterval (now st2)) st2 L2)
    as (x & st3 & t3 & RM).
  rewrite (bind_run _ _ _ _ _ _ RM). destruct x; simpl; eauto.
Qed.

Lemma connected_cancelled r p sched st e st' tr :
  connected r p (sched ++ [EvDone]) st = Some (e, st', tr) -> e = Returned.
Proof.
  unfold connected. intros R. apply bind_Some in R.
  destruct R as (s & st1 & t1 & t2 & RL & R & ->).
  apply bind_Some in R. destruct R as (e1 & st2 & t3 & t4 & RD & R & ->).
  apply bind_Some in R. destruct R as (failed & st3 & t5 & t6 & RH & R & ->).
  destruct failed; [now run_all|].
  apply bind_Some in R. destruct R as (st0 & st4 & t7 & t8 & RG & R & ->).
  apply bind_Some in R. destruct R as (x & st5 & t9 & t10 & RM & R & ->).
  apply multiplex_cancelled in RM. subst x. now run_all.
Qed.

(** The deferred function, on a session with a handler. *)
Lemma disconnect_handler r p st s uh :
  heap st !! p = Some s -> user_handler s = Some uh ->
  disconnect r p st
  = Some (tt,
          set_heap (insert p (set_user_handler s (Some (OnDisconnect uh r))))
            (set_clients (delete (client_id s)) st),
          [AUnregister (client_id s); AOnDisconnect]).
Proof.
  intros Hs Hh. unfold disconnect, bind, load, store, modify, emit. rewrite Hs. simpl.
  rewrite Hs. simpl. rewrite Hh. reflexivity.
Qed.

Lemma disconnect_nil r p st s :
  heap st !! p = Some s -> user_handler s = None ->
  disconnect r p st
  = Some (tt, set_clients (delete (client_id s)) st, [AUnregister (client_id s)]).
Proof.
  intros Hs Hh. unfold disconnect, bind, load, store, modify, emit. rewrite Hs. simpl.
  rewrite Hs. simpl. rewrite Hh. reflexivity.
Qed.

Lemma set_heap_twice p (s1 s2 : SseSession H) st :
  set_heap (insert p s2) (set_heap (insert p s1) st) = set_heap (insert p s2) st.
Proof. unfold set_heap. simpl. f_equal. apply insert_insert_eq. Qed.

(** The initialisation of the handler that the factory makes. *)
Lemma initialize_hook_handler r p st s uh :
  heap st !! p = Some s -> factory st = Some (Some uh) ->
  initialize_hook r p st
  = let st1 := set_heap (insert p (set_user_handler s
                                     (Some (OnInitialize uh r (client_id s)).1))) st in
    match (OnInitialize uh r (client_id s)).2 with
    | Some e => Some (true, set_resp (error_response e) st1,
                      [AOnInitialize (Some e); AWriteError e])
    | None => Some (false, st1, [AOnInitialize None])
    end.
Proof.
  intros Hs Hf. unfold initialize_hook, bind, get, load, store, modify, emit. rewrite Hf.
  rewrite Hs. simpl. destruct (OnInitialize uh r (client_id s)) as [uh' err]. simpl.
  rewrite lookup_insert_eq. simpl.
  replace (set_heap _ (set_heap _ st))
    with (set_heap (insert p (set_user_handler s (Some uh'))) st)
    by (symmetry; apply set_heap_twice).
  destruct err as [e|]; reflexivity.
Qed.

Lemma initialize_hook_none r p st :
  factory st = None \/ factory st = Some None ->
  initialize_hook r p st = Some (false, st, []).
Proof.
  unfold initialize_hook, bind, get. intros [-> | ->]; reflexivity.
Qed.

Lemma serveSSE_opens r id sched :
  opens_stream r -> serveSSE r id sched = openStream r id sched.
Proof.
  unfold serveSSE, opens_stream. intros [-> | ->]; [reflexivity|].
  now rewrite andb_false_r.
Qed.

(** The frame around [initialized]: the opening before it, and the
    deferred [session.Close()] and [cancel()] after it has returned. *)
Lemma openStream_unfold r id sched st :
  let p := fresh (dom (heap st)) in
  let st1 := set_clients (insert id p) (set_heap (insert p (new_session id)) st) in
  openStream r id sched st
  = match initialized r p sched st1 with
    | Some (Returned, st2, t2) =>
        match session_Close p st2 with
        | Some (_, st3, t3) => Some (Returned, st3, opening id ++ t2 ++ t3 ++ [ACancel])
        | None => None
        end
    | Some (Blocked, st2, t2) => Some (Blocked, st2, opening id ++ t2)
    | None => None
    end.
Proof.
  intros p st1. unfold openStream, Header_Set, bind at 1 2 3 4 5 6 7 8, emit, alloc, modify.
  fold p. fold st1. simpl.
  destruct (initialized r p sched st1) as [[[[] st2] t2]|]; simpl; [| |reflexivity].
  - unfold bind, emit, ret. destruct (session_Close p st2) as [[[u st3] t3]|]; simpl;
      reflexivity.
  - now rewrite app_nil_r.
Qed.

Lemma fresh_session_live id p st :
  heap st !! p = Some (new_session (H := H) id) -> live p st.
Proof. intros Hs. eexists. split; [exact Hs|apply new_session_wf]. Qed.

End Stages.

(** ** A session that nobody else closes stays open *)

Section StaysOpen.
Context {E : External} {H : Type} {HH : SseEventHandler H}.
Implicit Types (st : State H) (s : SseSession H) (msg : SseMessage) (t : Ticker).

Lemma stays_open_refl p st : stays_open p st st.
Proof. intros s Hs Hc. eauto. Qed.

Lemma stays_open_trans p st1 st2 st3 :
  stays_open p st1 st2 -> stays_open p st2 st3 -> stays_open p st1 st3.
Proof.
  intros O1 O2 s Hs Hc. destruct (O1 s Hs Hc) as (s' & Hs' & Hc'). eauto.
Qed.

Lemma stays_open_heap p st st' : heap st' = heap st -> stays_open p st st'.
Proof. intros Hh s Hs Hc. rewrite Hh. eauto. Qed.

Lemma stays_open_store p st s s' :
  heap st !! p = Some s -> closed s' = closed s ->
  stays_open p st (set_heap (insert p s') st).
Proof.
  intros Hs Hc s0 Hs0 Hc0. rewrite Hs in Hs0. injection Hs0 as <-.
  exists s'. simpl. rewrite lookup_insert_eq. split; [reflexivity|congruence].
Qed.

Lemma filtered_open r p msg st skip st' tr :
  filtered r p msg st = Some (skip, st', tr) ->
  stays_open p st st' /\ forallb (fun a => negb (is_Close a)) tr = true.
Proof.
  unfold filtered. intros R. apply bind_Some in R.
  destruct R as (s & st1 & t1 & t2 & RL & R & ->).
  apply load_Some in RL. destruct RL as (Hs & -> & ->).
  destruct (user_handler s) as [uh|].
  - destruct (OnMessage uh r msg) as [uh' pass]. run_all.
    split; [|reflexivity]. now apply (stays_open_store p st s).
  - run_all. split; [apply stays_open_refl|reflexivity].
Qed.

Lemma pass_on_open p t msg st f st' tr :
  pass_on t msg st = Some (f, st', tr) ->
  stays_open p st st' /\ forallb (fun a => negb (is_Close a)) tr = true.
Proof.
  intros R. destruct (pass_on_run t msg st) as (f0 & st0 & tr0 & R0 & _ & Hh & _).
  split; [apply stays_open_heap; congruence|].
  revert R. clear. unfold pass_on. destruct (Encode msg) as [frame|err]; intros R;
    run_cases; reflexivity.
Qed.

Lemma deliver_open r p t msg st f st' tr :
  deliver r p t msg st = Some (f, st', tr) ->
  stays_open p st st' /\ forallb (fun a => negb (is_Close a)) tr = true.
Proof.
  rewrite deliver_unfold. intros R. apply bind_Some in R.
  destruct R as (skip & st1 & t1 & t2 & RF & R & ->).
  apply filtered_open in RF. destruct RF as (O1 & Q1). rewrite forallb_app, Q1.
  destruct skip; [run_all; auto|].
  apply (pass_on_open p) in R. destruct R as (O2 & Q2).
  split; [eapply stays_open_trans; eauto|exact Q2].
Qed.

Lemma deliver_ping_open p t st f st' (tr : list Action) :
  deliver_ping t st = Some (f, st', tr) ->
  stays_open p st st' /\ forallb (fun a => negb (is_Close a)) tr = true.
Proof.
  unfold deliver_ping, Write, WriteError, bind, get, modify, emit, ret. simpl.
  destruct (Encode (pingMsg (now st))) as [frame|err]; simpl;
    [destruct (broken (resp st)); simpl; [|destruct (is_flusher (resp st)); simpl]|];
    intros [= <- <- <-]; (split; [apply stays_open_heap; reflexivity|reflexivity]).
Qed.

Lemma iterate_open r p t round st f st' tr :
  round <> EnvClose ->
  iterate r p t round st = Some (f, st', tr) ->
  stays_open p st st' /\ forallb (fun a => negb (is_Close a)) tr = true.
Proof.
  intros Hne. destruct round as [[msg|]| | | |msg| |d|]; unfold iterate; intros R;
    try contradiction.
  - now apply deliver_open in R.
  - run_all. split; [apply stays_open_refl|reflexivity].
  - apply bind_Some in R. destruct R as (s & st1 & t1 & t2 & RL & R & ->).
    apply load_Some in RL. destruct RL as (Hs & -> & ->).
    unfold try_recv in R. destruct (buf (direct_messages s)) as [|v rest].
    + destruct (chan_closed (direct_messages s)); run_all;
        (split; [apply stays_open_refl|reflexivity]).
    + apply bind_Some in R. destruct R as (u & st2 & t3 & t4 & RS & R & ->).
      apply store_Some in RS. destruct RS as (-> & ->).
      apply deliver_open in R. destruct R as (O & Q). split; [|exact Q].
      eapply stays_open_trans; [|exact O]. now apply (stays_open_store p st s).
  - apply bind_Some in R. destruct R as (st0 & st1 & t1 & t2 & RG & R & ->).
    apply get_Some in RG. destruct RG as (-> & -> & ->).
    destruct (Ticker_ready t (now st)).
    + now apply (deliver_ping_open p) in R.
    + run_all. split; [apply stays_open_refl|reflexivity].
  - run_all. split; [apply stays_open_refl|reflexivity].
  - apply bind_Some in R. destruct R as (e & st1 & t1 & t2 & RD & R & ->).
    unfold session_DirectMessage in RD. apply bind_Some in RD.
    destruct RD as (s & st2 & t3 & t4 & RL & RD & ->).
    apply load_Some in RL. destruct RL as (Hs & -> & ->).
    destruct (DirectMessage s msg) as [[s' e']|] eqn:D; [|discriminate RD].
    destruct (DirectMessage_same _ _ _ _ D) as (_ & _ & Hc). run_all.
    split; [|reflexivity]. now apply (stays_open_store p st s).
  - run_all. split; [apply stays_open_heap|]; reflexivity.
  - run_all. split; [apply stays_open_heap|]; reflexivity.
Qed.

Lemma multiplex_open r p sched : forall t st e st' tr,
  no_close sched = true ->
  multiplex r p t sched st = Some (e, st', tr) ->
  stays_open p st st' /\ forallb (fun a => negb (is_Close a)) tr = true.
Proof.
  induction sched as [|round rest IH]; intros t st e st' tr Hn R; simpl in R.
  - run_all. split; [apply stays_open_refl|reflexivity].
  - simpl in Hn. apply andb_true_iff in Hn. destruct Hn as (Hr & Hn).
    apply bind_Some in R. destruct R as (f & st1 & t1 & t2 & RI & R & ->).
    apply iterate_open in RI; [|intros ->; discriminate]. destruct RI as (O1 & Q1).
    rewrite forallb_app, Q1. destruct f as [t'|].
    + apply IH in R; [|exact Hn]. destruct R as (O2 & Q2).
      split; [eapply stays_open_trans; eauto|exact Q2].
    + run_all. auto.
Qed.

Lemma connected_open r p sched st e st' tr :
  no_close sched = true ->
  connected r p sched st = Some (e, st', tr) ->
  stays_open p st st' /\ forallb (fun a => negb (is_Close a)) tr = true.
Proof.
  unfold connected. intros Hn R. apply bind_Some in R.
  destruct R as (s & st1 & t1 & t2 & RL & R & ->).
  apply load_Some in RL. destruct RL as (Hs & -> & ->).
  apply bind_Some in R. destruct R as (e1 & st2 & t3 & t4 & RD & R & ->).
  assert (O1 : stays_open p st st2 /\ t3 = []).
  { unfold session_DirectMessage in RD. apply bind_Some in RD.
    destruct RD as (s0 & st3 & t5 & t6 & RL & RD & ->).
    apply load_Some in RL. destruct RL as (Hs0 & -> & ->).
    destruct (DirectMessage s0 (onConnectMsg (client_id s))) as [[s' e']|] eqn:D;
      [|discriminate RD].
    destruct (DirectMessage_same _ _ _ _ D) as (_ & _ & Hc). run_all.
    split; [|reflexivity]. now apply (stays_open_store p st s0). }
  destruct O1 as (O1 & ->).
  apply bind_Some in R. destruct R as (failed & st3 & t5 & t6 & RH & R & ->).
  assert (O2 : stays_open p st2 st3 /\ forallb (fun a => negb (is_Close a)) t5 = true).
  { unfold connect_hook in RH. apply bind_Some in RH.
    destruct RH as (s0 & st4 & t7 & t8 & RL & RH & ->).
    apply load_Some in RL. destruct RL as (Hs0 & -> & ->).
    destruct (user_handler s0) as [uh|].
    - destruct (OnConnect uh r) as [uh' [err|]]; run_all;
        (split; [|reflexivity]).
      + apply (stays_open_trans p st2
                 (set_heap (insert p (set_user_handler s0 (Some uh'))) st2));
          [now apply (stays_open_store p st2 s0)|].
        apply stays_open_heap. assumption.
      + now apply (stays_open_store p st2 s0).
    - run_all. split; [apply stays_open_refl|reflexivity]. }
  destruct O2 as (O2 & Q2). simpl. rewrite forallb_app, Q2.
  pose proof (stays_open_trans _ _ _ _ O1 O2) as O12.
  destruct failed; [run_all; auto|].
  apply bind_Some in R. destruct R as (st0 & st4 & t7 & t8 & RG & R & ->).
  apply get_Some in RG. destruct RG as (-> & -> & ->).
  apply bind_Some in R. destruct R as (x & st5 & t9 & t10 & RM & R & ->).
  apply multiplex_open in RM; [|exact Hn]. destruct RM as (O3 & Q3).
  simpl. rewrite forallb_app, Q3.
  split; [eapply stays_open_trans; [exact O12|]|].
  - destruct x; run_all; exact O3.
  - destruct x; run_all; reflexivity.
Qed.

End StaysOpen.

(** ** Whole runs of the route function *)

Section Streams.
Context {E : External} {H : Type} {HH : SseEventHandler H}.
Implicit Types (st : State H) (s : SseSession H) (msg : SseMessage) (t : Ticker).

(** A run that opens a stream with a handler whose [OnInitialize]
    succeeds: the opening, the initialisation, [connected], and on
    return the deferred calls in the order they run. *)
Lemma stream_run r id st uh :
  opens_stream r -> factory st = Some (Some uh) ->
  (OnInitialize uh r id).2 = None ->
  let p := fresh (dom (heap st)) in
  exists st1 s1,
    heap st1 !! p = Some s1 /\ session_wf s1 /\ client_id s1 = id /\
    user_handler s1 <> None /\ closed s1 = false /\
    clients st1 = <[id := p]> (clients st) /\
    forall sched,
      serveSSE r id sched st
      = match connected r p sched st1 with
        | Some (Returned, st2, t2) =>
            match disconnect r p st2 with
            | Some (_, st3, t3) =>
                match session_Close p st3 with
                | Some (_, st4, t4) =>
                    Some (Returned, st4,
                          (opening id ++ AOnInitialize None :: t2) ++ t3 ++ t4 ++ [ACancel])
                | None => None
                end
            | None => None
            end
        | Some (Blocked, st2, t2) =>
            Some (Blocked, st2, opening id ++ AOnInitialize None :: t2)
        | None => None
        end.
Proof.
  intros Hopen Hf Hok p.
  set (st0 := set_clients (insert id p) (set_heap (insert p (new_session id)) st)).
  set (s1 := set_user_handler (new_session id) (Some (OnInitialize uh r id).1)).
  exists (set_heap (insert p s1) st0), s1.
  split; [simpl; apply lookup_insert_eq|].
  split; [apply set_user_handler_wf, new_session_wf|].
  split; [reflexivity|]. split; [discriminate|]. split; [reflexivity|].
  split; [reflexivity|].
  intros sched. rewrite (serveSSE_opens _ _ _ Hopen), openStream_unfold.
  fold p. fold st0.
  assert (Hinit : initialize_hook r p st0
                  = Some (false, set_heap (insert p s1) st0, [AOnInitialize None])).
  { rewrite (initialize_hook_handler r p st0 (new_session id) uh);
      [|simpl; apply lookup_insert_eq|exact Hf].
    simpl. now rewrite Hok. }
  unfold initialized. rewrite (bind_run _ _ _ _ _ _ Hinit). cbv iota.
  unfold bind at 1.
  destruct (connected r p sched (set_heap (insert p s1) st0)) as [[[[] st2] t2]|];
    [| |reflexivity].
  - unfold bind at 1. destruct (disconnect r p st2) as [[[u st3] t3]|]; [|reflexivity].
    unfold ret. simpl.
    destruct (session_Close p st3) as [[[u' st4] t4]|]; [|reflexivity].
    rewrite app_nil_r. now rewrite <- !app_assoc.
  - unfold ret. simpl. now rewrite app_nil_r.
Qed.

Lemma body_not_disconnect (tr : list Action) :
  Forall body_action tr -> forallb (fun a => negb (is_OnDisconnect a)) tr = true.
Proof.
  induction 1 as [|a tr Ha _ IH]; [reflexivity|]. simpl. rewrite IH.
  destruct a; simpl in *; tauto.
Qed.

(** C3, as the code has it. On a connection with a handler whose
    [OnInitialize] succeeded, the handler function never panics, it
    returns once the cancellation is observed, and whenever it returns,
    by whatever path ([OnConnect] error, cancellation, failed write,
    failed encoding, closed broadcast or direct queue), [OnDisconnect]
    has run exactly once: right after the registry entry was deleted,
    and before the deferred [Close] and [cancel] run. Unless another
    goroutine closed the session in the meantime, that deferred [Close]
    is the first one, and it is the one that releases the resources.
    The registry has no entry for the client afterwards. *)
Theorem OnDisconnect_once r id sched st uh :
  opens_stream r -> factory st = Some (Some uh) ->
  (OnInitialize uh r id).2 = None ->
  (exists e st' tr, serveSSE r id sched st = Some (e, st', tr)) /\
  (exists st' tr, serveSSE r id (sched ++ [EvDone]) st = Some (Returned, st', tr)) /\
  (forall st' tr,
      serveSSE r id sched st = Some (Returned, st', tr) ->
      exists pre rel,
        tr = pre ++ [AUnregister id; AOnDisconnect; AClose rel; ACancel] /\
        forallb (fun a => negb (is_OnDisconnect a)) pre = true /\
        clients st' !! id = None /\
        (no_close sched = true ->
         rel = [ResDone; ResConsumer; ResDirect] /\
         forallb (fun a => negb (is_Close a)) pre = true)).
Proof.
  intros Hopen Hf Hok.
  destruct (stream_run r id st uh Hopen Hf Hok)
    as (st1 & s1 & Hs1 & W1 & I1 & U1 & O1 & C1 & Hrun).
  set (p := fresh (dom (heap st))) in *.
  assert (L1 : live p st1) by (exists s1; auto).
  assert (Hret : forall sch st2 (tr2 : list Action),
             connected r p sch st1 = Some (Returned, st2, tr2) ->
             exists st4 rel,
               serveSSE r id sch st
               = Some (Returned, st4,
                       (opening id ++ AOnInitialize None :: tr2)
                       ++ [AUnregister id; AOnDisconnect; AClose rel; ACancel]) /\
               clients st4 !! id = None /\ Forall body_action tr2 /\
               (no_close sch = true ->
                rel = [ResDone; ResConsumer; ResDirect] /\
                forallb (fun a => negb (is_Close a)) tr2 = true)).
  { intros sch st2 tr2 RC. rewrite Hrun, RC.
    pose proof (connected_kept _ _ _ _ _ _ _ RC) as (K & T).
    destruct K as (KC & _ & _ & _ & KS).
    destruct (KS s1 Hs1) as (s2 & Hs2 & I2 & U2 & W2).
    destruct (user_handler s2) as [uh2|] eqn:Hh2; [|tauto].
    rewrite (disconnect_handler r p st2 s2 uh2 Hs2 Hh2).
    set (s3 := set_user_handler s2 (Some (OnDisconnect uh2 r))).
    set (st3 := set_heap _ _).
    assert (Hs3 : heap st3 !! p = Some s3) by apply lookup_insert_eq.
    destruct (session_Close_run p st3 s3 Hs3) as (st4 & RX & KC4);
      [apply set_user_handler_wf; auto|].
    rewrite RX. exists st4. eexists. split; [rewrite I2, I1; reflexivity|].
    split; [|split; [exact T|]].
    - rewrite KC4. subst st3. simpl. rewrite I2, I1. apply lookup_delete_eq.
    - intros Hn. apply connected_open in RC; [|exact Hn]. destruct RC as (O & Q).
      destruct (O s1 Hs1 O1) as (s2' & Hs2' & Hc2). rewrite Hs2 in Hs2'.
      injection Hs2' as <-. split; [|exact Q].
      change (closed s3) with (closed s2). now rewrite Hc2. }
  split; [|split].
  - rewrite Hrun. destruct (connected_total r p sched st1 L1) as ([] & st2 & tr2 & RC).
    + destruct (Hret _ _ _ RC) as (st4 & rel & R & _). rewrite Hrun in R. eauto.
    + rewrite RC. eauto.
  - destruct (connected_total r p (sched ++ [EvDone]) st1 L1) as (e & st2 & tr2 & RC).
    pose proof (connected_cancelled _ _ _ _ _ _ _ RC) as ->.
    destruct (Hret _ _ _ RC) as (st4 & rel & R & _). eauto.
  - intros st' tr R.
    destruct (connected r p sched st1) as [[[[] st2] tr2]|] eqn:RC.
    + destruct (Hret _ _ _ RC) as (st4 & rel & R' & Hc & T & Hrel).
      rewrite R' in R. injection R as <- <-.
      exists (opening id ++ AOnInitialize None :: tr2), rel.
      split; [reflexivity|]. split; [|split; [exact Hc|]].
      * rewrite forallb_app. simpl. now apply body_not_disconnect.
      * intros Hn. destruct (Hrel Hn) as (-> & Q). split; [reflexivity|].
        rewrite forallb_app. simpl. exact Q.
    + rewrite Hrun, RC in R. discriminate.
    + rewrite Hrun, RC in R. discriminate.
Qed.

End Streams.

Section InitFailure.
Context {E : External} {H : Type} {HH : SseEventHandler H}.

(** C1, what the code does. When [OnInitialize] fails, the handler
    function reports the error and returns before anything of the
    handshake is queued or written, running only the deferred [Close]
    and [cancel]: the deferred function that deletes the registry entry
    has not been deferred yet. The registry still maps the client id to
    the session, now closed, with its handler attached and its direct
    queue empty. *)
Theorem init_failure_stays_registered r id sched (st : State H) uh e :
  opens_stream r -> factory st = Some (Some uh) ->
  (OnInitialize uh r id).2 = Some e ->
  exists st' s,
    serveSSE r id sched st
    = Some (Returned, st',
            opening id ++ [AOnInitialize (Some e); AWriteError e;
                           AClose [ResDone; ResConsumer; ResDirect]; ACancel]) /\
    Find st' id = Some s /\ closed s = true /\
    user_handler s = Some (OnInitialize uh r id).1 /\
    buf (direct_messages s) = [].
Proof.
  intros Hopen Hf Hfail.
  rewrite (serveSSE_opens _ _ _ Hopen), openStream_unfold.
  set (p := fresh (dom (heap st))).
  set (st0 := set_clients (insert id p) (set_heap (insert p (new_session id)) st)).
  set (s1 := set_user_handler (new_session id) (Some (OnInitialize uh r id).1)).
  assert (Hinit : initialize_hook r p st0
                  = Some (true, set_resp (error_response e) (set_heap (insert p s1) st0),
                          [AOnInitialize (Some e); AWriteError e])).
  { rewrite (initialize_hook_handler r p st0 (new_session id) uh);
      [|simpl; apply lookup_insert_eq|exact Hf].
    simpl. now rewrite Hfail. }
  unfold initialized. rewrite (bind_run _ _ _ _ _ _ Hinit). cbv iota.
  unfold ret at 1. unfold session_Close, bind at 1, load at 1. simpl heap.
  rewrite lookup_insert_eq. simpl.
  eexists. eexists. split; [reflexivity|]. unfold Find. simpl.
  rewrite lookup_insert_eq. rewrite lookup_insert_eq. auto.
Qed.

End InitFailure.

Lemma init_failure_stays_registered_witness :
  opens_stream Demo.stream_request /\
  exists st' s,
    Demo.run (Demo.script (Some "init failed") None true) Demo.writer [EvDone]
    = Some (Returned, st',
            opening "c1" ++ [AOnInitialize (Some "init failed"); AWriteError "init failed";
                             AClose [ResDone; ResConsumer; ResDirect]; ACancel]) /\
    Find st' "c1" = Some s /\ closed s = true /\
    user_handler s = Some (Demo.called (Demo.script (Some "init failed") None true)) /\
    buf (direct_messages s) = [].
Proof.
  assert (O : opens_stream Demo.stream_request) by (left; reflexivity).
  split; [exact O|].
  apply (init_failure_stays_registered (E := Demo.external) (HH := Demo.handler)
           Demo.stream_request "c1" [EvDone]
           (Demo.server (Some (Some (Demo.script (Some "init failed") None true)))
              Demo.writer)
           (Demo.script (Some "init failed") None true) "init failed" O);
    reflexivity.
Defined.

(** The claim C3 as the specification has it fails on two runs: after a
    cancellation [OnDisconnect] runs while the session is still open,
    the resources being released by the [Close] that follows it; and
    after a failed [OnInitialize] it does not run at all. *)
Lemma OnDisconnect_precedes_release :
  trace_of (Demo.run (Demo.script None None true) Demo.writer [EvDone])
  = opening "c1" ++ [AOnInitialize None; AOnConnect None; ATickerStop;
                     AUnregister "c1"; AOnDisconnect;
                     AClose [ResDone; ResConsumer; ResDirect]; ACancel] /\
  disconnect_after_release false
    (trace_of (Demo.run (Demo.script None None true) Demo.writer [EvDone])) = false /\
  length (filter (fun a => is_OnDisconnect a = true)
            (trace_of (Demo.run (Demo.script (Some "init failed") None true)
                         Demo.writer [EvDone]))) = 0%nat.
Proof. vm_compute. repeat split. Qed.

Lemma OnDisconnect_once_witness :
  opens_stream Demo.stream_request /\
  exists st' tr,
    Demo.run (Demo.script None None true) Demo.writer ([EvBroadcast (Some Demo.msg_x)] ++ [EvDone])
    = Some (Returned, st', tr).
Proof.
  assert (O : opens_stream Demo.stream_request) by (left; reflexivity).
  split; [exact O|].
  apply (OnDisconnect_once (E := Demo.external) (HH := Demo.handler)
           Demo.stream_request "c1" [EvBroadcast (Some Demo.msg_x)]
           (Demo.server (Some (Some (Demo.script None None true))) Demo.writer)
           (Demo.script None None true) O); reflexivity.
Defined.

(** ** The wire format *)

Section Frames.
Context {E : External} {H : Type} {HH : SseEventHandler H}.
Implicit Types (st : State H) (s : SseSession H) (msg : SseMessage).

Lemma body_frame_action (a : Action) : body_action a -> frame_action a.
Proof. destruct a; simpl; auto. Qed.

Lemma pass_on_writes (t : Ticker) msg st f st' tr b ok :
  pass_on t msg st = Some (f, st', tr) -> In (AWrite b ok) tr -> Encode msg = inl b.
Proof.
  unfold pass_on. destruct (Encode msg) as [frame|err]; intros R Hin; run_cases;
    simpl in Hin; intuition (try discriminate); congruence.
Qed.

Lemma filtered_no_write r p msg st skip st' tr b ok :
  filtered r p msg st = Some (skip, st', tr) -> ~ In (AWrite b ok) tr.
Proof.
  unfold filtered. intros R Hin; run_cases; simpl in Hin;
    intuition (try discriminate).
Qed.

Lemma deliver_writes r p (t : Ticker) msg st f st' tr b ok :
  deliver r p t msg st = Some (f, st', tr) -> In (AWrite b ok) tr -> Encode msg = inl b.
Proof.
  rewrite deliver_unfold. intros R Hin. apply bind_Some in R.
  destruct R as (skip & st1 & t1 & t2 & RF & R & ->).
  apply in_app_or in Hin. destruct Hin as [Hin|Hin].
  - now apply (filtered_no_write _ _ _ _ _ _ _ _ _ RF) in Hin.
  - destruct skip; [run_all; destruct Hin|]. eapply pass_on_writes; eauto.
Qed.

Lemma deliver_ping_writes (t : Ticker) st f st' (tr : list Action) b ok :
  deliver_ping t st = Some (f, st', tr) -> In (AWrite b ok) tr ->
  Encode (pingMsg (now st)) = inl b.
Proof.
  unfold deliver_ping. intros R Hin. apply bind_Some in R.
  destruct R as (st0 & st9 & t8 & t9 & RG & R & ->).
  apply get_Some in RG. destruct RG as (-> & -> & ->).
  destruct (Encode (pingMsg (now st))) as [frame|err]; run_cases;
    simpl in Hin; intuition (try discriminate); congruence.
Qed.

(** What a round writes is the encoding of the message it received. *)
Lemma iterate_writes r p (t : Ticker) round st f st' tr b ok :
  iterate r p t round st = Some (f, st', tr) -> In (AWrite b ok) tr ->
  exists msg, received round p st = Some msg /\ Encode msg = inl b.
Proof.
  destruct round as [[msg|]| | | |msg| |d|]; unfold iterate; intros R Hin.
  - exists msg. split; [reflexivity|]. eapply deliver_writes; eauto.
  - run_all. destruct Hin.
  - apply bind_Some in R. destruct R as (s & st1 & t1 & t2 & RL & R & ->).
    apply load_Some in RL. destruct RL as (Hs & -> & ->).
    unfold received. rewrite Hs. unfold try_recv in R.
    destruct (buf (direct_messages s)) as [|v rest].
    + destruct (chan_closed (direct_messages s)); run_all; destruct Hin.
    + apply bind_Some in R. destruct R as (u & st2 & t3 & t4 & RS & R & ->).
      apply store_Some in RS. destruct RS as (-> & ->).
      exists v. split; [reflexivity|]. eapply deliver_writes; eauto.
  - apply bind_Some in R. destruct R as (st0 & st1 & t1 & t2 & RG & R & ->).
    apply get_Some in RG. destruct RG as (-> & -> & ->).
    destruct (Ticker_ready t (now st)); [|run_all; destruct Hin].
    exists (pingMsg (now st)). split; [reflexivity|]. eapply deliver_ping_writes; eauto.
  - run_all. destruct Hin.
  - apply bind_Some in R. destruct R as (e & st1 & t1 & t2 & RD & R & ->).
    apply session_DirectMessage_kept in RD. destruct RD as (_ & ->). run_all.
    destruct Hin.
  - apply bind_Some in R. destruct R as (e & st1 & t1 & t2 & RC & R & ->).
    apply session_Close_kept in RC. destruct RC as (_ & rel & ->). run_all.
    simpl in Hin. intuition discriminate.
  - run_all. destruct Hin.
  - run_all. destruct Hin.
Qed.

Lemma initialize_hook_frames r p st failed st' tr :
  initialize_hook r p st = Some (failed, st', tr) -> Forall frame_action tr.
Proof.
  unfold initialize_hook. intros R. run_cases; repeat constructor.
Qed.

Lemma disconnect_frames r p st u st' tr :
  disconnect r p st = Some (u, st', tr) -> Forall frame_action tr.
Proof.
  unfold disconnect. intros R. run_cases; repeat constructor.
Qed.

Lemma handleCallback_frames r st u st' tr :
  handleCallback r st = Some (u, st', tr) -> Forall frame_action tr.
Proof.
  unfold handleCallback. intros R. run_cases; repeat constructor.
Qed.

Lemma initialized_frames r p sched st e st' tr :
  initialized r p sched st = Some (e, st', tr) -> Forall frame_action tr.
Proof.
  unfold initialized. intros R. apply bind_Some in R.
  destruct R as (failed & st1 & t1 & t2 & RI & R & ->).
  apply initialize_hook_frames in RI. apply Forall_app. split; [exact RI|].
  destruct failed; [run_all; constructor|].
  apply bind_Some in R. destruct R as (x & st2 & t3 & t4 & RC & R & ->).
  apply connected_kept in RC. destruct RC as (_ & T).
  apply Forall_app. split.
  - eapply Forall_impl; [exact T|]. apply body_frame_action.
  - destruct x; [|run_all; constructor].
    apply bind_Some in R. destruct R as (u & st3 & t5 & t6 & RD & R & ->).
    apply disconnect_frames in RD. run_all. now rewrite app_nil_r.
Qed.

Lemma serveSSE_frames r id sched st e st' tr :
  serveSSE r id sched st = Some (e, st', tr) -> Forall frame_action tr.
Proof.
  unfold serveSSE.
  destruct (negb (containsAcceptType (Header_Get r "Accept") streamType)
            && negb (String.eqb (Header_Get r "X-Client-ID") "")).
  - intros R. apply bind_Some in R. destruct R as (u & st1 & t1 & t2 & RC & R & ->).
    apply handleCallback_frames in RC. run_all. now rewrite app_nil_r.
  - rewrite openStream_unfold.
    destruct (initialized r _ sched _) as [[[[] st2] t2]|] eqn:RI; [| |discriminate].
    + apply initialized_frames in RI.
      destruct (session_Close _ st2) as [[[u st3] t3]|] eqn:RC; [|discriminate].
      apply session_Close_kept in RC. destruct RC as (_ & rel & ->).
      intros [= <- <- <-]. unfold opening. simpl.
      repeat (apply Forall_cons; split; [exact I|]).
      apply Forall_app; split; [exact RI|repeat constructor].
    + apply initialized_frames in RI. intros [= <- <- <-]. unfold opening. simpl.
      repeat (apply Forall_cons; split; [exact I|]). exact RI.
Qed.

(** C9. When the JSON encoding of a message succeeds, [Encode] yields
    the bytes [data: ] followed by that encoding followed by
    [\r\n\r\n] (and its error otherwise). This is what is written for
    every delivered message: whatever a round of the loop writes is
    [Encode] of the message that round received, be it a broadcast, a
    direct message or the ping, and every write of a whole run of the
    route function is such a frame. *)
Theorem Encode_wire_format :
  (forall msg j, json_Marshal msg = inl j ->
                 Encode msg = inl ("data: " +:+ j +:+ CRLF +:+ CRLF)) /\
  (forall msg err, json_Marshal msg = inr err -> Encode msg = inr err) /\
  (forall r p (t : Ticker) round st f st' tr b ok,
      iterate r p t round st = Some (f, st', tr) -> In (AWrite b ok) tr ->
      exists msg j, received round p st = Some msg /\ json_Marshal msg = inl j /\
                    b = "data: " +:+ j +:+ CRLF +:+ CRLF) /\
  (forall r id sched st e st' tr b ok,
      serveSSE r id sched st = Some (e, st', tr) -> In (AWrite b ok) tr ->
      exists msg j, json_Marshal msg = inl j /\ b = "data: " +:+ j +:+ CRLF +:+ CRLF).
Proof.
  split; [|split; [|split]].
  - intros msg j Hj. unfold Encode. now rewrite Hj.
  - intros msg err Hj. unfold Encode. now rewrite Hj.
  - intros r p t round st f st' tr b ok R Hin.
    destruct (iterate_writes _ _ _ _ _ _ _ _ _ _ R Hin) as (msg & Hrecv & Henc).
    unfold Encode in Henc. destruct (json_Marshal msg) as [j|err] eqn:Hj; [|discriminate].
    injection Henc as <-. now exists msg, j.
  - intros r id sched st e st' tr b ok R Hin.
    apply serveSSE_frames in R. rewrite Forall_forall in R.
    apply (R (AWrite b ok)). now apply list_elem_of_In.
Qed.

End Frames.

Lemma Encode_wire_format_witness :
  json_Marshal (External := Demo.external) Demo.msg_x
  = inl ("{" +:+ dquote +:+ "event" +:+ dquote +:+ ":" +:+ dquote +:+ "x" +:+ dquote
         +:+ "," +:+ dquote +:+ "v" +:+ dquote +:+ ":1}") /\
  Encode (E := Demo.external) Demo.msg_x
  = inl ("data: " +:+ ("{" +:+ dquote +:+ "event" +:+ dquote +:+ ":" +:+ dquote +:+ "x"
                        +:+ dquote +:+ "," +:+ dquote +:+ "v" +:+ dquote +:+ ":1}")
         +:+ CRLF +:+ CRLF).
Proof.
  assert (J : json_Marshal (External := Demo.external) Demo.msg_x
              = inl ("{" +:+ dquote +:+ "event" +:+ dquote +:+ ":" +:+ dquote +:+ "x"
                     +:+ dquote +:+ "," +:+ dquote +:+ "v" +:+ dquote +:+ ":1}"))
    by (vm_compute; reflexivity).
  split; [exact J|].
  apply (proj1 (Encode_wire_format (E := Demo.external) (HH := Demo.handler))
           Demo.msg_x _ J).
Defined.

(** ** Callback resolution *)

Section Callbacks.
Context {E : External} {H : Type} {HH : SseEventHandler H}.
Implicit Types (st : State H) (s : SseSession H).

Lemma resolveClientID_priority r :
  resolveClientID r
  = first_nonempty [Header_Get r "X-Client-ID"; parameter r "client_id";
                    parameter r "observer_id"].
Proof.
  unfold resolveClientID, parameter. cbv zeta. simpl first_nonempty.
  destruct (String.eqb (Header_Get r "X-Client-ID") "") eqn:Eh; simpl; rewrite ?Eh;
    [|reflexivity].
  destruct (HttpParameterT_string r "client_id") as [c [|]]; simpl.
  - destruct (String.eqb c "") eqn:Ec; simpl; rewrite ?Ec; [|reflexivity].
    destruct (HttpParameterT_string r "observer_id") as [o [|]]; simpl;
      [destruct (String.eqb o "") eqn:Eo|]; simpl; reflexivity.
  - destruct (HttpParameterT_string r "observer_id") as [o [|]]; simpl;
      [destruct (String.eqb o "") eqn:Eo|]; simpl; reflexivity.
Qed.

(** C4. The client identity of a callback is the first non-empty one
    of the [X-Client-ID] header, the [client_id] parameter and the
    [observer_id] parameter, in that order. With none the callback is
    answered with the missing-client-id error; with an identity that the
    registry does not hold, with the client-not-found error; otherwise
    the [OnCallback] of the session's handler runs, and a session
    without handler makes the callback a silent no-op. Nothing but the
    handler's own state changes. *)
Theorem callback_resolution r st :
  resolveClientID r
  = first_nonempty [Header_Get r "X-Client-ID"; parameter r "client_id";
                    parameter r "observer_id"] /\
  (resolveClientID r = "" ->
   handleCallback r st
   = Some (tt, set_resp (error_response errMissingClientID) st,
           [AWriteError errMissingClientID])) /\
  (resolveClientID r <> "" -> clients st !! resolveClientID r = None ->
   handleCallback r st
   = Some (tt, set_resp (error_response errClientNotFound) st,
           [AWriteError errClientNotFound])) /\
  (forall p s, resolveClientID r <> "" -> clients st !! resolveClientID r = Some p ->
     heap st !! p = Some s ->
     handleCallback r st
     = match user_handler s with
       | Some uh =>
           Some (tt, set_heap (insert p (set_user_handler s (Some (OnCallback uh r)))) st,
                 [AOnCallback (resolveClientID r)])
       | None => Some (tt, st, [])
       end).
Proof.
  split; [apply resolveClientID_priority|]. unfold handleCallback.
  split; [|split].
  - intros ->. reflexivity.
  - intros Hne Hnone. destruct (String.eqb_spec (resolveClientID r) ""); [contradiction|].
    unfold bind, get. simpl. rewrite Hnone. reflexivity.
  - intros p s Hne Hp Hs. destruct (String.eqb_spec (resolveClientID r) ""); [contradiction|].
    unfold bind, get, load. simpl. rewrite Hp, Hs. simpl.
    destruct (user_handler s); reflexivity.
Qed.

End Callbacks.

Lemma callback_resolution_witness :
  resolveClientID (E := Demo.external) Demo.callback_both = "c1" /\
  handleCallback (E := Demo.external) (HH := Demo.handler) Demo.callback_both
    (Demo.serving (Demo.script None None true) Demo.writer)
  = Some (tt,
          set_heap (insert 0%nat
                      (set_user_handler (Demo.attached (Demo.script None None true))
                         (Some (Demo.called (Demo.script None None true)))))
            (Demo.serving (Demo.script None None true) Demo.writer),
          [AOnCallback "c1"]).
Proof.
  split; [reflexivity|].
  apply (proj2 (proj2 (proj2
           (callback_resolution (E := Demo.external) (HH := Demo.handler)
              Demo.callback_both
              (Demo.serving (Demo.script None None true) Demo.writer))))
           0%nat (Demo.attached (Demo.script None None true)));
    [discriminate|reflexivity|reflexivity].
Defined.

(** ** The keepalive *)

Section Keepalive.
Context {E : External} {H : Type} {HH : SseEventHandler H}.
Implicit Types (st : State H) (s : SseSession H) (msg : SseMessage) (t : Ticker).

Lemma iterate_ping_ready r p t st frame :
  Ticker_ready t (now st) = true ->
  Encode (pingMsg (now st)) = inl frame ->
  broken (resp st) = false ->
  iterate r p t EvPing st
  = Some (Continue (Ticker_recv t (now st)), set_resp (add_frame frame) st,
          AWrite frame true :: (if is_flusher (resp st) then [AFlush] else [])).
Proof.
  intros Hr He Hb. unfold iterate, deliver_ping, bind at 1, get at 1. rewrite Hr.
  unfold bind at 1, get at 1. rewrite He.
  unfold Write, bind, get, modify, emit, ret. simpl. rewrite Hb. simpl.
  destruct (is_flusher (resp st)); reflexivity.
Qed.

Lemma iterate_ping_early r p t st :
  Ticker_ready t (now st) = false ->
  iterate r p t EvPing st = Some (Continue t, st, []).
Proof.
  intros Hr. unfold iterate, bind, get. now rewrite Hr.
Qed.

Lemma Ticker_recv_on_time t n :
  period t = 60 -> next t <= n < next t + 60 ->
  period (Ticker_recv t n) = 60 /\ next (Ticker_recv t n) = next t + 60.
Proof.
  intros Hp Hn. unfold Ticker_recv. simpl. rewrite Hp. split; [reflexivity|].
  rewrite (Z.div_small (n - next t) 60) by lia. lia.
Qed.

Lemma Ticker_recv_late t n :
  period t = 60 -> next t <= n ->
  period (Ticker_recv t n) = 60 /\
  next t + 60 <= next (Ticker_recv t n) <= n + 60.
Proof.
  intros Hp Hn. unfold Ticker_recv. simpl. rewrite Hp. split; [reflexivity|].
  pose proof (Z.div_pos (n - next t) 60 ltac:(lia) ltac:(lia)).
  pose proof (Z.mul_div_le (n - next t) 60 ltac:(lia)). lia.
Qed.

Lemma pass_on_reset t msg st f st' tr b :
  pass_on t msg st = Some (f, st', tr) -> In (AWrite b true) tr ->
  f = Continue (if is_flusher (resp st) then Ticker_Reset t pingInterval (now st) else t).
Proof.
  unfold pass_on. destruct (Encode msg) as [frame|err]; intros R Hin.
  - apply bind_Some in R. destruct R as (ok & st1 & t1 & t2 & RW & R & ->).
    apply Write_Some in RW. destruct RW as (-> & -> & ->).
    destruct (broken (resp st)) eqn:Hb; simpl in R.
    + run_all. simpl in Hin. intuition discriminate.
    + apply bind_Some in R. destruct R as (st0 & st2 & t3 & t4 & RG & R & ->).
      apply get_Some in RG. destruct RG as (-> & -> & ->). simpl in R.
      destruct (is_flusher (resp st)); run_all; reflexivity.
  - run_all. simpl in Hin. intuition discriminate.
Qed.

Lemma filtered_now r p msg st skip st' tr :
  filtered r p msg st = Some (skip, st', tr) -> now st' = now st /\ resp st' = resp st.
Proof. unfold filtered. intros R. run_cases; auto. Qed.

Lemma deliver_reset r p t msg st f st' tr b :
  deliver r p t msg st = Some (f, st', tr) -> In (AWrite b true) tr ->
  f = Continue (if is_flusher (resp st) then Ticker_Reset t pingInterval (now st) else t).
Proof.
  rewrite deliver_unfold. intros R Hin. apply bind_Some in R.
  destruct R as (skip & st1 & t1 & t2 & RF & R & ->).
  apply in_app_or in Hin. destruct Hin as [Hin|Hin].
  - now apply (filtered_no_write _ _ _ _ _ _ _ _ _ RF) in Hin.
  - apply filtered_now in RF. destruct RF as (<- & <-).
    destruct skip; [run_all; destruct Hin|]. eapply pass_on_reset; eauto.
Qed.

Lemma writes_app (t1 t2 : list Action) : writes (t1 ++ t2) = (writes t1 + writes t2)%nat.
Proof. unfold writes. now rewrite List.filter_app, length_app. Qed.

Lemma deliver_ping_silent t st f st' (tr : list Action) :
  deliver_ping t st = Some (f, st', tr) ->
  now st' = now st /\ (writes tr <= 1)%nat /\ (f = Continue t \/ f = Return).
Proof.
  unfold deliver_ping. intros R. apply bind_Some in R.
  destruct R as (st0 & st9 & t8 & t9 & RG & R & ->).
  apply get_Some in RG. destruct RG as (-> & -> & ->).
  destruct (Encode (pingMsg (now st))) as [frame|err].
  - apply bind_Some in R. destruct R as (ok & st1 & t1 & t2 & RW & R & ->).
    apply Write_Some in RW. destruct RW as (-> & -> & ->).
    destruct (broken (resp st)); simpl in R; [run_all; simpl; auto|].
    destruct (is_flusher (resp st)); run_all; simpl; auto.
  - run_all. simpl. unfold writes. simpl. auto.
Qed.

Lemma elapsed_nonneg sched : 0 <= elapsed sched.
Proof. induction sched as [|[] rest IH]; simpl; lia. Qed.

(** Under silence at most one ping is written per interval that has
    gone by since the ticker was last armed. *)
Lemma silent_bound r p sched : forall t st e st' tr,
  forallb is_silent sched = true ->
  period t = 60 -> next t <= now st + 60 ->
  multiplex r p t sched st = Some (e, st', tr) ->
  60 * Z.of_nat (writes tr) <= now st' - (next t - 60) /\
  now st <= now st' <= now st + elapsed sched.
Proof.
  induction sched as [|round rest IH]; intros t st e st' tr Hs Hp Hn R; simpl in R.
  - run_all. simpl. unfold writes; simpl. lia.
  - simpl in Hs. apply andb_true_iff in Hs. destruct Hs as (Hr & Hs).
    apply bind_Some in R. destruct R as (f & st1 & t1 & t2 & RI & R & ->).
    rewrite writes_app.
    destruct round; try discriminate Hr.
    + (* the tick is polled *)
      destruct (Ticker_ready t (now st)) eqn:Hready.
      * unfold iterate, bind at 1, get at 1 in RI. rewrite Hready in RI.
        destruct (deliver_ping (Ticker_recv t (now st)) st) as [[[f' st1'] t1']|] eqn:RP;
          [|discriminate].
        injection RI as -> -> ->.
        apply deliver_ping_silent in RP. destruct RP as (Hnow & Hw & Hf).
        unfold Ticker_ready in Hready. apply Z.leb_le in Hready.
        destruct (Ticker_recv_late t (now st) Hp Hready) as (Hp' & Hlo & Hhi).
        destruct Hf as [-> | ->].
        -- apply IH in R; [|assumption|assumption|lia]. simpl elapsed. lia.
        -- run_all. unfold writes at 2. simpl. simpl elapsed.
           pose proof (elapsed_nonneg rest). lia.
      * rewrite (iterate_ping_early r p t st Hready) in RI. injection RI as <- <- <-.
        apply IH in R; auto.
    + (* time passes *)
      unfold iterate, bind, modify, ret in RI. simpl in RI. injection RI as <- <- <-.
      apply IH in R; [|assumption|assumption|simpl; lia]. simpl in R. simpl elapsed.
      unfold writes at 1. simpl. lia.
Qed.

(** When the tick is taken at the end of every idle window, each window
    gets its ping. *)
Lemma idle_run r p n : forall t st,
  (forall z, exists frame, Encode (pingMsg z) = inl frame) ->
  broken (resp st) = false ->
  period t = 60 -> next t = now st + 60 ->
  exists st' tr,
    multiplex r p t (idle n) st = Some (Blocked, st', tr) /\
    writes tr = n /\
    now st' = now st + 60 * Z.of_nat n /\
    map inl (wire (resp st'))
    = map inl (wire (resp st))
      ++ map (fun z => Encode (pingMsg z)) (ping_times (now st) n).
Proof.
  induction n as [|k IH]; intros t st Henc Hb Hp Hn.
  - exists st, []. simpl. unfold ret. rewrite app_nil_r. repeat split. lia.
  - simpl idle. simpl multiplex.
    set (st1 := set_now (fun z => z + Z.of_nat 60) st).
    assert (R1 : iterate r p t (EnvSleep 60) st = Some (Continue t, st1, []))
      by reflexivity.
    rewrite (bind_run _ _ _ _ _ _ R1).
    assert (Hnow1 : now st1 = now st + 60) by reflexivity.
    destruct (Henc (now st1)) as (frame & Hframe).
    assert (Hready : Ticker_ready t (now st1) = true).
    { unfold Ticker_ready. apply Z.leb_le. lia. }
    pose proof (iterate_ping_ready r p t st1 frame Hready Hframe Hb) as R2.
    rewrite (bind_run _ _ _ _ _ _ R2).
    destruct (Ticker_recv_on_time t (now st1) Hp ltac:(lia)) as (Hp' & Hn').
    destruct (IH (Ticker_recv t (now st1)) (set_resp (add_frame frame) st1) Henc Hb Hp')
      as (st' & tr & RM & Hw & Hnow & Hwire);
      [rewrite Hn'; change (now (set_resp (add_frame frame) st1)) with (now st1); lia|].
    rewrite RM. eexists. eexists. split; [reflexivity|].
    split; [|split].
    + rewrite app_nil_l. rewrite writes_app, Hw.
      unfold writes. simpl. now destruct (is_flusher (resp st)).
    + rewrite Hnow. simpl. lia.
    + rewrite Hwire. simpl. rewrite map_app. simpl. rewrite <- app_assoc. simpl.
      change (now st + Z.of_nat 60) with (now st1).
      change (now st + pingInterval) with (now st1). now rewrite Hframe.
Qed.

End Keepalive.

Section KeepalivePolicy.
Context {E : External} {H : Type} {HH : SseEventHandler H}.
Implicit Types (st : State H) (t : Ticker).

Lemma iterate_reset r p t round st f st' tr b :
  (round = EvDirect \/ exists msg, round = EvBroadcast msg) ->
  iterate r p t round st = Some (f, st', tr) -> In (AWrite b true) tr ->
  f = Continue (if is_flusher (resp st) then Ticker_Reset t pingInterval (now st) else t).
Proof.
  intros [-> | (msg & ->)] R Hin.
  - unfold iterate in R. apply bind_Some in R.
    destruct R as (s & st1 & t1 & t2 & RL & R & ->).
    apply load_Some in RL. destruct RL as (Hs & -> & ->).
    unfold try_recv in R. destruct (buf (direct_messages s)) as [|v rest].
    + destruct (chan_closed (direct_messages s)); run_all; destruct Hin.
    + apply bind_Some in R. destruct R as (u & st2 & t3 & t4 & RS & R & ->).
      apply store_Some in RS. destruct RS as (-> & ->).
      eapply (deliver_reset r p t v) in R; [exact R|exact Hin].
  - destruct msg as [msg|]; unfold iterate in R.
    + eapply deliver_reset; eauto.
    + run_all. destruct Hin.
Qed.

(** C8, as the code has it. The ping message has event [ping] and the
    current time as payload. The ticker is armed when the loop starts;
    an armed ticker is not ready before 60 time-units have gone by. A
    poll of a ticker that is not ready does nothing; a poll of one that
    is writes the ping and leaves the ticker on its own period: the
    next tick is due one interval after the previous one. A broadcast
    or direct round that writes its frame re-arms the ticker to a full
    interval from now when the response writer is a flusher, and leaves
    it as it was when it is not. Under silence, from an armed ticker
    on, at most one ping is written per interval gone by, and when the
    tick is taken at the end of each idle window, for as long as the
    pings can be encoded and written, every window gets exactly one,
    stamped with the end of its window. *)
Theorem keepalive_policy r p t st :
  (forall z, Event (pingMsg z) = "ping" /\ pingMsg z !! "payload" = Some (VInt z)) /\
  (forall n, armed (NewTicker pingInterval n) n /\ armed (Ticker_Reset t pingInterval n) n) /\
  (forall t0 n m, armed t0 n -> Ticker_ready t0 m = true <-> n + 60 <= m) /\
  (Ticker_ready t (now st) = false ->
   iterate r p t EvPing st = Some (Continue t, st, [])) /\
  (forall frame,
      Ticker_ready t (now st) = true -> Encode (pingMsg (now st)) = inl frame ->
      broken (resp st) = false ->
      iterate r p t EvPing st
      = Some (Continue (Ticker_recv t (now st)), set_resp (add_frame frame) st,
              AWrite frame true :: (if is_flusher (resp st) then [AFlush] else []))) /\
  (period t = 60 -> next t <= now st < next t + 60 ->
   next (Ticker_recv t (now st)) = next t + 60) /\
  (forall round f st' tr b,
      (round = EvDirect \/ exists msg, round = EvBroadcast msg) ->
      iterate r p t round st = Some (f, st', tr) -> In (AWrite b true) tr ->
      f = Continue (if is_flusher (resp st)
                    then Ticker_Reset t pingInterval (now st) else t)) /\
  (forall t0 sched e st' tr,
      armed t0 (now st) -> forallb is_silent sched = true ->
      multiplex r p t0 sched st = Some (e, st', tr) ->
      60 * Z.of_nat (writes tr) <= elapsed sched) /\
  (forall t0 n,
      armed t0 (now st) ->
      (forall z, exists frame, Encode (pingMsg z) = inl frame) ->
      broken (resp st) = false ->
      exists st' tr,
        multiplex r p t0 (idle n) st = Some (Blocked, st', tr) /\
        writes tr = n /\ elapsed (idle n) = 60 * Z.of_nat n /\
        map inl (wire (resp st'))
        = map inl (wire (resp st))
          ++ map (fun z => Encode (pingMsg z)) (ping_times (now st) n)).
Proof.
  split; [intros z; split; reflexivity|].
  split; [intros n; split; split; reflexivity|].
  split; [intros t0 n m (_ & Hn); unfold Ticker_ready; rewrite Hn; apply Z.leb_le|].
  split; [apply iterate_ping_early|].
  split; [intros frame; apply iterate_ping_ready|].
  split; [intros Hp Hn; apply (Ticker_recv_on_time t (now st) Hp Hn)|].
  split; [intros round f st' tr b; apply iterate_reset|].
  split.
  - intros t0 sched e st' tr (Hp & Hn) Hs R.
    apply silent_bound in R; [|exact Hs|exact Hp|lia]. lia.
  - intros t0 n (Hp & Hn) Henc Hb.
    destruct (idle_run r p n t0 st Henc Hb Hp Hn) as (st' & tr & R & Hw & _ & Hwire).
    exists st', tr. split; [exact R|]. split; [exact Hw|]. split; [|exact Hwire].
    clear. induction n as [|k IH]; [reflexivity|].
    change (elapsed (idle (S k))) with (Z.of_nat 60 + elapsed (idle k)). rewrite IH. lia.
Qed.

End KeepalivePolicy.

Lemma keepalive_policy_witness :
  armed (NewTicker pingInterval 1000)
    (now (Demo.serving (Demo.script None None true) Demo.writer)) /\
  broken (resp (Demo.serving (Demo.script None None true) Demo.writer)) = false /\
  exists st' tr,
    multiplex (E := Demo.external) (HH := Demo.handler) Demo.stream_request 0%nat
      (NewTicker pingInterval 1000) (idle 2)
      (Demo.serving (Demo.script None None true) Demo.writer)
    = Some (Blocked, st', tr) /\
    writes tr = 2%nat /\ elapsed (idle 2) = 60 * Z.of_nat 2 /\
    map inl (wire (resp st'))
    = map (fun z => Demo.frame (pingMsg z)) [1060; 1120].
Proof.
  assert (A : armed (NewTicker pingInterval 1000)
                (now (Demo.serving (Demo.script None None true) Demo.writer)))
    by (split; reflexivity).
  split; [exact A|]. split; [reflexivity|].
  apply (proj2 (proj2 (proj2 (proj2 (proj2 (proj2 (proj2 (proj2
           (keepalive_policy (E := Demo.external) (HH := Demo.handler)
              Demo.stream_request 0%nat (NewTicker pingInterval 1000)
              (Demo.serving (Demo.script None None true) Demo.writer)))))))))
           (NewTicker pingInterval 1000) 2%nat A).
  - intros z. eexists. reflexivity.
  - reflexivity.
Defined.

(** The claim C8 as the specification has it fails on a response
    writer that is not a flusher: a broadcast is written 59 time-units
    after the loop started, and the ping follows one time-unit later. *)
Lemma write_without_flusher_keeps_ticker :
  Demo.wire_of (Demo.run (Demo.script None None true) Demo.plain_writer
             [EnvSleep 59; EvBroadcast (Some Demo.msg_x); EnvSleep 1; EvPing; EvDone])
  = [Demo.frame Demo.msg_x; Demo.frame (pingMsg 1060)] /\
  Demo.wire_of (Demo.run (Demo.script None None true) Demo.writer
             [EnvSleep 59; EvBroadcast (Some Demo.msg_x); EnvSleep 1; EvPing; EvDone])
  = [Demo.frame Demo.msg_x].
Proof. split; vm_compute; reflexivity. Qed.

(** The claim C2 as the specification has it fails on the ping: with a
    handler that rejects every message, the ping is written all the
    same, and [OnMessage] has not been called for it. *)
Lemma ping_bypasses_OnMessage :
  Demo.wire_of (Demo.run (Demo.script None None false) Demo.writer [EnvSleep 60; EvPing; EvDone])
  = [Demo.frame (pingMsg 1060)] /\
  existsb is_OnMessage
    (trace_of (Demo.run (Demo.script None None false) Demo.writer
                 [EnvSleep 60; EvPing; EvDone])) = false /\
  Demo.wire_of (Demo.run (Demo.script None None false) Demo.writer
             [EvBroadcast (Some Demo.msg_x); EvDirect; EvDone])
  = [].
Proof. repeat split; vm_compute; reflexivity. Qed.

Lemma OnMessage_filter_witness :
  heap (Demo.serving (Demo.script None None false) Demo.writer) !! 0%nat
  = Some (Demo.attached (Demo.script None None false)) /\
  deliver (E := Demo.external) (HH := Demo.handler) Demo.stream_request 0%nat
    (NewTicker pingInterval 1000) Demo.msg_x
    (Demo.serving (Demo.script None None false) Demo.writer)
  = Some (Continue (NewTicker pingInterval 1000),
          set_heap (insert 0%nat
                      (set_user_handler (Demo.attached (Demo.script None None false))
                         (Some (Demo.called (Demo.script None None false)))))
            (Demo.serving (Demo.script None None false) Demo.writer),
          [AOnMessage Demo.msg_x false]).
Proof.
  assert (Hs : heap (Demo.serving (Demo.script None None false) Demo.writer) !! 0%nat
               = Some (Demo.attached (Demo.script None None false))) by reflexivity.
  split; [exact Hs|].
  apply (proj1 (proj2 (proj2
           (OnMessage_filter (E := Demo.external) (HH := Demo.handler)
              Demo.stream_request 0%nat (NewTicker pingInterval 1000)
              (Demo.serving (Demo.script None None false) Demo.writer)
              (Demo.attached (Demo.script None None false))
              (Demo.script None None false) Demo.msg_x Hs eq_refl))));
    reflexivity.
Defined.

(** ** Racing callers of [Close] *)

Section Race.
Context {H : Type}.
Implicit Types (s : SseSession H).

(** The steps of one caller, run to the end, are [Close]. *)
Lemma Close_steps s :
  (match Close_step AtGuard s with
   | Some (AtDone, s1) =>
       match Close_step AtDone s1 with
       | Some (pc2, s2) =>
           match Close_step pc2 s2 with
           | Some (pc3, s3) =>
               match Close_step pc3 s3 with
               | Some (_, s4) => Some s4
               | None => None
               end
           | None => None
           end
       | None => None
       end
   | Some (_, s1) => Some s1
   | None => None
   end) = fst <$> Close s.
Proof.
  unfold Close, Close_release, Close_step, Close_guard, close_chan.
  destruct (closed s); simpl; [reflexivity|].
  destruct (chan_closed (done s)); simpl; [reflexivity|].
  destruct (chan_closed (direct_messages s)); reflexivity.
Qed.

Lemma Close_race_inv s0 sched : forall a b s,
  session_wf s0 -> closed s0 = false -> race_inv s0 a b s ->
  exists a' b' s',
    Close_race sched a b s = Some (a', b', s') /\ race_inv s0 a' b' s'.
Proof.
  intros a b s (Hcap & Hlen & Hopen) Hc. destruct (Hopen Hc) as (Hd & Hq).
  revert a b s.
  induction sched as [|who rest IH]; intros a b s I; [simpl; eauto|].
  assert (Hstep : forall a b s, race_inv s0 a b s ->
            (exists a' s', Close_step a s = Some (a', s') /\ race_inv s0 a' b s') /\
            (exists b' s', Close_step b s = Some (b', s') /\ race_inv s0 a b' s')).
  { clear - Hc Hd Hq. intros a b s I.
    destruct s0 as [id uh [db dc dcl] cons [qb qc qcl] cl]. simpl in Hc, Hd, Hq. subst.
    destruct a, b; cbv in I; try contradiction; try discriminate I;
      try (injection I as <-); subst;
      split; eexists; eexists; (split; [reflexivity|]); reflexivity. }
  destruct (Hstep a b s I) as ((a' & sa & Sa & Ia) & (b' & sb & Sb & Ib)).
  destruct who; simpl.
  - rewrite Sa. now apply IH.
  - rewrite Sb. now apply IH.
Qed.

(** X17. Two callers of [Close] that race on an open session never panic,
    whatever the interleaving of their steps, and once both have
    finished the session is what a single [Close] makes of it: each
    resource has been released once. *)
Lemma Close_race_once s0 sched :
  session_wf s0 -> closed s0 = false ->
  exists a b s,
    Close_race sched AtGuard AtGuard s0 = Some (a, b, s) /\
    (a = Finished -> b = Finished -> fst <$> Close s0 = Some s).
Proof.
  intros W Hc.
  destruct (Close_race_inv s0 sched AtGuard AtGuard s0 W Hc eq_refl)
    as (a & b & s & R & I).
  exists a, b, s. split; [exact R|]. intros -> ->. exact I.
Qed.

End Race.

(** * Properties of the router, the parameters and the helpers *)

(** ** [replaceAllDoubleSlashes] *)

Section DoubleSlashes.
Import GoSubstrings.

Lemma string_pair_ind (P : string -> Prop) :
  P EmptyString -> (forall c, P (String c EmptyString)) ->
  (forall c1 c2 r, P r -> P (String c2 r) -> P (String c1 (String c2 r))) ->
  forall s, P s.
Proof.
  intros H0 H1 H2 s.
  assert (P s /\ forall c, P (String c s)) as [? _]; [|assumption].
  induction s as [|c s [IH1 IH2]]; split; auto.
Qed.

Lemma HasPrefix_slashes c1 c2 r :
  HasPrefix (String c1 (String c2 r)) "//" = Ascii.eqb c1 "/" && Ascii.eqb c2 "/".
Proof.
  unfold HasPrefix. cbn [GoStrings.strip].
  rewrite (Ascii.eqb_sym "/"%char c1), (Ascii.eqb_sym "/"%char c2).
  destruct (Ascii.eqb c1 "/"), (Ascii.eqb c2 "/"); reflexivity.
Qed.

Lemma HasPrefix_slashes_single c : HasPrefix (String c EmptyString) "//" = false.
Proof. unfold HasPrefix. cbn [GoStrings.strip]. destruct (Ascii.eqb "/" c); reflexivity. Qed.

Lemma ReplaceAll_single c :
  ReplaceAll (String c EmptyString) "//" "/" = String c EmptyString.
Proof.
  unfold ReplaceAll.
  change (replace_from "//" "/" 0 (String c EmptyString))
    with (if HasPrefix (String c EmptyString) "//"
          then "/" +:+ EmptyString else String c EmptyString).
  now rewrite HasPrefix_slashes_single.
Qed.

Lemma ReplaceAll_cons c1 c2 r :
  ReplaceAll (String c1 (String c2 r)) "//" "/"
  = if Ascii.eqb c1 "/" && Ascii.eqb c2 "/"
    then String "/" (ReplaceAll r "//" "/")
    else String c1 (ReplaceAll (String c2 r) "//" "/").
Proof.
  unfold ReplaceAll.
  change (replace_from "//" "/" 0 (String c1 (String c2 r)))
    with (if HasPrefix (String c1 (String c2 r)) "//"
          then String "/" (replace_from "//" "/" 0 r)
          else String c1 (replace_from "//" "/" 0 (String c2 r))).
  now rewrite HasPrefix_slashes.
Qed.

Lemma Contains_cons c1 c2 r :
  Contains (String c1 (String c2 r)) "//"
  = (Ascii.eqb c1 "/" && Ascii.eqb c2 "/") || Contains (String c2 r) "//".
Proof.
  change (Contains (String c1 (String c2 r)) "//")
    with (HasPrefix (String c1 (String c2 r)) "//" || Contains (String c2 r) "//").
  now rewrite HasPrefix_slashes.
Qed.

Lemma Contains_single c : Contains (String c EmptyString) "//" = false.
Proof.
  change (Contains (String c EmptyString) "//")
    with (HasPrefix (String c EmptyString) "//" || false).
  now rewrite HasPrefix_slashes_single.
Qed.

Lemma collapse_cons b c s :
  collapse b (String c s)
  = if Ascii.eqb c "/"
    then if b then collapse true s else String c (collapse true s)
    else String c (collapse false s).
Proof. reflexivity. Qed.

(** One pass of [ReplaceAll] does not change what the runs of slashes
    collapse to. *)
Lemma ReplaceAll_collapse s : forall b,
  collapse b (ReplaceAll s "//" "/") = collapse b s.
Proof.
  induction s as [|c|c1 c2 r IH1 IH2] using string_pair_ind; intros b.
  - reflexivity.
  - now rewrite ReplaceAll_single.
  - rewrite ReplaceAll_cons.
    destruct (Ascii.eqb c1 "/") eqn:E1; simpl andb.
    + destruct (Ascii.eqb c2 "/") eqn:E2.
      * apply Ascii.eqb_eq in E1, E2. subst c1 c2.
        rewrite !collapse_cons. simpl. rewrite IH1. now destruct b.
      * rewrite !(collapse_cons b), E1. rewrite IH2. reflexivity.
    + rewrite !(collapse_cons b), E1. now rewrite IH2.
Qed.

Lemma ReplaceAll_length s :
  (String.length (ReplaceAll s "//" "/") <= String.length s)%nat /\
  (Contains s "//" = true ->
   String.length (ReplaceAll s "//" "/") < String.length s)%nat.
Proof.
  induction s as [|c|c1 c2 r IH1 IH2] using string_pair_ind.
  - split; [reflexivity|discriminate].
  - rewrite ReplaceAll_single, Contains_single. split; [reflexivity|discriminate].
  - rewrite ReplaceAll_cons, Contains_cons.
    destruct IH1 as [L1 _], IH2 as [L2 S2].
    destruct (Ascii.eqb c1 "/" && Ascii.eqb c2 "/"); simpl in *.
    + split; [lia|intros _; lia].
    + split; [lia|]. intros C. specialize (S2 C). lia.
Qed.

(** A string without two slashes in a row is what its runs collapse
    to. *)
Lemma collapse_fixed s : forall b,
  Contains s "//" = false ->
  (b = true -> HasPrefix s "/" = false) ->
  collapse b s = s.
Proof.
  induction s as [|c|c1 c2 r IH1 IH2] using string_pair_ind; intros b C Hb.
  - reflexivity.
  - rewrite collapse_cons. simpl.
    destruct (Ascii.eqb c "/") eqn:E; [|reflexivity].
    destruct b; [|reflexivity].
    specialize (Hb eq_refl). unfold HasPrefix in Hb. cbn [GoStrings.strip] in Hb.
    rewrite Ascii.eqb_sym, E in Hb. discriminate.
  - rewrite Contains_cons in C. apply orb_false_iff in C as [C1 C2].
    rewrite collapse_cons.
    destruct (Ascii.eqb c1 "/") eqn:E1.
    + simpl in C1.
      destruct b.
      { specialize (Hb eq_refl). unfold HasPrefix in Hb. cbn [GoStrings.strip] in Hb.
        rewrite Ascii.eqb_sym, E1 in Hb. discriminate. }
      rewrite IH2; [reflexivity|exact C2|].
      intros _. unfold HasPrefix. cbn [GoStrings.strip]. rewrite Ascii.eqb_sym, C1. reflexivity.
    + rewrite IH2; [reflexivity|exact C2|discriminate].
Qed.

Lemma replaceAllDoubleSlashes_loop_spec : forall fuel uri,
  (String.length uri <= fuel)%nat ->
  Contains (replaceAllDoubleSlashes_loop fuel uri) "//" = false /\
  collapse false (replaceAllDoubleSlashes_loop fuel uri) = collapse false uri.
Proof.
  induction fuel as [|fuel IH]; intros uri L.
  - destruct uri; [split; reflexivity|simpl in L; lia].
  - simpl. destruct (Contains uri "//") eqn:C.
    + destruct (ReplaceAll_length uri) as [_ S]. specialize (S C).
      destruct (IH (ReplaceAll uri "//" "/")) as [N K]; [lia|].
      split; [exact N|]. now rewrite K, ReplaceAll_collapse.
    + split; [exact C|reflexivity].
Qed.

Lemma collapse_length s : forall b,
  (String.length (collapse b s) <= String.length s)%nat.
Proof.
  induction s as [|c s IH]; intros b; [reflexivity|].
  rewrite collapse_cons.
  pose proof (IH true). pose proof (IH false).
  destruct (Ascii.eqb c "/"); [destruct b|]; simpl; lia.
Qed.

(** X1. [replaceAllDoubleSlashes] leaves its loop with a string that has
    no two slashes in a row, and that string is the argument with every
    run of slashes collapsed into one slash: a string without doubled
    slashes comes back as it is, the function is idempotent, and the
    result is never longer than the argument. *)
Theorem replaceAllDoubleSlashes_collapses (uri : string) :
  replaceAllDoubleSlashes uri = collapse false uri /\
  Contains (replaceAllDoubleSlashes uri) "//" = false /\
  (Contains uri "//" = false -> replaceAllDoubleSlashes uri = uri) /\
  replaceAllDoubleSlashes (replaceAllDoubleSlashes uri) = replaceAllDoubleSlashes uri /\
  (String.length (replaceAllDoubleSlashes uri) <= String.length uri)%nat.
Proof.
  assert (Hall : forall u, Contains (replaceAllDoubleSlashes u) "//" = false /\
                           replaceAllDoubleSlashes u = collapse false u).
  { intros u. unfold replaceAllDoubleSlashes.
    destruct (replaceAllDoubleSlashes_loop_spec (String.length u) u) as [N K]; [lia|].
    split; [exact N|]. rewrite <- K. symmetry. apply collapse_fixed; [exact N|discriminate]. }
  assert (Hfix : forall u, Contains u "//" = false -> replaceAllDoubleSlashes u = u).
  { intros u C. destruct (Hall u) as [_ ->]. apply collapse_fixed; [exact C|discriminate]. }
  destruct (Hall uri) as [N K].
  split; [exact K|]. split; [exact N|]. split; [apply Hfix|].
  split; [apply Hfix, N|]. rewrite K. apply collapse_length.
Qed.

End DoubleSlashes.

Lemma replaceAllDoubleSlashes_collapses_witness :
  replaceAllDoubleSlashes "/api//v1///users/" = "/api/v1/users/" /\
  GoSubstrings.Contains "/a/b" "//" = false /\
  replaceAllDoubleSlashes "/a/b" = "/a/b".
Proof.
  split; [reflexivity|]. split; [reflexivity|].
  exact (proj1 (proj2 (proj2 (replaceAllDoubleSlashes_collapses "/a/b"))) eq_refl).
Defined.

(** ** The route table *)

Section Routes.
Context {G : Globber} {F : Type}.
Implicit Types (s : Service F) (route : serviceHttpRouteInfo F) (r : HttpRequest).
Implicit Types (l : list (serviceHttpRouteInfo F)).

Lemma insert_stable_head route l :
  Forall (fun z => (String.length (URI z) <= String.length (URI route))%nat) l ->
  insert_stable longer route l = route :: l.
Proof.
  destruct l as [|z l]; [reflexivity|]. intros HF.
  apply Forall_cons in HF as [Hz _]. simpl. unfold longer.
  destruct (Nat.ltb_spec (String.length (URI route)) (String.length (URI z)));
    [lia|reflexivity].
Qed.

(** Sorting a sorted table with one route appended puts that route
    behind the routes that are at least as long and before the shorter
    ones. *)
Lemma SliceStable_append l x :
  ordered l ->
  exists l1 l2,
    l = l1 ++ l2 /\ SliceStable longer (l ++ [x]) = l1 ++ x :: l2 /\
    Forall (fun a => (String.length (URI x) <= String.length (URI a))%nat) l1 /\
    Forall (fun a => (String.length (URI a) < String.length (URI x))%nat) l2.
Proof.
  unfold SliceStable, ordered. rewrite foldr_app. simpl.
  induction 1 as [|y l Hs IH Hy].
  - exists [], []. repeat split; constructor.
  - destruct IH as (l1 & l2 & -> & E & H1 & H2). simpl. rewrite E.
    destruct (Nat.le_gt_cases (String.length (URI x)) (String.length (URI y))) as [Hle|Hgt].
    + exists (y :: l1), l2. split; [reflexivity|]. split.
      * rewrite insert_stable_head; [reflexivity|].
        apply Forall_app in Hy as [Hy1 Hy2]. apply Forall_app.
        split; [exact Hy1|]. constructor; [lia|exact Hy2].
      * split; [constructor; [lia|exact H1]|exact H2].
    + destruct l1 as [|z l1].
      * exists [], (y :: l2). simpl in *. split; [reflexivity|]. split.
        -- unfold longer at 1.
           destruct (Nat.ltb_spec (String.length (URI y)) (String.length (URI x))); [|lia].
           rewrite insert_stable_head by exact Hy. reflexivity.
        -- split; [constructor|constructor; [lia|exact H2]].
      * exfalso. apply Forall_cons in H1 as [H1 _].
        simpl in Hy. apply Forall_cons in Hy as [Hy _]. lia.
Qed.

Lemma ordered_insert l1 l2 x :
  ordered (l1 ++ l2) ->
  Forall (fun a => (String.length (URI x) <= String.length (URI a))%nat) l1 ->
  Forall (fun a => (String.length (URI a) < String.length (URI x))%nat) l2 ->
  ordered (l1 ++ x :: l2).
Proof.
  unfold ordered. intros Hs H1 H2.
  apply StronglySorted_app in Hs as (Hc & S1 & S2).
  apply StronglySorted_app. split; [|split; [exact S1|]].
  - intros a b Ha Hb. apply elem_of_cons in Hb as [->|Hb].
    + rewrite Forall_forall in H1. now apply H1.
    + now apply Hc.
  - constructor; [exact S2|].
    eapply Forall_impl; [exact H2|]. simpl. intros; lia.
Qed.

(** X2. [RegisterRoute] keeps the route table ordered by the length of
    the URI, longest first: the table of a new service is ordered, and
    on an ordered table the new route, whose URI is the argument with
    its doubled slashes removed and whose hit counter is zero, goes
    behind every route with a URI at least as long and before every
    shorter one, all other routes staying where they are. *)
Theorem RegisterRoute_keeps_order :
  (forall name, ordered (routes (Build (F := F) name))) /\
  (forall s uri method fn,
      ordered (routes s) ->
      let s' := (RegisterRoute s uri method fn).1 in
      let result := (RegisterRoute s uri method fn).2 in
      result = {| URI := replaceAllDoubleSlashes uri; Method := method; Fn := fn; Hits := 0 |} /\
      ordered (routes s') /\
      serviceName s' = serviceName s /\
      exists l1 l2,
        routes s = l1 ++ l2 /\ routes s' = l1 ++ result :: l2 /\
        Forall (fun a => (String.length (URI result) <= String.length (URI a))%nat) l1 /\
        Forall (fun a => (String.length (URI a) < String.length (URI result))%nat) l2).
Proof.
  split; [intros name; constructor|].
  intros s uri method fn Ho s' result.
  destruct (SliceStable_append (routes s) result Ho) as (l1 & l2 & E & E' & H1 & H2).
  split; [reflexivity|].
  assert (Hr : routes s' = l1 ++ result :: l2) by exact E'.
  split; [|split; [reflexivity|]].
  - rewrite Hr. apply ordered_insert; [now rewrite <- E|exact H1|exact H2].
  - exists l1, l2. auto.
Qed.

Lemma exact_route_true r route :
  exact_route r route = true <->
  MatchMethod route (req_Method r) = true /\ URL_Path r = URI route.
Proof.
  unfold exact_route. rewrite andb_true_iff, String.eqb_eq. reflexivity.
Qed.

Lemma ResolveRoute_finds_exact s r a :
  a ∈ routes s -> exact_route r a = true ->
  exists i route, ResolveRoute s r = Some (i, route, ∅) /\
                  URI route = URL_Path r /\
                  MatchMethod route (req_Method r) = true.
Proof.
  intros Ha Pa. unfold ResolveRoute.
  destruct (list_find_elem_of (fun route => Is_true (exact_route r route))
              (routes s) a Ha) as [[i x] E]; [now apply Is_true_true|].
  rewrite E. exists i, x. split; [reflexivity|].
  apply list_find_Some in E as (_ & P & _).
  apply Is_true_true, exact_route_true in P as [Pm Pp]. now split.
Qed.

(** X3. [ResolveRoute] prefers an exact match to a glob match: whenever
    some route of the table has the request's path as its URI and a
    method that matches, the result is the first such route, with no
    named parameters, also when a glob route that matches comes earlier
    in the table; otherwise it is the first route whose method matches
    and whose pattern matches the path; and nothing is found exactly
    when no route matches either way. *)
Theorem ResolveRoute_exact_first s r :
  (forall i route named,
      ResolveRoute s r = Some (i, route, named) ->
      routes s !! i = Some route /\ MatchMethod route (req_Method r) = true /\
      ((URI route = URL_Path r /\ named = ∅ /\
        forall j a, routes s !! j = Some a -> (j < i)%nat -> exact_route r a = false) \/
       (Forall (fun a => exact_route r a = false) (routes s) /\
        MatchURL route (URL_Path r) = (true, named) /\
        forall j a, routes s !! j = Some a -> (j < i)%nat -> glob_route r a = false))) /\
  (ResolveRoute s r = None <->
   Forall (fun a => exact_route r a = false /\ glob_route r a = false) (routes s)) /\
  (forall a, a ∈ routes s -> exact_route r a = true ->
             exists i route, ResolveRoute s r = Some (i, route, ∅) /\
                             URI route = URL_Path r /\
                             MatchMethod route (req_Method r) = true).
Proof.
  unfold ResolveRoute. split; [|split].
  - intros i route named R.
    destruct (list_find _ (routes s)) as [[i1 a1]|] eqn:E1.
    + injection R as <- <- <-.
      apply list_find_Some in E1 as (L & P & N).
      apply Is_true_true, exact_route_true in P as [Pm Pp].
      split; [exact L|]. split; [exact Pm|]. left.
      split; [now symmetry|]. split; [reflexivity|].
      intros j a La Hj. apply Is_true_false. now apply (N j a).
    + destruct (list_find _ (routes s)) as [[i2 a2]|] eqn:E2 in R; [|discriminate].
      injection R as <- <- <-.
      apply list_find_Some in E2 as (L & P & N).
      apply Is_true_true in P. unfold glob_route in P.
      apply andb_true_iff in P as [Pm Pg].
      split; [exact L|]. split; [exact Pm|]. right.
      split; [|split].
      * apply list_find_None in E1.
        eapply Forall_impl; [exact E1|]. simpl. intros a Ha. now apply Is_true_false.
      * destruct (MatchURL a2 (URL_Path r)) as [m n]. simpl in *. now subst.
      * intros j a La Hj. apply Is_true_false. now apply (N j a).
  - split.
    + intros R.
      destruct (list_find _ (routes s)) as [[i1 a1]|] eqn:E1; [discriminate|].
      destruct (list_find _ (routes s)) as [[i2 a2]|] eqn:E2 in R; [discriminate|].
      apply list_find_None in E1, E2. rewrite Forall_forall in *.
      intros a Ha. split; apply Is_true_false; auto.
    + intros HF.
      assert (E1 : list_find (fun route => Is_true (exact_route r route)) (routes s) = None).
      { apply list_find_None. eapply Forall_impl; [exact HF|].
        simpl. intros a [Ha _]. now apply Is_true_false. }
      assert (E2 : list_find (fun route => Is_true (glob_route r route)) (routes s) = None).
      { apply list_find_None. eapply Forall_impl; [exact HF|].
        simpl. intros a [_ Ha]. now apply Is_true_false. }
      now rewrite E1, E2.
  - intros a Ha Pa. fold (ResolveRoute s r). now apply (ResolveRoute_finds_exact s r a).
Qed.

(** X4. A route that has been registered is found at its own URI: a
    request whose path is the registered URI (doubled slashes removed)
    and whose method the route accepts resolves to an exact match with
    no named parameters. The match is the new route when no route
    registered before matched that request exactly; when one did, the
    request still resolves as it did before, so a second registration
    of the same URI never takes a request from the first. *)
Theorem RegisterRoute_resolves s uri method fn r :
  ordered (routes s) ->
  URL_Path r = replaceAllDoubleSlashes uri ->
  method = req_Method r \/ method = "*" ->
  let s' := (RegisterRoute s uri method fn).1 in
  let result := (RegisterRoute s uri method fn).2 in
  (exists i route,
      ResolveRoute s' r = Some (i, route, ∅) /\ URI route = URL_Path r /\
      MatchMethod route (req_Method r) = true) /\
  (Forall (fun a => exact_route r a = false) (routes s) ->
   exists i, ResolveRoute s' r = Some (i, result, ∅) /\ Fn result = fn) /\
  (forall a, a ∈ routes s -> exact_route r a = true ->
             ResolveRoute s' r = ResolveRoute s r).
Proof.
  intros Ho Hp Hm s' result.
  destruct (SliceStable_append (routes s) result Ho) as (l1 & l2 & E & E' & H1 & H2).
  assert (Hr : routes s' = l1 ++ result :: l2) by exact E'.
  assert (Hx : exact_route r result = true).
  { apply exact_route_true. split; [|exact Hp].
    unfold MatchMethod. simpl. destruct Hm as [->| ->].
    - now rewrite String.eqb_refl.
    - rewrite (String.eqb_refl "*"). apply orb_true_r. }
  assert (Hin : result ∈ routes s').
  { rewrite Hr. apply elem_of_app. right. apply elem_of_cons. now left. }
  split; [|split].
  - exact (ResolveRoute_finds_exact s' r result Hin Hx).
  - intros HF. exists (length l1). split; [|reflexivity].
    unfold ResolveRoute. rewrite Hr.
    rewrite E in HF. apply Forall_app in HF as [HF1 _].
    rewrite list_find_app_r.
    + simpl. destruct (decide _) as [_|N]; [|destruct N; now apply Is_true_true].
      reflexivity.
    + apply list_find_None. eapply Forall_impl; [exact HF1|].
      simpl. intros a Ha. now apply Is_true_false.
  - intros a Ha Pa.
    assert (Ha1 : a ∈ l1).
    { rewrite E in Ha. apply elem_of_app in Ha as [Ha|Ha]; [exact Ha|].
      rewrite Forall_forall in H2. specialize (H2 a Ha).
      apply exact_route_true in Pa as [_ Pa].
      replace (URI a) with (URI result) in H2; [lia|].
      simpl. now rewrite <- Hp, Pa. }
    destruct (list_find_elem_of (fun route => Is_true (exact_route r route))
                l1 a Ha1) as [[i x] Ef]; [now apply Is_true_true|].
    unfold ResolveRoute. rewrite Hr, E.
    now rewrite !(list_find_app_l _ _ _ _ _ Ef).
Qed.

End Routes.

Lemma RegisterRoute_keeps_order_witness :
  ordered (routes RouterDemo.one_route) /\ ordered (routes RouterDemo.two_routes) /\
  map URI (routes RouterDemo.two_routes) = ["/a/*"; "/a/b"].
Proof.
  assert (H0 : ordered (routes (Build (F := nat) "demo"))).
  { exact (proj1 (RegisterRoute_keeps_order (F := nat)) "demo"). }
  assert (H1 : ordered (routes RouterDemo.one_route)).
  { exact (proj1 (proj2 (proj2 (RegisterRoute_keeps_order (F := nat))
                           (Build "demo") "/a/*" "GET" 1%nat H0))). }
  split; [exact H1|]. split; [|reflexivity].
  exact (proj1 (proj2 (proj2 (RegisterRoute_keeps_order (F := nat))
                         RouterDemo.one_route "/a//b" "GET" 2%nat H1))).
Defined.

Lemma ResolveRoute_exact_first_witness :
  glob_route (G := RouterDemo.globber) (RouterDemo.get_request "/a/b")
    {| URI := "/a/*"; Method := "GET"; Fn := 1%nat; Hits := 0 |} = true /\
  exists i route,
    ResolveRoute (G := RouterDemo.globber) RouterDemo.two_routes
      (RouterDemo.get_request "/a/b") = Some (i, route, ∅) /\
    URI route = "/a/b" /\ MatchMethod route "GET" = true.
Proof.
  split; [reflexivity|].
  refine (proj2 (proj2 (ResolveRoute_exact_first (G := RouterDemo.globber)
                          RouterDemo.two_routes (RouterDemo.get_request "/a/b")))
            {| URI := "/a/b"; Method := "GET"; Fn := 2%nat; Hits := 0 |} _ eq_refl).
  apply (list_elem_of_lookup_2 _ 1%nat). reflexivity.
Defined.

Lemma RegisterRoute_resolves_witness :
  exists i,
    ResolveRoute (G := RouterDemo.globber) RouterDemo.two_routes
      (RouterDemo.get_request "/a/b")
    = Some (i, {| URI := "/a/b"; Method := "GET"; Fn := 2%nat; Hits := 0 |}, ∅).
Proof.
  assert (H1 : ordered (routes RouterDemo.one_route)).
  { repeat constructor. }
  destruct (proj1 (proj2 (RegisterRoute_resolves (G := RouterDemo.globber)
                            RouterDemo.one_route "/a//b" "GET" 2%nat
                            (RouterDemo.get_request "/a/b") H1 eq_refl
                            (or_introl eq_refl))))
    as (i & R & _).
  - repeat constructor.
  - exists i. exact R.
Defined.

(** ** Hit counters *)

Section Hits.
Context {G : Globber} {D : Decoder} {F : Type}.
Implicit Types (s : Service F) (route : serviceHttpRouteInfo F) (r : HttpRequest).
Implicit Types (l : list (serviceHttpRouteInfo F)).

Lemma AddInt32_small h : - 2 ^ 31 <= h + 1 < 2 ^ 31 -> AddInt32 h 1 = h + 1.
Proof. intros Hh. unfold AddInt32. rewrite Z.mod_small; lia. Qed.

Lemma total_hits_alter l : forall i a (f : Z -> Z),
  l !! i = Some a ->
  total_hits (alter (set_Hits f) i l) = total_hits l - Hits a + f (Hits a).
Proof.
  induction l as [|b l IH]; intros i a f L; [discriminate|].
  destruct i as [|i].
  - injection L as ->. reflexivity || (cbn; lia).
  - change (alter (set_Hits f) (S i) (b :: l)) with (b :: alter (set_Hits f) i l).
    change (Hits b + total_hits (alter (set_Hits f) i l)
            = Hits b + total_hits l - Hits a + f (Hits a)).
    rewrite (IH i a f L). lia.
Qed.

Lemma total_hits_bound l : forall i a,
  Forall (fun a => 0 <= Hits a) l -> l !! i = Some a ->
  0 <= Hits a <= total_hits l.
Proof.
  induction l as [|b l IH]; intros i a HF L; [discriminate|].
  apply Forall_cons in HF as [Hb HF].
  assert (0 <= total_hits l).
  { clear - HF. induction HF; simpl; lia. }
  destruct i as [|i]; simpl in *.
  - injection L as ->. lia.
  - specialize (IH i a HF L). lia.
Qed.

Lemma alter_set_Hits_fields l i (f : Z -> Z) :
  map URI (alter (set_Hits f) i l) = map URI l /\
  map Method (alter (set_Hits f) i l) = map Method l /\
  map Fn (alter (set_Hits f) i l) = map Fn l.
Proof.
  revert i. induction l as [|b l IH]; intros i; [now destruct i|].
  destruct i as [|i]; [now cbn|].
  change (alter (set_Hits f) (S i) (b :: l)) with (b :: alter (set_Hits f) i l).
  cbn [map]. destruct (IH i) as (-> & -> & ->). auto.
Qed.

Lemma ResolveRoute_lookup s r i route named :
  ResolveRoute s r = Some (i, route, named) -> routes s !! i = Some route.
Proof.
  unfold ResolveRoute. intros R.
  destruct (list_find _ (routes s)) as [[i1 a1]|] eqn:E1.
  - injection R as <- <- <-. now apply list_find_Some in E1 as (L & _).
  - destruct (list_find _ (routes s)) as [[i2 a2]|] eqn:E2 in R; [|discriminate].
    injection R as <- <- <-. now apply list_find_Some in E2 as (L & _).
Qed.

Lemma ServeHTTP_step s r :
  Forall (fun a => 0 <= Hits a) (routes s) ->
  total_hits (routes s) + 1 < 2 ^ 31 ->
  Forall (fun a => 0 <= Hits a) (routes (ServeHTTP s r).1) /\
  total_hits (routes (ServeHTTP s r).1)
  = total_hits (routes s) + (if is_Routed (ServeHTTP s r).2 then 1 else 0) /\
  map URI (routes (ServeHTTP s r).1) = map URI (routes s) /\
  map Method (routes (ServeHTTP s r).1) = map Method (routes s) /\
  (is_Routed (ServeHTTP s r).2 = false -> (ServeHTTP s r).1 = s).
Proof.
  intros HF Hb. unfold ServeHTTP.
  destruct (ResolveRoute s r) as [[[i sh] named]|] eqn:R.
  - destruct (parameters r named) as [ctx [e|]]; simpl.
    + repeat split; [exact HF|lia].
    + apply ResolveRoute_lookup in R.
      destruct (total_hits_bound (routes s) i sh HF R) as [H0 H1].
      destruct (alter_set_Hits_fields (routes s) i (fun hits => AddInt32 hits 1))
        as (EU & EM & _).
      split; [|split; [|split; [exact EU|split; [exact EM|discriminate]]]].
      * apply Forall_alter; [exact HF|]. intros x Hx Px. simpl.
        rewrite R in Hx. injection Hx as <-. rewrite AddInt32_small; lia.
      * rewrite (total_hits_alter _ _ _ _ R), AddInt32_small; lia.
  - destruct (parameters r ∅) as [ctx [e|]]; simpl; repeat split; try exact HF; lia.
Qed.

Lemma serve_all_counts rs : forall s,
  Forall (fun a => 0 <= Hits a) (routes s) ->
  total_hits (routes s) + Z.of_nat (length rs) < 2 ^ 31 ->
  Forall (fun a => 0 <= Hits a) (routes (serve_all s rs).1) /\
  total_hits (routes (serve_all s rs).1)
  = total_hits (routes s) + Z.of_nat (length (List.filter is_Routed (serve_all s rs).2)) /\
  map URI (routes (serve_all s rs).1) = map URI (routes s) /\
  map Method (routes (serve_all s rs).1) = map Method (routes s).
Proof.
  induction rs as [|r rs IH]; intros s HF Hb.
  - simpl. repeat split; [exact HF|lia].
  - simpl length in Hb.
    destruct (ServeHTTP_step s r HF) as (HF1 & T1 & U1 & M1 & _); [lia|].
    simpl. destruct (ServeHTTP s r) as [s1 out] eqn:E1. simpl in *.
    specialize (IH s1 HF1).
    destruct (serve_all s1 rs) as [s2 outs] eqn:E2. simpl in *.
    destruct IH as (HF2 & T2 & U2 & M2); [destruct (is_Routed out); lia|].
    split; [exact HF2|]. split; [|split; congruence].
    rewrite T2, T1. destruct (is_Routed out); simpl; lia.
Qed.

(** X5. The hit counters count the requests that were routed: after
    [ClearStats] every counter is zero, and when fewer than 2^31
    requests are then served one after the other, the counters add up
    to the number of requests that reached a route function; a request
    whose parameters fail, or that no route matches, counts nowhere.
    The URIs and methods that [Stats] reports stay what they were. *)
Theorem hits_count_routed s rs :
  Z.of_nat (length rs) < 2 ^ 31 ->
  let s' := (serve_all (ClearStats s) rs).1 in
  let outs := (serve_all (ClearStats s) rs).2 in
  Forall (fun st => stat_Hits st = 0) (Stats (ClearStats s)) /\
  total_hits (routes s') = Z.of_nat (length (List.filter is_Routed outs)) /\
  Forall (fun st => 0 <= stat_Hits st) (Stats s') /\
  map stat_URI (Stats s') = map stat_URI (Stats s) /\
  map stat_Method (Stats s') = map stat_Method (Stats s).
Proof.
  intros Hb s' outs.
  assert (Z0 : Forall (fun a => Hits a = 0) (routes (ClearStats s))).
  { simpl. apply Forall_fmap. apply Forall_true. reflexivity. }
  assert (T0 : total_hits (routes (ClearStats s)) = 0).
  { clear - Z0. induction Z0 as [|a l Ha _ IH]; simpl; [reflexivity|]. lia. }
  assert (HF : Forall (fun a => 0 <= Hits a) (routes (ClearStats s))).
  { eapply Forall_impl; [exact Z0|]. simpl. intros; lia. }
  destruct (serve_all_counts rs (ClearStats s) HF) as (HF' & T & U & M); [lia|].
  fold s' in HF', T, U, M. fold outs in T.
  split; [|split; [|split; [|split]]].
  - unfold Stats. apply Forall_fmap. eapply Forall_impl; [exact Z0|]. auto.
  - lia.
  - unfold Stats. apply Forall_fmap. eapply Forall_impl; [exact HF'|]. auto.
  - unfold Stats. rewrite <- !list_fmap_compose.
    change (map URI (routes s') = map URI (routes s)).
    rewrite U. simpl. rewrite <- list_fmap_compose. reflexivity.
  - unfold Stats. rewrite <- !list_fmap_compose.
    change (map Method (routes s') = map Method (routes s)).
    rewrite M. simpl. rewrite <- list_fmap_compose. reflexivity.
Qed.

End Hits.

Lemma hits_count_routed_witness :
  total_hits
    (routes (serve_all (G := RouterDemo.globber) (D := RouterDemo.decoder)
               (ClearStats RouterDemo.two_routes)
               [RouterDemo.get_request "/a/b"; RouterDemo.get_request "/nowhere";
                RouterDemo.get_request "/a/c"]).1) = 2.
Proof.
  refine (proj1 (proj2 (hits_count_routed (G := RouterDemo.globber)
                          (D := RouterDemo.decoder) RouterDemo.two_routes
                          [RouterDemo.get_request "/a/b"; RouterDemo.get_request "/nowhere";
                           RouterDemo.get_request "/a/c"] _))).
  reflexivity.
Defined.

(** ** The unified parameters *)

Section Parameters.
Context {D : Decoder}.
Implicit Types (r : HttpRequest) (params : gmap string Value).

Lemma assign_first_lookup values params k :
  assign_first values params !! k
  = match first_value values k with
    | Some v => Some v
    | None => params !! k
    end.
Proof.
  unfold assign_first.
  apply (map_fold_weak_ind
           (fun res m => res !! k = match first_value m k with
                                    | Some v => Some v
                                    | None => params !! k
                                    end)).
  - unfold first_value. now rewrite lookup_empty.
  - intros i x m res Hi IH. unfold first_value in *.
    destruct (decide (i = k)) as [->|N].
    + rewrite lookup_insert_eq. rewrite Hi in IH.
      destruct x as [|v0 x]; [exact IH|now rewrite lookup_insert_eq].
    + rewrite (lookup_insert_ne m) by done.
      destruct x as [|v0 x]; [exact IH|]. now rewrite lookup_insert_ne by done.
Qed.

Lemma assign_nonempty_lookup params_uri params k :
  assign_nonempty params_uri params !! k
  = match path_value params_uri k with
    | Some v => Some v
    | None => params !! k
    end.
Proof.
  unfold assign_nonempty.
  apply (map_fold_weak_ind
           (fun res m => res !! k = match path_value m k with
                                    | Some v => Some v
                                    | None => params !! k
                                    end)).
  - unfold path_value. now rewrite lookup_empty.
  - intros i x m res Hi IH. unfold path_value in *.
    assert (Hx : (0 <? String.length x)%nat = negb (String.eqb x "")).
    { now destruct x. }
    rewrite Hx.
    destruct (decide (i = k)) as [->|N].
    + rewrite lookup_insert_eq. rewrite Hi in IH.
      destruct (String.eqb x ""); simpl; [exact IH|now rewrite lookup_insert_eq].
    + rewrite (lookup_insert_ne m) by done.
      destruct (String.eqb x ""); simpl; [exact IH|]. now rewrite lookup_insert_ne by done.
Qed.

Lemma assign_all_lookup (j : gmap string Value) params k :
  assign_all j params !! k
  = match j !! k with
    | Some v => Some v
    | None => params !! k
    end.
Proof.
  unfold assign_all.
  apply (map_fold_weak_ind
           (fun res (m : gmap string Value) =>
              res !! k = match m !! k with
                         | Some v => Some v
                         | None => params !! k
                         end)).
  - now rewrite lookup_empty.
  - intros i x m res Hi IH.
    destruct (decide (i = k)) as [->|N].
    + now rewrite !lookup_insert_eq.
    + now rewrite !lookup_insert_ne by done.
Qed.

Lemma parameters_lookup r params_uri ctx k :
  parameters r params_uri = (ctx, None) ->
  HttpParameters ctx !! k
  = first_some [body_value r k; path_value params_uri k; first_value (URL_Query r) k].
Proof.
  unfold parameters, body_value, is_form, is_json.
  destruct (GoSubstrings.HasPrefix _ "application/json") eqn:J.
  - destruct (Body r) as [body|e]; [|discriminate].
    intros [= <-]. unfold HttpParameters. simpl.
    destruct (json_Unmarshal body) as [j|e].
    + rewrite assign_all_lookup, assign_nonempty_lookup, assign_first_lookup, lookup_empty.
      destruct (j !! k), (path_value params_uri k), (first_value (URL_Query r) k); reflexivity.
    + rewrite assign_nonempty_lookup, assign_first_lookup, lookup_empty.
      destruct (path_value params_uri k), (first_value (URL_Query r) k); reflexivity.
  - simpl negb. simpl andb.
    destruct (_ || _).
    + destruct (Form r) as [form|e]; [|discriminate].
      intros [= <-]. unfold HttpParameters. simpl.
      rewrite !assign_first_lookup, assign_nonempty_lookup, assign_first_lookup, lookup_empty.
      destruct (first_value form k), (path_value params_uri k),
        (first_value (URL_Query r) k); reflexivity.
    + intros [= <-]. unfold HttpParameters. simpl.
      rewrite assign_nonempty_lookup, assign_first_lookup, lookup_empty.
      destruct (path_value params_uri k), (first_value (URL_Query r) k); reflexivity.
Qed.

(** X6. The unified parameters are layered: under every key, the value
    of the decoded body (the JSON object, or the first form value) wins
    over the named parameter of the route, which wins over the first
    value of the query string; an empty route parameter and an empty
    list of values define nothing. A JSON body that does not decode is
    ignored, but is still stored raw; the call fails only when the body
    of a JSON request cannot be read or the form of a form request
    cannot be parsed, and then no parameter is stored at all. *)
Theorem parameters_layers r params_uri :
  (forall ctx k,
      parameters r params_uri = (ctx, None) ->
      HttpParameters ctx !! k
      = first_some [body_value r k; path_value params_uri k;
                    first_value (URL_Query r) k]) /\
  (forall ctx e,
      parameters r params_uri = (ctx, Some e) ->
      HttpParameters ctx = ∅ /\ request_body ctx = None /\
      ((is_json r = true /\ Body r = inr e) \/ (is_form r = true /\ Form r = inr e))) /\
  (forall body,
      is_json r = true -> Body r = inl body ->
      exists params,
        parameters r params_uri
        = ({| request_params := Some params; request_body := Some body |}, None)) /\
  (is_json r = false -> is_form r = false ->
   exists params,
     parameters r params_uri
     = ({| request_params := Some params; request_body := None |}, None) /\
     forall k, params !! k
               = first_some [path_value params_uri k; first_value (URL_Query r) k]).
Proof.
  split; [intros ctx k; apply parameters_lookup|].
  split; [|split].
  - intros ctx e. unfold parameters, is_form, is_json.
    destruct (GoSubstrings.HasPrefix _ "application/json") eqn:J.
    + destruct (Body r) as [body|e']; [discriminate|].
      intros [= <- <-]. auto.
    + simpl. destruct (_ || _); [|discriminate].
      destruct (Form r) as [form|e']; [discriminate|].
      intros [= <- <-]. auto.
  - intros body J B. unfold parameters. unfold is_json in J. rewrite J, B. eauto.
  - intros J Fm. unfold is_form in Fm. rewrite J in Fm. simpl in Fm.
    unfold is_json in J. unfold parameters. rewrite J, Fm.
    eexists. split; [reflexivity|]. intros k.
    rewrite assign_nonempty_lookup, assign_first_lookup, lookup_empty. simpl.
    destruct (path_value params_uri k), (first_value (URL_Query r) k); reflexivity.
Qed.

(** X7. A callback is resolved from its body before its query string:
    when the request has no [X-Client-ID] header and the decoded body
    carries a non-empty [client_id] string, that is the client the
    callback is resolved to, whatever [client_id] or [observer_id] the
    route or the query string carry. *)
Theorem callback_id_from_body {E : External} r params_uri ctx (c : string) :
  parameters r params_uri = (ctx, None) ->
  req_Header_Get r "X-Client-ID" = "" ->
  body_value r "client_id" = Some (VString c) ->
  ConvertInto_string (VString c) = (c, true) ->
  c <> "" ->
  resolveClientID (WithContext r ctx) = c.
Proof.
  intros P Hh Hb Hc Hne.
  rewrite resolveClientID_priority.
  assert (Hp : parameter (WithContext r ctx) "client_id" = c).
  { unfold parameter, HttpParameterT_string, HttpParameterGeneric. simpl.
    rewrite (parameters_lookup r params_uri ctx "client_id" P), Hb. simpl.
    now rewrite Hc. }
  rewrite Hp. unfold Header_Get. simpl.
  unfold req_Header_Get in Hh. rewrite Hh. simpl.
  apply String.eqb_neq in Hne. now rewrite Hne.
Qed.

End Parameters.

Lemma parameters_layers_witness :
  let ctx := (parameters (D := RouterDemo.decoder) RouterDemo.json_callback
                {[ "page" := "7"; "client_id" := "" ]}).1 in
  HttpParameters ctx !! "client_id" = Some (VString "c9") /\
  HttpParameters ctx !! "page" = Some (VString "7") /\
  HttpParameters ctx !! "observer_id" = None.
Proof.
  intros ctx.
  pose proof (proj1 (parameters_layers (D := RouterDemo.decoder) RouterDemo.json_callback
                       {[ "page" := "7"; "client_id" := "" ]}) ctx) as K.
  split; [exact (K "client_id" eq_refl)|].
  split; [exact (K "page" eq_refl)|exact (K "observer_id" eq_refl)].
Defined.

Lemma callback_id_from_body_witness :
  resolveClientID (E := Demo.external)
    (WithContext RouterDemo.json_callback
       (parameters (D := RouterDemo.decoder) RouterDemo.json_callback ∅).1) = "c9".
Proof.
  apply (callback_id_from_body (D := RouterDemo.decoder) (E := Demo.external)
           RouterDemo.json_callback ∅); try reflexivity.
  discriminate.
Defined.

(** ** Identifiers and content types *)

Lemma below_cases (n : nat) (P : Z -> bool) :
  forallb P (map Z.of_nat (seq 0 n)) = true ->
  forall b, 0 <= b < Z.of_nat n -> P b = true.
Proof.
  intros HP b Hb. rewrite forallb_forall in HP. apply HP.
  apply in_map_iff. exists (Z.to_nat b). split; [lia|]. apply in_seq. lia.
Qed.

Lemma hex_digit_is_hex n : is_hex (hex_digit n) = true.
Proof.
  unfold hex_digit. generalize (Z.to_nat n). intros k.
  do 17 (destruct k as [|k]; [reflexivity|]). reflexivity.
Qed.

Lemma hex02_round_trip b :
  is_byte b -> unhex02 (hex_digit (Z.shiftr b 4)) (hex_digit (Z.land b 15)) = b.
Proof.
  intros Hb. apply Z.eqb_eq.
  apply (below_cases 256
           (fun b => unhex02 (hex_digit (Z.shiftr b 4)) (hex_digit (Z.land b 15)) =? b));
    [now vm_compute|exact Hb].
Qed.

Lemma version_nibble x :
  is_byte (Z.lor (Z.land x 15) 64) /\
  hex_digit (Z.shiftr (Z.lor (Z.land x 15) 64) 4) = "4"%char.
Proof.
  change 15 with (Z.ones 4). rewrite Z.land_ones by lia.
  assert (Hy : 0 <= x mod 2 ^ 4 < Z.of_nat 16) by (apply Z.mod_pos_bound; lia).
  pose proof (below_cases 16
                (fun y => (0 <=? Z.lor y 64) && (Z.lor y 64 <? 256) &&
                          Ascii.eqb (hex_digit (Z.shiftr (Z.lor y 64) 4)) "4")
                eq_refl _ Hy) as K.
  cbv beta in K. apply andb_true_iff in K as [K K3]. apply andb_true_iff in K as [K1 K2].
  apply Ascii.eqb_eq in K3. unfold is_byte. split; [lia|exact K3].
Qed.

Lemma variant_nibble x :
  is_byte (Z.lor (Z.land x 63) 128) /\
  In (hex_digit (Z.shiftr (Z.lor (Z.land x 63) 128) 4)) ["8"; "9"; "a"; "b"]%char.
Proof.
  change 63 with (Z.ones 6). rewrite Z.land_ones by lia.
  assert (Hy : 0 <= x mod 2 ^ 6 < Z.of_nat 64) by (apply Z.mod_pos_bound; lia).
  pose proof (below_cases 64
                (fun y => (0 <=? Z.lor y 128) && (Z.lor y 128 <? 256) &&
                          existsb (Ascii.eqb (hex_digit (Z.shiftr (Z.lor y 128) 4)))
                            ["8"; "9"; "a"; "b"]%char)
                eq_refl _ Hy) as K.
  cbv beta in K. apply andb_true_iff in K as [K K3]. apply andb_true_iff in K as [K1 K2].
  apply existsb_exists in K3 as (c & Hc & Ec). apply Ascii.eqb_eq in Ec. subst c.
  unfold is_byte. split; [lia|exact Hc].
Qed.

(** X8. [CreateFastUniqueIdentifier] formats its 16 random bytes as a
    version-4 identifier: 36 characters, hyphens at the positions 8, 13,
    18 and 23 and lower-case hexadecimal digits everywhere else, the
    digit [4] at position 14 and one of [8], [9], [a], [b] at position
    19. Read back, the identifier spells the random bytes, with only the
    high four bits of byte 6 and the high two bits of byte 8
    overwritten. *)
Theorem CreateFastUniqueIdentifier_v4 (random : list Z) :
  length random = 16%nat -> Forall is_byte random ->
  let id := CreateFastUniqueIdentifier random in
  String.length id = 36%nat /\
  (forall i, In i [8; 13; 18; 23]%nat -> String.get i id = Some "-"%char) /\
  String.get 14 id = Some "4"%char /\
  (exists c, String.get 19 id = Some c /\ In c ["8"; "9"; "a"; "b"]%char) /\
  (forall i c, String.get i id = Some c -> ~ In i [8; 13; 18; 23]%nat ->
               is_hex c = true) /\
  identifier_bytes id
  = <[8%nat := Z.lor (Z.land (random !!! 8%nat) 63) 128]>
      (<[6%nat := Z.lor (Z.land (random !!! 6%nat) 15) 64]> random).
Proof.
  intros Hlen Hbytes.
  do 16 (destruct random as [|? random]; [discriminate Hlen|]).
  destruct random; [|discriminate Hlen]. clear Hlen.
  repeat match goal with
         | HF : Forall is_byte (_ :: _) |- _ => apply Forall_cons in HF as [? HF]
         end.
  intros id.
  split; [reflexivity|].
  split.
  { intros i Hi. simpl in Hi.
    destruct Hi as [<-|[<-|[<-|[<-|[]]]]]; reflexivity. }
  split.
  { subst id. unfold CreateFastUniqueIdentifier.
    change (String.get 14 _) with (Some (hex_digit (Z.shiftr (Z.lor (Z.land z5 15) 64) 4))).
    f_equal. apply version_nibble. }
  split.
  { eexists. split; [reflexivity|].
    change (In (hex_digit (Z.shiftr (Z.lor (Z.land z7 63) 128) 4)) ["8"; "9"; "a"; "b"]%char).
    apply variant_nibble. }
  split.
  { intros i c Hget Hdash.
    do 36 (destruct i as [|i];
           [first [ injection Hget as <-; apply hex_digit_is_hex
                  | exfalso; apply Hdash; simpl; tauto ]|]).
    discriminate Hget. }
  unfold identifier_bytes.
  lazy beta iota zeta
       delta [id CreateFastUniqueIdentifier String.append list_ascii_of_string nth hex02
              map insert list_insert lookup_total list_lookup_total].
  destruct (version_nibble z5) as [B6 _]. destruct (variant_nibble z7) as [B8 _].
  repeat (apply (f_equal2 cons); [apply hex02_round_trip; assumption|]).
  reflexivity.
Qed.

Lemma CreateFastUniqueIdentifier_v4_witness :
  CreateFastUniqueIdentifier RouterDemo.random16 = "00112233-4455-4677-8899-aabbccddeeff" /\
  String.get 14 (CreateFastUniqueIdentifier RouterDemo.random16) = Some "4"%char.
Proof.
  split; [reflexivity|].
  refine (proj1 (proj2 (proj2 (CreateFastUniqueIdentifier_v4 RouterDemo.random16 eq_refl _)))).
  unfold RouterDemo.random16, is_byte. repeat constructor; lia.
Defined.

Section ContentTypes.
Import GoSubstrings.

Lemma strip_chain p : forall q s r1 r2,
  GoStrings.strip p s = Some r1 -> GoStrings.strip q s = Some r2 ->
  (String.length p <= String.length q)%nat ->
  exists r, GoStrings.strip p q = Some r.
Proof.
  induction p as [|a p IH]; intros q s r1 r2 Sp Sq L; [simpl; eauto|].
  destruct s as [|b s]; [discriminate|].
  destruct q as [|c q]; [simpl in L; lia|].
  cbn [GoStrings.strip] in *.
  destruct (Ascii.eqb a b) eqn:Eab; [|discriminate].
  destruct (Ascii.eqb c b) eqn:Ecb; [|discriminate].
  apply Ascii.eqb_eq in Eab, Ecb. subst.
  rewrite (proj2 (Ascii.eqb_eq b b) eq_refl).
  apply (IH q s r1 r2 Sp Sq). simpl in L. lia.
Qed.

(** Of two suffixes of a string, one is a suffix of the other. *)
Lemma HasSuffix_chain s a b :
  HasSuffix s a = true -> HasSuffix s b = true ->
  HasSuffix a b = true \/ HasSuffix b a = true.
Proof.
  unfold HasSuffix, HasPrefix. intros Ha Hb.
  destruct (GoStrings.strip (GoStrings.reverse a) (GoStrings.reverse s)) as [ra|] eqn:Sa;
    [|discriminate].
  destruct (GoStrings.strip (GoStrings.reverse b) (GoStrings.reverse s)) as [rb|] eqn:Sb;
    [|discriminate].
  destruct (Nat.le_ge_cases (String.length (GoStrings.reverse a))
              (String.length (GoStrings.reverse b))) as [L|L].
  - right. destruct (strip_chain _ _ _ _ _ Sa Sb L) as [r ->]. reflexivity.
  - left. destruct (strip_chain _ _ _ _ _ Sb Sa L) as [r ->]. reflexivity.
Qed.

Lemma matchingSuffix_only (extensions : list string) filePath suffix :
  (forall a b, In a extensions -> In b extensions -> a <> b -> HasSuffix a b = false) ->
  In suffix extensions -> HasSuffix filePath suffix = true ->
  matchingSuffix extensions filePath = Some suffix.
Proof.
  induction extensions as [|e rest IH]; intros Hpair Hin Hs; [destruct Hin|].
  simpl. destruct (HasSuffix filePath e) eqn:He.
  - destruct (string_dec e suffix) as [->|N]; [reflexivity|]. exfalso.
    destruct (HasSuffix_chain filePath e suffix He Hs) as [K|K].
    + rewrite (Hpair e suffix) in K; [discriminate|now left|exact Hin|exact N].
    + rewrite (Hpair suffix e) in K; [discriminate|exact Hin|now left|congruence].
  - apply IH.
    + intros a b Ha Hb. apply Hpair; now right.
    + destruct Hin as [->|Hin]; [congruence|exact Hin].
    + exact Hs.
Qed.

Lemma Extensions_apart a b :
  In a Extensions -> In b Extensions -> a <> b -> HasSuffix a b = false.
Proof.
  unfold Extensions. simpl. intros Ha Hb N.
  repeat (destruct Ha as [<-|Ha]; [|]); try contradiction;
    repeat (destruct Hb as [<-|Hb]; [|]); try contradiction;
    first [reflexivity|congruence].
Qed.

(** X9. The content type [static] serves a file with is that of the
    file's extension, whatever the order of the [Extensions] table: a
    path that ends in one of the extensions ends in no other, so the
    loop stops at that extension; a path is not intercepted exactly when
    it ends in none of them; and every extension of the table has a
    case of its own in [getContentType], none but [.txt] falling to the
    [text/plain] default. *)
Theorem matchingSuffix_extension (filePath : string) :
  (forall suffix, In suffix Extensions -> HasSuffix filePath suffix = true ->
                  matchingSuffix Extensions filePath = Some suffix) /\
  (forall suffix, In suffix Extensions -> suffix <> ".txt" ->
                  getContentType suffix <> "text/plain") /\
  (forall suffix, matchingSuffix Extensions filePath = Some suffix ->
                  In suffix Extensions /\ HasSuffix filePath suffix = true) /\
  (matchingSuffix Extensions filePath = None <->
   forall suffix, In suffix Extensions -> HasSuffix filePath suffix = false).
Proof.
  split; [|split; [|split]].
  - intros suffix. apply matchingSuffix_only. exact Extensions_apart.
  - unfold Extensions. simpl. intros suffix Hin Hne.
    repeat (destruct Hin as [<-|Hin]; [first [discriminate|congruence]|]).
    destruct Hin.
  - generalize Extensions. intros exts suffix.
    induction exts as [|e rest IH]; [discriminate|]. simpl.
    destruct (HasSuffix filePath e) eqn:He.
    + intros [= <-]. split; [now left|exact He].
    + intros M. destruct (IH M). split; [now right|assumption].
  - generalize Extensions. intros exts.
    induction exts as [|e rest IH]; [split; [intros _ ? []|reflexivity]|]. simpl.
    destruct (HasSuffix filePath e) eqn:He.
    + split; [discriminate|]. intros K. rewrite (K e) in He; [discriminate|now left].
    + rewrite IH. split.
      * intros K suffix [<-|Hin]; [exact He|now apply K].
      * intros K suffix Hin. apply K. now right.
Qed.

End ContentTypes.

Lemma matchingSuffix_extension_witness :
  matchingSuffix Extensions "./static/app.min.json" = Some ".json" /\
  getContentType ".json" = "application/json".
Proof.
  split; [|reflexivity].
  refine (proj1 (matchingSuffix_extension "./static/app.min.json") ".json" _ eq_refl).
  simpl. tauto.
Defined.

(** * More properties of the SSE layer *)

(** ** The direct queue *)

Section Queue.
Context {H : Type}.
Implicit Types (s : SseSession H) (msg : SseMessage).

Lemma DirectMessage_rejected s msg :
  session_wf s -> closed s = false ->
  length (buf (direct_messages s)) = 256%nat ->
  DirectMessage s msg = Some (s, Some errBufferFull).
Proof.
  intros (Hcap & _ & Hopen) Hc Hlen. destruct (Hopen Hc) as [_ Hq].
  unfold DirectMessage, try_send. rewrite Hc, Hq, Hcap, Hlen. reflexivity.
Qed.

(** X10. On an open session, a batch of [DirectMessage] calls fills the
    free slots of the direct queue in order and loses nothing that was
    queued: with [free] slots left of the 256, the first [free] messages
    are accepted and appended to the queue in the order of the calls,
    every later one is refused with the buffer-full error, and none of
    the calls blocks, panics or closes the session. *)
Theorem DirectMessages_fifo s (msgs : list SseMessage) :
  session_wf s -> closed s = false ->
  let free := (256 - length (buf (direct_messages s)))%nat in
  exists s',
    DirectMessages s msgs = Some (s', accepted free msgs) /\
    buf (direct_messages s') = buf (direct_messages s) ++ take free msgs /\
    closed s' = false /\ session_wf s' /\
    client_id s' = client_id s /\ user_handler s' = user_handler s.
Proof.
  intros W Hc free. generalize (eq_refl : free = free). unfold free at 2. clearbody free.
  revert s free W Hc.
  induction msgs as [|msg rest IH]; intros s free W Hc Hfree.
  - exists s. unfold accepted. simpl. rewrite Nat.min_0_r, take_nil, !app_nil_r.
    simpl.
    split; [reflexivity|split; [reflexivity|split; [exact Hc|split; [exact W|]]]].
    split; reflexivity.
  - pose proof W as (Hcap & Hlen & _).
    destruct (decide (length (buf (direct_messages s)) < 256)%nat) as [Hlt|Hge].
    + pose proof (DirectMessage_enqueue s msg W Hc Hlt) as E.
      pose proof (DirectMessage_wf s msg _ _ W E) as W1.
      set (s1 := set_direct_messages s _) in *.
      destruct (IH s1 (free - 1)%nat W1 Hc) as (s' & R & B & C & W' & I & U).
      { simpl. rewrite length_app. simpl. lia. }
      exists s'. simpl. rewrite E, R.
      destruct free as [|free]; [lia|].
      replace (S free - 1)%nat with free in * by lia.
      split; [|split; [|auto]].
      * unfold accepted. simpl. reflexivity.
      * rewrite B. simpl. now rewrite <- app_assoc.
    + assert (Hfull : length (buf (direct_messages s)) = 256%nat) by lia.
      pose proof (DirectMessage_rejected s msg W Hc Hfull) as E.
      destruct (IH s free W Hc Hfree) as (s' & R & B & C & W' & I & U).
      exists s'. simpl. rewrite E, R.
      assert (free = 0%nat) as -> by lia.
      split; [|split; [|auto]].
      * unfold accepted. simpl. now rewrite Nat.sub_0_r.
      * rewrite B. reflexivity.
Qed.

End Queue.

Lemma DirectMessages_fifo_witness :
  exists s',
    DirectMessages (Demo.fill 255 Demo.open_session) [pingMsg 1; pingMsg 2; pingMsg 3]
    = Some (s', [None; Some errBufferFull; Some errBufferFull]) /\
    buf (direct_messages s') = repeat Demo.msg_x 255 ++ [pingMsg 1].
Proof.
  assert (W : session_wf (Demo.fill 255 Demo.open_session)).
  { split; [reflexivity|]. split; [vm_compute; lia|]. intros _. split; reflexivity. }
  destruct (DirectMessages_fifo (Demo.fill 255 Demo.open_session)
              [pingMsg 1; pingMsg 2; pingMsg 3] W eq_refl)
    as (s' & R & B & _).
  exists s'. split; [exact R|exact B].
Defined.

(** ** A broken transport *)

Section Broken.
Context {E : External} {H : Type} {HH : SseEventHandler H}.
Implicit Types (st : State H) (s : SseSession H) (msg : SseMessage) (t : Ticker).

Lemma WriteError_run e st :
  WriteError e st = Some (tt, set_resp (error_response e) st, [AWriteError e]).
Proof. reflexivity. Qed.

Lemma pass_on_broken t msg st f st' tr :
  broken (resp st) = true ->
  pass_on t msg st = Some (f, st', tr) ->
  resp st' = resp st /\ f = Return /\
  (tr = [] \/ (exists e, tr = [AWriteError e]) \/ exists b, tr = [AWrite b false]).
Proof.
  intros Hb R. unfold pass_on in R. destruct (Encode msg) as [frame|err].
  - apply bind_Some in R. destruct R as (ok & st1 & t1 & t2 & RW & R & ->).
    apply Write_Some in RW. destruct RW as (-> & -> & ->).
    rewrite Hb in *. simpl in R. apply ret_Some in R. destruct R as (-> & -> & ->).
    split; [reflexivity|]. split; [reflexivity|]. right. right. now exists frame.
  - rewrite (bind_run _ _ _ _ _ _ (WriteError_run err st)) in R.
    unfold ret in R. injection R as <- <- <-.
    split; [|split; [reflexivity|right; left; now exists err]].
    simpl. unfold error_response. now rewrite Hb.
Qed.

Lemma deliver_broken r p t msg st f st' tr :
  broken (resp st) = true ->
  deliver r p t msg st = Some (f, st', tr) ->
  resp st' = resp st /\
  forall b ok, In (AWrite b ok) tr ->
               ok = false /\ f = Return /\ exists pre, tr = pre ++ [AWrite b false].
Proof.
  intros Hb R. rewrite deliver_unfold in R.
  apply bind_Some in R. destruct R as (skip & st1 & t1 & t2 & RF & R & ->).
  pose proof (filtered_now _ _ _ _ _ _ _ RF) as (_ & Hr).
  pose proof (fun b ok => filtered_no_write _ _ _ _ _ _ _ b ok RF) as Hnw.
  destruct skip.
  - apply ret_Some in R. destruct R as (-> & -> & ->).
    split; [exact Hr|]. intros b ok Hin. rewrite app_nil_r in Hin. now apply Hnw in Hin.
  - apply pass_on_broken in R; [|now rewrite Hr]. destruct R as (Hr2 & -> & Ht).
    split; [now rewrite Hr2|]. intros b ok Hin.
    apply in_app_or in Hin as [Hin|Hin]; [now apply Hnw in Hin|].
    destruct Ht as [->|[[e ->]|[b' ->]]]; simpl in Hin;
      try (destruct Hin as [Hin|[]]; try discriminate Hin); try contradiction.
    injection Hin as <- <-. split; [reflexivity|]. split; [reflexivity|]. now exists t1.
Qed.

Lemma deliver_ping_broken t st f st' (tr : list Action) :
  broken (resp st) = true ->
  deliver_ping t st = Some (f, st', tr) ->
  resp st' = resp st /\
  forall b ok, In (AWrite b ok) tr ->
               ok = false /\ f = Return /\ exists pre, tr = pre ++ [AWrite b false].
Proof.
  intros Hb R. unfold deliver_ping in R.
  apply bind_Some in R. destruct R as (st0 & st1 & t1 & t2 & RG & R & ->).
  apply get_Some in RG. destruct RG as (-> & -> & ->).
  destruct (Encode (pingMsg (now st))) as [frame|err].
  - apply bind_Some in R. destruct R as (ok & st1 & t3 & t4 & RW & R & ->).
    apply Write_Some in RW. destruct RW as (-> & -> & ->).
    rewrite Hb in *. simpl in R. apply ret_Some in R. destruct R as (-> & -> & ->).
    split; [reflexivity|]. intros b ok [Hin|[]]. injection Hin as <- <-.
    split; [reflexivity|]. split; [reflexivity|]. now exists [].
  - rewrite (bind_run _ _ _ _ _ _ (WriteError_run err st)) in R.
    unfold ret in R. injection R as <- <- <-.
    split; [simpl; unfold error_response; now rewrite Hb|].
    intros b ok [Hin|[]]. discriminate Hin.
Qed.

Lemma iterate_broken r p t round st f st' tr :
  broken (resp st) = true ->
  iterate r p t round st = Some (f, st', tr) ->
  (broken (resp st') = true /\ wire (resp st') = wire (resp st)) /\
  forall b ok, In (AWrite b ok) tr ->
               ok = false /\ f = Return /\ exists pre, tr = pre ++ [AWrite b false].
Proof.
  intros Hb R. destruct round as [[msg|]| | | |msg| |d|]; simpl in R.
  - apply deliver_broken in R; [|exact Hb]. destruct R as (Hr & Hw).
    rewrite Hr. auto.
  - apply ret_Some in R. destruct R as (-> & -> & ->). split; [auto|intros b ok []].
  - apply bind_Some in R. destruct R as (s & st1 & t1 & t2 & RL & R & ->).
    apply load_Some in RL. destruct RL as (Hs & -> & ->).
    destruct (try_recv (direct_messages s)) as [v c| |].
    + apply bind_Some in R. destruct R as (u & st1 & t3 & t4 & RS & R & ->).
      apply store_Some in RS. destruct RS as (-> & ->).
      apply deliver_broken in R; [|exact Hb]. destruct R as (Hr & Hw).
      rewrite Hr. auto.
    + apply ret_Some in R. destruct R as (-> & -> & ->). split; [auto|intros b ok []].
    + apply ret_Some in R. destruct R as (-> & -> & ->). split; [auto|intros b ok []].
  - apply bind_Some in R. destruct R as (st0 & st1 & t1 & t2 & RG & R & ->).
    apply get_Some in RG. destruct RG as (-> & -> & ->).
    destruct (Ticker_ready t (now st)).
    + apply deliver_ping_broken in R; [|exact Hb]. destruct R as (Hr & Hw).
      rewrite Hr. auto.
    + apply ret_Some in R. destruct R as (-> & -> & ->). split; [auto|intros b ok []].
  - apply ret_Some in R. destruct R as (-> & -> & ->). split; [auto|intros b ok []].
  - apply bind_Some in R. destruct R as (e & st1 & t1 & t2 & RD & R & ->).
    apply ret_Some in R. destruct R as (-> & -> & ->).
    unfold session_DirectMessage in RD.
    apply bind_Some in RD. destruct RD as (s & st2 & t3 & t4 & RL & RD & ->).
    apply load_Some in RL. destruct RL as (Hs & -> & ->).
    destruct (DirectMessage s msg) as [[s' e']|]; [|discriminate].
    run_all. split; [auto|intros b ok []].
  - apply bind_Some in R. destruct R as (e & st1 & t1 & t2 & RD & R & ->).
    apply ret_Some in R. destruct R as (-> & -> & ->).
    unfold session_Close in RD.
    apply bind_Some in RD. destruct RD as (s & st2 & t3 & t4 & RL & RD & ->).
    apply load_Some in RL. destruct RL as (Hs & -> & ->).
    destruct (Close s) as [[s' rel]|]; [|discriminate].
    run_all. split; [auto|]. intros b ok [Hin|[]]. discriminate Hin.
  - run_all. split; [auto|intros b ok []].
  - run_all. split; [auto|intros b ok []].
Qed.

(** X11. Once the transport is broken nothing more reaches the wire
    and the connection ends at its next write: over any schedule the
    loop leaves the wire as it was, no write succeeds, and a write that
    is attempted fails, is the last action of the loop, and makes the
    handler function return. *)
Theorem broken_transport r p sched : forall t st e st' tr,
  broken (resp st) = true ->
  multiplex r p t sched st = Some (e, st', tr) ->
  wire (resp st') = wire (resp st) /\ broken (resp st') = true /\
  writes tr = 0%nat /\ write_fails e tr.
Proof.
  assert (Hmain : forall t st e st' tr,
            broken (resp st) = true ->
            multiplex r p t sched st = Some (e, st', tr) ->
            wire (resp st') = wire (resp st) /\ broken (resp st') = true /\
            write_fails e tr).
  { induction sched as [|round rest IH]; intros t st e st' tr Hb R; simpl in R.
    - apply ret_Some in R. destruct R as (-> & -> & ->).
      split; [reflexivity|]. split; [exact Hb|]. intros b ok [].
    - apply bind_Some in R. destruct R as (f & st1 & t1 & t2 & RI & R & ->).
      apply iterate_broken in RI; [|exact Hb]. destruct RI as ((Hb1 & Hw1) & Hf).
      destruct f as [t'|].
      + apply IH in R; [|exact Hb1]. destruct R as (Hw2 & Hb2 & Hf2).
        split; [congruence|]. split; [exact Hb2|].
        intros b ok Hin. apply in_app_or in Hin as [Hin|Hin].
        * destruct (Hf b ok Hin) as (_ & D & _). discriminate D.
        * destruct (Hf2 b ok Hin) as (-> & -> & pre & ->).
          split; [reflexivity|]. split; [reflexivity|].
          exists (t1 ++ pre). now rewrite app_assoc.
      + apply ret_Some in R. destruct R as (-> & -> & ->).
        split; [exact Hw1|]. split; [exact Hb1|].
        intros b ok Hin. rewrite app_nil_r in Hin |- *.
        destruct (Hf b ok Hin) as (-> & _ & pre & ->). eauto. }
  intros t st e st' tr Hb R.
  destruct (Hmain t st e st' tr Hb R) as (Hw & Hb' & Hf).
  split; [exact Hw|]. split; [exact Hb'|]. split; [|exact Hf].
  unfold writes. apply length_zero_iff_nil.
  destruct (List.filter written tr) as [|a l] eqn:Ef; [reflexivity|].
  assert (Hin : In a (List.filter written tr)) by (rewrite Ef; now left).
  apply filter_In in Hin as [Hin Hwr].
  destruct a; try discriminate Hwr. destruct ok; [|discriminate Hwr].
  destruct (Hf _ _ Hin) as (D & _). discriminate D.
Qed.

End Broken.

Lemma broken_transport_witness :
  let run :=
    multiplex (E := Demo.external) (HH := Demo.handler) Demo.stream_request 0%nat
      (NewTicker pingInterval 1000)
      [EvBroadcast (Some Demo.msg_x); EvBroadcast (Some Demo.msg_x)]
      (set_resp (fun w => {| is_flusher := true; broken := true; wire := wire w |})
         (Demo.serving (Demo.script None None true) Demo.writer)) in
  writes (trace_of run) = 0%nat /\
  (fun st => wire (resp st)) <$> state_of run = Some [].
Proof.
  intros run. destruct run as [[[e st'] tr]|] eqn:R; subst run.
  - pose proof (fun Hb => broken_transport _ _ _ _ _ _ _ _ Hb R) as K.
    destruct (K eq_refl) as (Hw & _ & Hz & _).
    split; [exact Hz|]. simpl. now rewrite Hw.
  - vm_compute in R. discriminate R.
Defined.

(** ** Broadcasts on a healthy connection *)

Section Relay.
Context {E : External} {H : Type} {HH : SseEventHandler H}.
Implicit Types (st : State H) (s : SseSession H) (msg : SseMessage) (t : Ticker).

Lemma pass_on_delivers t msg st frame :
  Encode msg = inl frame -> broken (resp st) = false ->
  exists t' tr,
    pass_on t msg st = Some (Continue t', set_resp (add_frame frame) st, tr) /\
    writes tr = 1%nat.
Proof.
  intros HE Hb. unfold pass_on. rewrite HE.
  unfold Write, bind, get, modify, emit, ret. rewrite Hb. simpl.
  destruct (is_flusher (resp st)); simpl; eauto.
Qed.

(** One broadcast on a connection whose transport works: the handler,
    if there is one, is asked, and the frame is written when it lets
    the message through. *)
Lemma deliver_relay r p t msg st s frame :
  heap st !! p = Some s -> broken (resp st) = false -> Encode msg = inl frame ->
  exists t' st1 s1 tr,
    deliver r p t msg st = Some (Continue t', st1, tr) /\
    heap st1 !! p = Some s1 /\ direct_messages s1 = direct_messages s /\
    clients st1 = clients st /\ broken (resp st1) = false /\
    user_handler s1 = match user_handler s with
                      | Some h => Some (OnMessage h r msg).1
                      | None => None
                      end /\
    wire (resp st1) = wire (resp st) ++ relayed r (user_handler s) [msg] ≫= (fun _ => [frame]) /\
    writes tr = length (relayed r (user_handler s) [msg]).
Proof.
  intros Hs Hb HE. rewrite deliver_unfold.
  destruct (user_handler s) as [h|] eqn:Hh.
  - rewrite (bind_run _ _ _ _ _ _ (filtered_handler r p msg st s h Hs Hh)).
    simpl relayed. destruct (OnMessage h r msg) as [h' pass]. simpl.
    set (st1 := set_heap _ st).
    destruct pass; simpl.
    + destruct (pass_on_delivers t msg st1 frame HE Hb) as (t' & tr & R & Hw).
      rewrite R. exists t', (set_resp (add_frame frame) st1). eexists. eexists.
      split; [reflexivity|]. split; [apply lookup_insert_eq|].
      repeat split; auto.
    + exists t, st1. eexists. eexists.
      split; [reflexivity|]. split; [apply lookup_insert_eq|].
      repeat split; auto; simpl; now rewrite ?app_nil_r.
  - rewrite (bind_run _ _ _ _ _ _ (filtered_nil r p msg st s Hs Hh)). simpl.
    destruct (pass_on_delivers t msg st frame HE Hb) as (t' & tr & R & Hw).
    rewrite R. exists t', (set_resp (add_frame frame) st), s, tr.
    repeat split; auto.
Qed.

Lemma relayed_cons r (uh : option H) msg (rest : list SseMessage) :
  relayed r uh (msg :: rest)
  = relayed r uh [msg]
    ++ relayed r (match uh with
                  | Some h => Some (OnMessage h r msg).1
                  | None => None
                  end) rest.
Proof.
  destruct uh as [h|]; simpl; [|reflexivity].
  destruct (OnMessage h r msg) as [h' pass]. now destruct pass.
Qed.

(** X12. On a connection whose transport works, broadcasts are relayed
    in the order they arrive and none is lost or repeated: after the
    loop has taken a list of broadcasts that all encode, the wire holds,
    behind what it held, the frames of exactly those messages that
    [OnMessage] let through (each call sees the handler as the call
    before left it; without a handler all pass), in arrival order; the
    loop is still running, and the direct queue and the registry are
    untouched. *)
Theorem broadcasts_relayed r p (msgs : list SseMessage) : forall t st s,
  heap st !! p = Some s -> broken (resp st) = false ->
  Forall (fun msg => exists frame, Encode msg = inl frame) msgs ->
  exists st' tr s',
    multiplex r p t (broadcasts msgs) st = Some (Blocked, st', tr) /\
    map inl (wire (resp st'))
    = map inl (wire (resp st)) ++ map Encode (relayed r (user_handler s) msgs) /\
    writes tr = length (relayed r (user_handler s) msgs) /\
    heap st' !! p = Some s' /\ direct_messages s' = direct_messages s /\
    clients st' = clients st.
Proof.
  induction msgs as [|msg rest IH]; intros t st s Hs Hb HF.
  - exists st, [], s. simpl. rewrite app_nil_r. repeat split; auto.
  - apply Forall_cons in HF as [[frame HE] HF].
    destruct (deliver_relay r p t msg st s frame Hs Hb HE)
      as (t' & st1 & s1 & tr1 & RD & Hs1 & Hq1 & Hc1 & Hb1 & Hh1 & Hw1 & Hn1).
    destruct (IH t' st1 s1 Hs1 Hb1 HF) as (st' & tr & s' & RM & Hw & Hn & Hs' & Hq & Hc).
    exists st', (tr1 ++ tr), s'.
    split.
    { change (multiplex r p t (broadcasts (msg :: rest)) st)
        with (bind (deliver r p t msg)
                (fun f => match f with
                          | Continue t' => multiplex r p t' (broadcasts rest)
                          | Return => ret Returned
                          end) st).
      rewrite (bind_run _ _ _ _ _ _ RD), RM. reflexivity. }
    rewrite relayed_cons, <- Hh1.
    split; [|split; [|split; [exact Hs'|split; congruence]]].
    + rewrite Hw, Hw1, !map_app, <- app_assoc. f_equal. f_equal.
      destruct (relayed r (user_handler s) [msg]) as [|m [|m' l]] eqn:Er; simpl.
      * reflexivity.
      * assert (m = msg) as ->.
        { clear - Er. destruct (user_handler s) as [h|]; simpl in Er.
          - destruct (OnMessage h r msg) as [h' []]; now inversion Er.
          - now inversion Er. }
        now rewrite HE.
      * exfalso. clear - Er. destruct (user_handler s) as [h|]; simpl in Er.
        -- destruct (OnMessage h r msg) as [h' []]; discriminate Er.
        -- discriminate Er.
    + rewrite writes_app, Hn1, Hn, length_app. reflexivity.
Qed.

End Relay.

Lemma broadcasts_relayed_witness :
  exists st' tr s',
    multiplex (E := Demo.external) (HH := Demo.handler) Demo.stream_request 0%nat
      (NewTicker pingInterval 1000) (broadcasts [Demo.msg_x; pingMsg 7])
      (Demo.serving (Demo.script None None true) Demo.writer)
    = Some (Blocked, st', tr) /\
    map inl (wire (resp st')) = [Demo.frame Demo.msg_x; Demo.frame (pingMsg 7)] /\
    writes tr = 2%nat /\
    heap st' !! 0%nat = Some s' /\
    direct_messages s' = direct_messages (Demo.attached (Demo.script None None true)) /\
    clients st' = {[ "c1" := 0%nat ]}.
Proof.
  refine (broadcasts_relayed (E := Demo.external) (HH := Demo.handler)
            Demo.stream_request 0%nat [Demo.msg_x; pingMsg 7]
            (NewTicker pingInterval 1000)
            (Demo.serving (Demo.script None None true) Demo.writer)
            (Demo.attached (Demo.script None None true)) eq_refl eq_refl _).
  repeat constructor; eexists; reflexivity.
Defined.

(** ** Direct messages on a healthy connection *)

Section Direct.
Context {E : External} {H : Type} {HH : SseEventHandler H}.
Implicit Types (st : State H) (s : SseSession H) (msg : SseMessage) (t : Ticker).

(** Other goroutines queue messages while the loop waits. *)
Lemma multiplex_queue r p t (sched : list Turn) (msgs : list SseMessage) : forall st s,
  heap st !! p = Some s -> session_wf s -> closed s = false ->
  (length (buf (direct_messages s)) + length msgs <= 256)%nat ->
  exists st1 s1,
    multiplex r p t (map EnvDirectMessage msgs ++ sched) st = multiplex r p t sched st1 /\
    heap st1 !! p = Some s1 /\
    buf (direct_messages s1) = buf (direct_messages s) ++ msgs /\
    chan_closed (direct_messages s1) = false /\
    user_handler s1 = user_handler s /\ resp st1 = resp st /\ clients st1 = clients st.
Proof.
  induction msgs as [|msg rest IH]; intros st s Hs W Hc Hlen.
  - exists st, s. simpl. rewrite app_nil_r.
    destruct W as (_ & _ & Hopen). destruct (Hopen Hc) as [_ Hq]. repeat split; auto.
  - simpl in Hlen.
    assert (Hlt : (length (buf (direct_messages s)) < 256)%nat) by lia.
    pose proof (DirectMessage_enqueue s msg W Hc Hlt) as En.
    pose proof (DirectMessage_wf s msg _ _ W En) as W1.
    set (s1 := set_direct_messages s _) in *.
    set (st1 := set_heap (insert p s1) st).
    destruct (IH st1 s1) as (st2 & s2 & R & Hs2 & B & Q & U & Rp & C);
      [apply lookup_insert_eq|exact W1|exact Hc|simpl; rewrite length_app; simpl; lia|].
    exists st2, s2.
    split; [|split; [exact Hs2|split; [|auto]]].
    + rewrite <- R.
      change (multiplex r p t (map EnvDirectMessage (msg :: rest) ++ sched) st)
        with (bind (bind (session_DirectMessage p msg) (fun _ => ret (Continue t)))
                (fun f => match f with
                          | Continue t' =>
                              multiplex r p t' (map EnvDirectMessage rest ++ sched)
                          | Return => ret Returned
                          end) st).
      assert (RD : session_DirectMessage p msg st = Some (None, st1, [])).
      { unfold session_DirectMessage.
        rewrite (bind_run _ _ st s st []); [|unfold load; now rewrite Hs].
        rewrite En. reflexivity. }
      rewrite (bind_run _ _ _ (Continue t) st1 []);
        [|rewrite (bind_run _ _ _ _ _ _ RD); reflexivity].
      destruct (multiplex r p t (map EnvDirectMessage rest ++ sched) st1)
        as [[[e st'] tr]|]; reflexivity.
    + rewrite B. simpl. now rewrite <- app_assoc.
Qed.

(** The loop polls a queue that holds [q]. *)
Lemma multiplex_drain r p (q : list SseMessage) : forall t st s,
  heap st !! p = Some s -> buf (direct_messages s) = q ->
  broken (resp st) = false ->
  Forall (fun msg => exists frame, Encode msg = inl frame) q ->
  exists st' tr s',
    multiplex r p t (repeat EvDirect (length q)) st = Some (Blocked, st', tr) /\
    map inl (wire (resp st'))
    = map inl (wire (resp st)) ++ map Encode (relayed r (user_handler s) q) /\
    writes tr = length (relayed r (user_handler s) q) /\
    heap st' !! p = Some s' /\ buf (direct_messages s') = [] /\
    clients st' = clients st.
Proof.
  induction q as [|msg rest IH]; intros t st s Hs Hq Hb HF.
  - exists st, [], s. simpl. rewrite app_nil_r. repeat split; auto.
  - apply Forall_cons in HF as [[frame HE] HF].
    set (s0 := set_direct_messages s
                 {| buf := rest; cap := cap (direct_messages s);
                    chan_closed := chan_closed (direct_messages s) |}).
    set (st0 := set_heap (insert p s0) st).
    pose proof (iterate_direct r p t st s msg rest Hs Hq) as RI. fold s0 st0 in RI.
    destruct (deliver_relay r p t msg st0 s0 frame)
      as (t' & st1 & s1 & tr1 & RD & Hs1 & Hq1 & Hc1 & Hb1 & Hh1 & Hw1 & Hn1);
      [apply lookup_insert_eq|exact Hb|exact HE|].
    destruct (IH t' st1 s1 Hs1) as (st' & tr & s' & RM & Hw & Hn & Hs' & Hq' & Hc);
      [now rewrite Hq1|exact Hb1|exact HF|].
    exists st', (tr1 ++ tr), s'.
    split.
    { change (multiplex r p t (repeat EvDirect (length (msg :: rest))) st)
        with (bind (iterate r p t EvDirect)
                (fun f => match f with
                          | Continue t' => multiplex r p t' (repeat EvDirect (length rest))
                          | Return => ret Returned
                          end) st).
      rewrite (bind_run _ _ _ _ _ _ (eq_trans RI RD)), RM. reflexivity. }
    change (user_handler s0) with (user_handler s) in *.
    rewrite relayed_cons, <- Hh1.
    split; [|split; [|split; [exact Hs'|split; [exact Hq'|now rewrite Hc, Hc1]]]].
    + rewrite Hw, Hw1, !map_app, <- app_assoc. f_equal. f_equal.
      destruct (relayed r (user_handler s) [msg]) as [|m [|m' l]] eqn:Er; simpl.
      * reflexivity.
      * assert (m = msg) as ->.
        { clear - Er. destruct (user_handler s) as [h|]; simpl in Er.
          - destruct (OnMessage h r msg) as [h' []]; now inversion Er.
          - now inversion Er. }
        now rewrite HE.
      * exfalso. clear - Er. destruct (user_handler s) as [h|]; simpl in Er.
        -- destruct (OnMessage h r msg) as [h' []]; discriminate Er.
        -- discriminate Er.
    + rewrite writes_app, Hn1, Hn, length_app. reflexivity.
Qed.

(** X18. Direct messages are written in the order they were sent. When
    other goroutines call [DirectMessage] with the messages of a list
    while there is room for them in the queue of an open session, and
    the loop then polls the direct queue once per queued message on a
    transport that works, the wire receives, behind what it held, the
    frames of what was queued before followed by those of the new
    messages, in that order and each once (less what [OnMessage]
    filters out), and the queue is left empty with the loop still
    running. *)
Theorem direct_messages_in_order r p t st s (msgs : list SseMessage) :
  heap st !! p = Some s -> session_wf s -> closed s = false ->
  broken (resp st) = false ->
  (length (buf (direct_messages s)) + length msgs <= 256)%nat ->
  Forall (fun msg => exists frame, Encode msg = inl frame)
    (buf (direct_messages s) ++ msgs) ->
  exists st' tr s',
    multiplex r p t
      (queue_then_poll msgs (length (buf (direct_messages s) ++ msgs))) st
    = Some (Blocked, st', tr) /\
    map inl (wire (resp st'))
    = map inl (wire (resp st))
      ++ map Encode (relayed r (user_handler s) (buf (direct_messages s) ++ msgs)) /\
    writes tr = length (relayed r (user_handler s) (buf (direct_messages s) ++ msgs)) /\
    heap st' !! p = Some s' /\ buf (direct_messages s') = [] /\
    clients st' = clients st.
Proof.
  intros Hs W Hc Hb Hlen HF. unfold queue_then_poll.
  destruct (multiplex_queue r p t
              (repeat EvDirect (length (buf (direct_messages s) ++ msgs))) msgs st s
              Hs W Hc Hlen)
    as (st1 & s1 & R & Hs1 & B & Q & U & Rp & C).
  rewrite R.
  destruct (multiplex_drain r p (buf (direct_messages s) ++ msgs) t st1 s1 Hs1 B)
    as (st' & tr & s' & RM & Hw & Hn & Hs' & Hq' & Hc');
    [now rewrite Rp|exact HF|].
  exists st', tr, s'. rewrite RM, <- U, <- Rp, <- C. auto 10.
Qed.

End Direct.

Lemma direct_messages_in_order_witness :
  exists st' tr s',
    multiplex (E := Demo.external) (HH := Demo.handler) Demo.stream_request 0%nat
      (NewTicker pingInterval 1000) (queue_then_poll [Demo.msg_x; pingMsg 7] 2)
      (Demo.serving (Demo.script None None true) Demo.writer)
    = Some (Blocked, st', tr) /\
    map inl (wire (resp st')) = [Demo.frame Demo.msg_x; Demo.frame (pingMsg 7)] /\
    writes tr = 2%nat /\
    heap st' !! 0%nat = Some s' /\ buf (direct_messages s') = [] /\
    clients st' = {[ "c1" := 0%nat ]}.
Proof.
  refine (direct_messages_in_order (E := Demo.external) (HH := Demo.handler)
            Demo.stream_request 0%nat (NewTicker pingInterval 1000)
            (Demo.serving (Demo.script None None true) Demo.writer)
            (Demo.attached (Demo.script None None true)) [Demo.msg_x; pingMsg 7]
            eq_refl _ eq_refl eq_refl _ _).
  - apply set_user_handler_wf, new_session_wf.
  - simpl. lia.
  - repeat constructor; eexists; reflexivity.
Defined.

(** ** Streams without a handler *)

Section Unhandled.
Context {E : External} {H : Type} {HH : SseEventHandler H}.
Implicit Types (st : State H) (s : SseSession H) (msg : SseMessage) (t : Ticker).

Lemma loop_action_hook (tr : list Action) :
  Forall loop_action tr -> forallb (fun a => negb (is_OnMessage a)) tr = true ->
  forallb (fun a => negb (is_hook a)) tr = true.
Proof.
  induction 1 as [|a tr Ha _ IH]; [reflexivity|]. simpl.
  intros Hn. apply andb_true_iff in Hn as [Hn1 Hn2].
  rewrite (IH Hn2), andb_true_r. destruct a; simpl in *; try reflexivity; try contradiction.
  discriminate Hn1.
Qed.

Lemma kept_unhandled p st st' s :
  kept p st st' -> heap st !! p = Some s -> user_handler s = None ->
  exists s', heap st' !! p = Some s' /\ user_handler s' = None /\
             client_id s' = client_id s /\ (session_wf s -> session_wf s').
Proof.
  intros (_ & _ & _ & _ & K) Hs Hh. destruct (K s Hs) as (s' & Hs' & I & U & W).
  exists s'. split; [exact Hs'|]. split; [now apply U|]. auto.
Qed.

Lemma deliver_unhandled r p t msg st s f st' tr :
  heap st !! p = Some s -> user_handler s = None ->
  deliver r p t msg st = Some (f, st', tr) ->
  forallb (fun a => negb (is_OnMessage a)) tr = true.
Proof.
  intros Hs Hh R. rewrite deliver_unfold in R.
  rewrite (bind_run _ _ _ _ _ _ (filtered_nil r p msg st s Hs Hh)) in R.
  simpl in R. destruct (pass_on_run t msg st) as (f0 & st0 & tr0 & R0 & Hn & _).
  rewrite R0 in R. injection R as <- <- <-. exact Hn.
Qed.

Lemma iterate_unhandled r p t round st s f st' tr :
  heap st !! p = Some s -> user_handler s = None ->
  iterate r p t round st = Some (f, st', tr) ->
  forallb (fun a => negb (is_OnMessage a)) tr = true.
Proof.
  intros Hs Hh R. destruct round as [[msg|]| | | |msg| |d|].
  - simpl in R. now apply (deliver_unhandled r p t msg st s f st' tr).
  - simpl in R. now run_all.
  - simpl in R. apply bind_Some in R. destruct R as (s0 & st1 & t1 & t2 & RL & R & ->).
    apply load_Some in RL. destruct RL as (Hs0 & -> & ->).
    rewrite Hs in Hs0. injection Hs0 as <-.
    destruct (try_recv (direct_messages s)) as [v c| |]; [|now run_all|now run_all].
    apply bind_Some in R. destruct R as (u & st1 & t3 & t4 & RS & R & ->).
    apply store_Some in RS. destruct RS as (-> & ->). simpl.
    apply (deliver_unhandled r p t v (set_heap (insert p (set_direct_messages s c)) st)
             (set_direct_messages s c) f st' t4);
      [apply lookup_insert_eq|exact Hh|exact R].
  - now apply (iterate_ping_unfiltered r p t st f st' tr).
  - simpl in R. now run_all.
  - simpl in R. apply bind_Some in R. destruct R as (e & st1 & t1 & t2 & RD & R & ->).
    apply session_DirectMessage_kept in RD. destruct RD as (_ & ->). now run_all.
  - simpl in R. apply bind_Some in R. destruct R as (e & st1 & t1 & t2 & RD & R & ->).
    apply session_Close_kept in RD. destruct RD as (_ & rel & ->). now run_all.
  - simpl in R. now run_all.
  - simpl in R. now run_all.
Qed.

Lemma multiplex_unhandled r p sched : forall t st s e st' tr,
  heap st !! p = Some s -> user_handler s = None ->
  multiplex r p t sched st = Some (e, st', tr) ->
  forallb (fun a => negb (is_OnMessage a)) tr = true.
Proof.
  induction sched as [|round rest IH]; intros t st s e st' tr Hs Hh R; simpl in R.
  - now run_all.
  - apply bind_Some in R. destruct R as (f & st1 & t1 & t2 & RI & R & ->).
    pose proof (iterate_unhandled _ _ _ _ _ _ _ _ _ Hs Hh RI) as N1.
    apply iterate_kept in RI. destruct RI as (K & _).
    destruct (kept_unhandled p st st1 s K Hs Hh) as (s1 & Hs1 & Hh1 & _).
    rewrite forallb_app, N1. simpl.
    destruct f as [t'|]; [|now run_all].
    exact (IH t' st1 s1 e st' t2 Hs1 Hh1 R).
Qed.

Lemma connected_unhandled r p sched st s e st' tr :
  heap st !! p = Some s -> user_handler s = None ->
  connected r p sched st = Some (e, st', tr) ->
  forallb (fun a => negb (is_hook a)) tr = true.
Proof.
  intros Hs Hh R. unfold connected in R.
  apply bind_Some in R. destruct R as (s0 & st1 & t1 & t2 & RL & R & ->).
  apply load_Some in RL. destruct RL as (Hs0 & -> & ->).
  apply bind_Some in R. destruct R as (e1 & st2 & t3 & t4 & RD & R & ->).
  apply session_DirectMessage_kept in RD. destruct RD as (K1 & ->).
  destruct (kept_unhandled p st st2 s K1 Hs Hh) as (s2 & Hs2 & Hh2 & _).
  apply bind_Some in R. destruct R as (failed & st3 & t5 & t6 & RH & R & ->).
  unfold connect_hook in RH.
  rewrite (bind_run _ _ _ s2 st2 []) in RH; [|unfold load; now rewrite Hs2].
  rewrite Hh2 in RH. unfold ret in RH. injection RH as <- <- <-. simpl in R.
  apply bind_Some in R. destruct R as (st0 & st4 & t7 & t8 & RG & R & ->).
  apply get_Some in RG. destruct RG as (-> & -> & ->).
  apply bind_Some in R. destruct R as (x & st5 & t9 & t10 & RM & R & ->).
  pose proof (multiplex_unhandled _ _ _ _ _ _ _ _ _ Hs2 Hh2 RM) as N.
  apply multiplex_kept in RM. destruct RM as (_ & T).
  pose proof (loop_action_hook t9 T N) as Hk. simpl.
  rewrite forallb_app, Hk. simpl.
  destruct x; run_all; reflexivity.
Qed.

(** X13. A stream on a server without a handler (no factory, or a
    factory that makes none) runs none of the hooks, never panics, and
    still cleans up: while the handler function is in its loop the
    session is registered under its client id, and when the function
    returns the registry entry is deleted, the session is closed, and the
    request context is cancelled, in that order. *)
Theorem stream_without_handler r id sched st :
  opens_stream r -> factory st = None \/ factory st = Some None ->
  exists e st' tr,
    serveSSE r id sched st = Some (e, st', tr) /\
    forallb (fun a => negb (is_hook a)) tr = true /\
    match e with
    | Returned =>
        clients st' = delete id (clients st) /\
        exists pre rel, tr = opening id ++ pre ++ [AUnregister id; AClose rel; ACancel]
    | Blocked =>
        clients st' = <[id := fresh (dom (heap st))]> (clients st) /\
        exists s, Find st' id = Some s /\ client_id s = id /\ user_handler s = None
    end.
Proof.
  intros Hopen Hf. rewrite (serveSSE_opens _ _ _ Hopen), openStream_unfold.
  set (p := fresh (dom (heap st))).
  set (st1 := set_clients (insert id p) (set_heap (insert p (new_session id)) st)).
  assert (Hs1 : heap st1 !! p = Some (new_session id)) by apply lookup_insert_eq.
  assert (L1 : live p st1) by now apply (fresh_session_live id).
  unfold initialized.
  rewrite (bind_run _ _ _ _ _ _ (initialize_hook_none r p st1 Hf)). cbv iota.
  destruct (connected_total r p sched st1 L1) as (e & st2 & t2 & RC).
  pose proof (connected_unhandled _ _ _ _ _ _ _ _ Hs1 eq_refl RC) as Hk.
  pose proof (connected_kept _ _ _ _ _ _ _ RC) as (K & _).
  destruct (kept_unhandled p st1 st2 _ K Hs1 eq_refl) as (s2 & Hs2 & Hh2 & I2 & W2).
  pose proof K as (KC & _).
  rewrite (bind_run _ _ _ _ _ _ RC). destruct e.
  - rewrite (bind_run _ _ _ _ _ _ (disconnect_nil r p st2 s2 Hs2 Hh2)).
    unfold ret. simpl.
    set (st3 := set_clients (delete (client_id s2)) st2).
    destruct (session_Close_run p st3 s2 Hs2) as (st4 & RX & KC4);
      [apply W2, new_session_wf|].
    rewrite RX. eexists. eexists. eexists. split; [reflexivity|].
    split.
    + simpl. rewrite !forallb_app, Hk. reflexivity.
    + split.
      * rewrite KC4. subst st3. simpl. rewrite KC, I2. simpl. apply delete_insert_eq.
      * exists t2. eexists. rewrite I2. simpl. rewrite <- app_assoc. reflexivity.
  - unfold ret. simpl. eexists. eexists. eexists. split; [reflexivity|].
    split; [simpl; rewrite ?app_nil_r, ?forallb_app, Hk; reflexivity|].
    split; [exact KC|].
    exists s2. unfold Find. rewrite KC. simpl. rewrite lookup_insert_eq.
    split; [exact Hs2|]. split; [exact I2|exact Hh2].
Qed.

End Unhandled.

Lemma stream_without_handler_witness :
  exists e st' tr,
    serveSSE (E := Demo.external) (HH := Demo.handler) Demo.stream_request "c1"
      [EvBroadcast (Some Demo.msg_x); EvDone] (Demo.server None Demo.writer)
    = Some (e, st', tr) /\
    forallb (fun a => negb (is_hook a)) tr = true.
Proof.
  destruct (stream_without_handler (E := Demo.external) (HH := Demo.handler)
              Demo.stream_request "c1" [EvBroadcast (Some Demo.msg_x); EvDone]
              (Demo.server None Demo.writer))
    as (e & st' & tr & R & Hk & _).
  - left. reflexivity.
  - left. reflexivity.
  - exists e, st', tr. split; [exact R|exact Hk].
Defined.

(** ** The handler function never panics *)

Section Safety.
Context {E : External} {H : Type} {HH : SseEventHandler H}.
Implicit Types (st : State H) (s : SseSession H) (msg : SseMessage) (t : Ticker).

Lemma within_refl st : within st st.
Proof. split; auto. Qed.

Lemma within_trans st1 st2 st3 : within st1 st2 -> within st2 st3 -> within st1 st3.
Proof. intros [A1 B1] [A2 B2]. split; auto. Qed.

Lemma kept_within p st st' : kept p st st' -> within st st'.
Proof.
  intros (KC & _ & _ & KO & KS). split.
  - intros q [s Hs]. destruct (decide (q = p)) as [->|N].
    + destruct (KS s Hs) as (s' & Hs' & _). eauto.
    + rewrite (KO q N). eauto.
  - intros id q. now rewrite KC.
Qed.

Lemma within_store p (s' : SseSession H) st :
  within st (set_heap (insert p s') st).
Proof.
  split; [|auto]. intros q Hq. simpl.
  destruct (decide (q = p)) as [->|N];
    [rewrite lookup_insert_eq; eauto|now rewrite lookup_insert_ne by done].
Qed.

Lemma within_resp f st : within st (set_resp f st).
Proof. split; auto. Qed.

Lemma within_unregister id st : within st (set_clients (delete id) st).
Proof.
  split; [auto|]. intros i q. simpl. intros Hq.
  apply lookup_delete_Some in Hq as [_ Hq]. exact Hq.
Qed.

Lemma registry_ok_within st st' : registry_ok st -> within st st' -> registry_ok st'.
Proof. intros Hok [A B] id p Hp. apply A, (Hok id), B, Hp. Qed.

Lemma handleCallback_safe r st :
  registry_ok st ->
  exists st' tr, handleCallback r st = Some (tt, st', tr) /\ within st st'.
Proof.
  intros Hok. unfold handleCallback.
  destruct (String.eqb (resolveClientID r) "").
  { rewrite WriteError_run. eexists. eexists. split; [reflexivity|apply within_resp]. }
  rewrite (bind_run _ _ st st st [] eq_refl).
  destruct (clients st !! resolveClientID r) as [p|] eqn:Hp.
  - destruct (Hok _ _ Hp) as [s Hs].
    rewrite (bind_run _ _ st s st []); [|unfold load; now rewrite Hs].
    destruct (user_handler s) as [uh|].
    + eexists. eexists. split; [reflexivity|]. apply within_store.
    + eexists. eexists. split; [reflexivity|]. apply within_refl.
  - rewrite WriteError_run. eexists. eexists. split; [reflexivity|apply within_resp].
Qed.

Lemma disconnect_safe r p st :
  live p st ->
  exists st' tr, disconnect r p st = Some (tt, st', tr) /\ within st st' /\ live p st'.
Proof.
  intros (s & Hs & W). destruct (user_handler s) as [uh|] eqn:Hh.
  - rewrite (disconnect_handler r p st s uh Hs Hh). eexists. eexists.
    split; [reflexivity|]. split.
    + eapply within_trans; [apply (within_unregister (client_id s))|apply within_store].
    + eexists. split; [apply lookup_insert_eq|now apply set_user_handler_wf].
  - rewrite (disconnect_nil r p st s Hs Hh). eexists. eexists.
    split; [reflexivity|]. split; [apply within_unregister|]. now exists s.
Qed.

(** From the [on_connect] message to the deferred function. *)
Lemma after_init_safe r p sched st :
  live p st ->
  exists e st' tr,
    bind (connected r p sched)
      (fun e => match e with
                | Blocked => ret Blocked
                | Returned => let* _ := disconnect r p in ret Returned
                end) st = Some (e, st', tr) /\
    within st st' /\ live p st'.
Proof.
  intros L. destruct (connected_total r p sched st L) as (e & st2 & t2 & RC).
  rewrite (bind_run _ _ _ _ _ _ RC).
  apply connected_kept in RC. destruct RC as (K & _).
  pose proof (kept_live _ _ _ K L) as L2. pose proof (kept_within _ _ _ K) as W2.
  destruct e.
  - destruct (disconnect_safe r p st2 L2) as (st3 & t3 & RD & W3 & L3).
    rewrite (bind_run _ _ _ _ _ _ RD). unfold ret.
    eexists. eexists. eexists. split; [reflexivity|].
    split; [eapply within_trans; eassumption|exact L3].
  - unfold ret. eexists. eexists. eexists. split; [reflexivity|]. auto.
Qed.

Lemma initialized_safe r p sched st :
  live p st ->
  exists e st' tr,
    initialized r p sched st = Some (e, st', tr) /\ within st st' /\ live p st'.
Proof.
  intros L. pose proof L as (s & Hs & W). unfold initialized.
  destruct (factory st) as [[uh|]|] eqn:Hf.
  - unfold bind at 1. rewrite (initialize_hook_handler r p st s uh Hs Hf). cbv zeta.
    set (s1 := set_user_handler s _). set (st1 := set_heap (insert p s1) st).
    assert (L1 : live p st1).
    { exists s1. split; [apply lookup_insert_eq|now apply set_user_handler_wf]. }
    destruct (OnInitialize uh r (client_id s)).2 as [e|].
    + unfold ret. eexists. eexists. eexists. split; [reflexivity|]. split.
      * eapply within_trans; [apply (within_store p s1)|apply within_resp].
      * destruct L1 as (s1' & Hs1 & W1). exists s1'. auto.
    + destruct (after_init_safe r p sched st1 L1) as (e & st2 & t2 & R & W2 & L2).
      fold (bind (connected r p sched)
              (fun e => match e with
                        | Blocked => ret Blocked
                        | Returned => let* _ := disconnect r p in ret Returned
                        end) st1).
      rewrite R. eexists. eexists. eexists. split; [reflexivity|].
      split; [eapply within_trans; [apply (within_store p s1)|exact W2]|exact L2].
  - rewrite (bind_run _ _ _ _ _ _ (initialize_hook_none r p st (or_intror Hf))).
    destruct (after_init_safe r p sched st L) as (e & st2 & t2 & R & W2 & L2).
    cbv iota. rewrite R. eexists. eexists. eexists. split; [reflexivity|]. auto.
  - rewrite (bind_run _ _ _ _ _ _ (initialize_hook_none r p st (or_introl Hf))).
    destruct (after_init_safe r p sched st L) as (e & st2 & t2 & R & W2 & L2).
    cbv iota. rewrite R. eexists. eexists. eexists. split; [reflexivity|]. auto.
Qed.

Lemma serveSSE_safe_step r id sched st :
  registry_ok st ->
  exists e st' tr, serveSSE r id sched st = Some (e, st', tr) /\ registry_ok st'.
Proof.
  intros Hok. unfold serveSSE.
  destruct (negb (containsAcceptType (Header_Get r "Accept") streamType)
            && negb (String.eqb (Header_Get r "X-Client-ID") "")).
  - destruct (handleCallback_safe r st Hok) as (st' & tr & R & W).
    rewrite (bind_run _ _ _ _ _ _ R). unfold ret.
    eexists. eexists. eexists. split; [reflexivity|].
    now apply (registry_ok_within st).
  - rewrite openStream_unfold.
    set (p := fresh (dom (heap st))).
    set (st1 := set_clients (insert id p) (set_heap (insert p (new_session id)) st)).
    assert (Hs1 : heap st1 !! p = Some (new_session id)) by apply lookup_insert_eq.
    assert (L1 : live p st1) by now apply (fresh_session_live id).
    assert (Hok1 : registry_ok st1).
    { intros i q Hq. simpl in *.
      destruct (decide (i = id)) as [->|N].
      - rewrite lookup_insert_eq in Hq. injection Hq as <-. rewrite lookup_insert_eq. eauto.
      - rewrite lookup_insert_ne in Hq by done.
        destruct (decide (q = p)) as [->|Nq];
          [rewrite lookup_insert_eq; eauto|rewrite lookup_insert_ne by done].
        now apply (Hok i). }
    destruct (initialized_safe r p sched st1 L1) as (e & st2 & t2 & R & W2 & L2).
    rewrite R. destruct e.
    + destruct (session_Close_total p st2 L2) as (st3 & rel & RX).
      rewrite RX. eexists. eexists. eexists. split; [reflexivity|].
      apply session_Close_kept in RX. destruct RX as (K & _).
      apply (registry_ok_within st2); [|now apply (kept_within p)].
      now apply (registry_ok_within st1).
    + eexists. eexists. eexists. split; [reflexivity|].
      now apply (registry_ok_within st1).
Qed.

(** X14. The handler function of [RegisterSSE] never panics. A server
    whose registry points to sessions that exist, as that of a new
    server does, answers every request, stream or callback, whatever the
    handler, the schedule and the transport do, and its registry again
    points to sessions that exist; so no sequence of requests panics. *)
Theorem serveSSE_never_panics :
  (forall (f : option (option H)) n w,
      registry_ok {| factory := f; clients := ∅; heap := ∅; now := n; resp := w |}) /\
  (forall r id sched st,
      registry_ok st ->
      exists e st' tr, serveSSE r id sched st = Some (e, st', tr) /\ registry_ok st') /\
  (forall requests st,
      registry_ok st ->
      exists st', serve_each requests st = Some st' /\ registry_ok st').
Proof.
  split; [|split].
  - intros f n w id p Hp. simpl in Hp. now rewrite lookup_empty in Hp.
  - intros r id sched st. apply serveSSE_safe_step.
  - induction requests as [|[[r id] sched] rest IH]; intros st Hok.
    + exists st. auto.
    + simpl. destruct (serveSSE_safe_step r id sched st Hok) as (e & st1 & tr & R & Hok1).
      rewrite R. now apply IH.
Qed.

End Safety.

Lemma serveSSE_never_panics_witness :
  exists st',
    serve_each (E := Demo.external) (HH := Demo.handler)
      [(Demo.stream_request, "c1", [EvDirect]);
       (Demo.callback_request "c1", "c2", []);
       (Demo.callback_request "c9", "c3", [])]
      (Demo.server (Some (Some (Demo.script None None true))) Demo.writer)
    = Some st' /\ registry_ok st'.
Proof.
  apply (proj2 (proj2 (serveSSE_never_panics (E := Demo.external) (HH := Demo.handler)))).
  apply (proj1 (serveSSE_never_panics (E := Demo.external) (HH := Demo.handler))).
Defined.

(** ** Callbacks and the stream they name *)

Section Reach.
Context {E : External} {H : Type} {HH : SseEventHandler H}.
Implicit Types (st : State H) (s : SseSession H) (msg : SseMessage) (t : Ticker).

Lemma handleCallback_found rc st p s uh :
  resolveClientID rc <> "" ->
  clients st !! resolveClientID rc = Some p ->
  heap st !! p = Some s -> user_handler s = Some uh ->
  handleCallback rc st
  = Some (tt, set_heap (insert p (set_user_handler s (Some (OnCallback uh rc)))) st,
          [AOnCallback (resolveClientID rc)]).
Proof.
  intros Hne Hp Hs Hh. unfold handleCallback.
  apply String.eqb_neq in Hne. rewrite Hne.
  rewrite (bind_run _ _ st st st [] eq_refl), Hp.
  rewrite (bind_run _ _ st s st []); [|unfold load; now rewrite Hs].
  rewrite Hh. reflexivity.
Qed.

Lemma handleCallback_unknown rc st :
  resolveClientID rc <> "" ->
  clients st !! resolveClientID rc = None ->
  handleCallback rc st
  = Some (tt, set_resp (error_response errClientNotFound) st,
          [AWriteError errClientNotFound]).
Proof.
  intros Hne Hp. unfold handleCallback.
  apply String.eqb_neq in Hne. rewrite Hne.
  rewrite (bind_run _ _ st st st [] eq_refl), Hp. reflexivity.
Qed.

(** X15. A callback reaches the handler of the stream it names exactly
    while that stream is connected. Between the successful
    [OnInitialize] of a stream and the return of its handler function, a
    callback that resolves to the stream's client id runs [OnCallback]
    on the stream's handler and leaves the session registered; once the
    handler function has returned, the same callback is answered with
    the client-not-found error and runs no hook. *)
Theorem callback_reaches_stream r id sched st uh rc :
  opens_stream r -> factory st = Some (Some uh) ->
  (OnInitialize uh r id).2 = None ->
  resolveClientID rc = id -> id <> "" ->
  (forall st' tr,
      serveSSE r id sched st = Some (Blocked, st', tr) ->
      exists s h,
        Find st' id = Some s /\ client_id s = id /\ user_handler s = Some h /\
        handleCallback rc st'
        = Some (tt, set_heap (insert (fresh (dom (heap st)))
                                (set_user_handler s (Some (OnCallback h rc)))) st',
                [AOnCallback id])) /\
  (forall st' tr,
      serveSSE r id sched st = Some (Returned, st', tr) ->
      Find st' id = None /\
      handleCallback rc st'
      = Some (tt, set_resp (error_response errClientNotFound) st',
              [AWriteError errClientNotFound])).
Proof.
  intros Hopen Hf Hok Hrc Hne.
  destruct (stream_run r id st uh Hopen Hf Hok)
    as (st1 & s1 & Hs1 & W1 & I1 & U1 & O1 & C1 & Hrun).
  set (p := fresh (dom (heap st))) in *.
  split.
  - intros st' tr R. rewrite Hrun in R.
    destruct (connected r p sched st1) as [[[[] st2] t2]|] eqn:RC.
    + destruct (disconnect r p st2) as [[[u st3] t3]|]; [|discriminate R].
      destruct (session_Close p st3) as [[[u' st4] t4]|]; discriminate R.
    + injection R as <- <-.
      apply connected_kept in RC. destruct RC as ((KC & _ & _ & _ & KS) & _).
      destruct (KS s1 Hs1) as (s2 & Hs2 & I2 & U2 & _).
      destruct (user_handler s2) as [h|] eqn:Hh2; [|tauto].
      assert (Hp : clients st2 !! id = Some p).
      { rewrite KC, C1. apply lookup_insert_eq. }
      exists s2, h. unfold Find. rewrite Hp.
      split; [exact Hs2|]. split; [congruence|]. split; [exact Hh2|].
      rewrite <- Hrc in Hp, Hne.
      rewrite (handleCallback_found rc st2 p s2 h Hne Hp Hs2 Hh2). now rewrite Hrc.
    + discriminate R.
  - intros st' tr R. rewrite Hrun in R.
    destruct (connected r p sched st1) as [[[[] st2] t2]|] eqn:RC; [|discriminate R..].
    apply connected_kept in RC. destruct RC as ((KC & _ & _ & _ & KS) & _).
    destruct (KS s1 Hs1) as (s2 & Hs2 & I2 & U2 & W2).
    destruct (user_handler s2) as [h|] eqn:Hh2; [|tauto].
    rewrite (disconnect_handler r p st2 s2 h Hs2 Hh2) in R.
    set (s3 := set_user_handler s2 (Some (OnDisconnect h r))) in *.
    set (st3 := set_heap _ _) in *.
    assert (Hs3 : heap st3 !! p = Some s3) by apply lookup_insert_eq.
    destruct (session_Close_run p st3 s3 Hs3) as (st4 & RX & KC4);
      [apply set_user_handler_wf; auto|].
    rewrite RX in R. injection R as <- <-.
    assert (Hnone : clients st4 !! id = None).
    { rewrite KC4. subst st3. simpl. rewrite I2, I1. apply lookup_delete_eq. }
    split; [unfold Find; now rewrite Hnone|].
    rewrite <- Hrc in Hnone, Hne. now apply handleCallback_unknown.
Qed.

End Reach.

Lemma callback_reaches_stream_witness :
  exists st' tr s h,
    Demo.run (Demo.script None None true) Demo.writer [EvDirect] = Some (Blocked, st', tr) /\
    Find st' "c1" = Some s /\ user_handler s = Some h /\
    handleCallback (E := Demo.external) (HH := Demo.handler) (Demo.callback_request "c1") st'
    = Some (tt, set_heap (insert 0%nat (set_user_handler s (Some (Demo.called h)))) st',
            [AOnCallback "c1"]).
Proof.
  destruct (Demo.run (Demo.script None None true) Demo.writer [EvDirect])
    as [[[e st'] tr]|] eqn:R; [|vm_compute in R; discriminate R].
  assert (e = Blocked) as ->.
  { vm_compute in R. now injection R as <- _ _. }
  destruct (callback_reaches_stream (E := Demo.external) (HH := Demo.handler)
              Demo.stream_request "c1" [EvDirect]
              (Demo.server (Some (Some (Demo.script None None true))) Demo.writer)
              (Demo.script None None true) (Demo.callback_request "c1"))
    as [Hb _].
  - left. reflexivity.
  - reflexivity.
  - reflexivity.
  - reflexivity.
  - discriminate.
  - destruct (Hb st' tr R) as (s & h & Hfind & _ & Hh & Hcb).
    exists st', tr, s, h. auto.
Defined.

(** ** The handshake *)

Section Handshake.
Context {E : External} {H : Type} {HH : SseEventHandler H}.
Implicit Types (st : State H) (s : SseSession H) (msg : SseMessage) (t : Ticker).



End Handshake.


(** ** Racing calls of [Close] *)

Lemma Close_race_once_witness :
  session_wf Demo.open_session /\ closed Demo.open_session = false /\
  exists a b s,
    Close_race [true; false; true; false; true; true; false] AtGuard AtGuard
      Demo.open_session = Some (a, b, s) /\
    (a = Finished -> b = Finished -> fst <$> Close Demo.open_session = Some s).
Proof.
  assert (W : session_wf Demo.open_session) by apply new_session_wf.
  split; [exact W|]. split; [reflexivity|].
  exact (Close_race_once Demo.open_session
           [true; false; true; false; true; true; false] W eq_refl).
Defined.
